(** * miniAPP: the weather mini app of [src/App.tsx]

    A shallow embedding of the [App] component: its React state and refs,
    the browser services it calls ([localStorage], [setTimeout],
    [fetch] with an [AbortController]) and its event handlers, followed by
    the properties of the favourites list, the hourly slice, request
    cancellation, persistence, error handling, start-up and debouncing.

    The state is kept at the types the source declares.  Two values come
    into it unchecked, the two stored texts that the restore parses: where
    such a text holds a value of another type the embedding stops
    ([Mistyped]), and the worlds it calls reachable are those of a start-up
    that did not stop.  The render is not modelled beyond the hourly card
    and the guards of the controls. *)

From Stdlib Require Import List String Ascii ZArith NArith Bool Arith Lia.
Import ListNotations.

Local Open Scope string_scope.
Local Open Scope list_scope.

(* ================================================================= *)
(** ** JavaScript values *)

Module JS.

(** A [number] as the app meets it.  Every number in the component comes out
    of [JSON.parse] (a geocoding or forecast response, or a stored record),
    and JSON has no literal for NaN: what is left of the doubles is the two
    zeros, the two infinities (which [JSON.parse] gives for a literal such as
    [1e999]) and the finite values.  [Finite s m e] is the value
    [(-1)^s * m * 2^e]; the finite doubles are among these values, and one
    value has many terms ([2 * 2^0] is [1 * 2^1]). *)
Inductive number : Type :=
| Zero (negative : bool)
| Infinity (negative : bool)
| Finite (negative : bool) (mantissa : positive) (exponent : Z).

(** The one way to write [m * 2^e] with an odd mantissa. *)
Fixpoint odd_mantissa (m : positive) (e : Z) : positive * Z :=
  match m with
  | xO m' => odd_mantissa m' (e + 1)
  | _ => (m, e)
  end.

(** One term for each value that [===] tells apart: [+0] and [-0] are the
    same for it, and a finite value is written with its odd mantissa. *)
Definition canonical (x : number) : number :=
  match x with
  | Zero _ => Zero false
  | Infinity s => Infinity s
  | Finite s m e => let (m', e') := odd_mantissa m e in Finite s m' e'
  end.

Definition number_eqb (x y : number) : bool :=
  match x, y with
  | Zero s, Zero t => Bool.eqb s t
  | Infinity s, Infinity t => Bool.eqb s t
  | Finite s m e, Finite t n f => Bool.eqb s t && Pos.eqb m n && Z.eqb e f
  | _, _ => false
  end.

(** [x === y] on numbers: equality of the values, which identifies [+0] and
    [-0]. *)
Definition strict_eq (x y : number) : bool := number_eqb (canonical x) (canonical y).

(** The same relation, written without the comparison. *)
Definition same_number (x y : number) : Prop := canonical x = canonical y.

(** A thrown value [e : unknown], by what [isAbortError] can observe. *)
Inductive thrown : Type :=
| DOMException (name : string)
| ErrorObject (name : option string)
| NonObject.

(** What [controller.abort()] makes a pending [fetch] or body read reject
    with. *)
Definition AbortError : thrown := DOMException "AbortError".

(** [new Error(`HTTP ${res.status}`)], a [TypeError] and a [SyntaxError] are
    objects whose [name] is the class name. *)
Definition Error : thrown := ErrorObject (Some "Error").
Definition TypeError : thrown := ErrorObject (Some "TypeError").
Definition SyntaxError : thrown := ErrorObject (Some "SyntaxError").

Definition URIError : thrown := ErrorObject (Some "URIError").

(** A JavaScript string is kept as the bytes of its UTF-8 encoding, which is
    how the literals of this file are read.  A surrogate that has no partner
    is kept like any code point of its range, in three bytes (237, then
    160-191, then 128-191); a surrogate pair is kept as the four bytes of
    its code point.  [chars] cuts the bytes into code points: the first
    byte of a code point tells how many bytes it has. *)
Fixpoint chars (l : list ascii) : list (list ascii) :=
  match l with
  | [] => []
  | a :: r1 =>
      if (N_of_ascii a <? 192)%N then [a] :: chars r1
      else
        match r1 with
        | [] => [[a]]
        | b :: r2 =>
            if (N_of_ascii a <? 224)%N then [a; b] :: chars r2
            else
              match r2 with
              | [] => [[a; b]]
              | c :: r3 =>
                  if (N_of_ascii a <? 240)%N then [a; b; c] :: chars r3
                  else
                    match r3 with
                    | [] => [[a; b; c]]
                    | d :: r4 => [a; b; c; d] :: chars r4
                    end
              end
        end
  end.

(** The code points that [trim] strips, ECMAScript's WhiteSpace and
    LineTerminator, by their bytes: U+0009 to U+000D and U+0020; U+00A0;
    U+1680; U+2000 to U+200A, U+2028, U+2029, U+202F; U+205F; U+3000;
    U+FEFF. *)
Definition is_white_space (c : list ascii) : bool :=
  match map N_of_ascii c with
  | [a] => ((9 <=? a) && (a <=? 13) || (a =? 32))%N
  | [a; b] => ((a =? 194) && (b =? 160))%N
  | [a; b; c] =>
      ((a =? 225) && (b =? 154) && (c =? 128)
       || (a =? 226) && (b =? 128)
          && ((128 <=? c) && (c <=? 138) || (c =? 168) || (c =? 169) || (c =? 175))
       || (a =? 226) && (b =? 129) && (c =? 159)
       || (a =? 227) && (b =? 128) && (c =? 128)
       || (a =? 239) && (b =? 187) && (c =? 191))%N
  | _ => false
  end.

(** A surrogate, U+D800 to U+DFFF: in this encoding it has no partner. *)
Definition is_surrogate (c : list ascii) : bool :=
  match map N_of_ascii c with
  | [a; b; _] => ((a =? 237) && (160 <=? b))%N
  | _ => false
  end.

(** A string without a lone surrogate. *)
Definition well_formed (s : string) : bool :=
  forallb (fun c => negb (is_surrogate c)) (chars (list_ascii_of_string s)).

Fixpoint drop_white_space (l : list (list ascii)) : list (list ascii) :=
  match l with
  | [] => []
  | c :: r => if is_white_space c then drop_white_space r else l
  end.

Definition trimStart (l : list (list ascii)) : list (list ascii) := drop_white_space l.
Definition trimEnd (l : list (list ascii)) : list (list ascii) :=
  rev (drop_white_space (rev l)).

(** [s.trim()] *)
Definition trim (s : string) : string :=
  string_of_list_ascii (List.concat (trimEnd (trimStart (chars (list_ascii_of_string s))))).

(** A string is truthy when it is not empty. *)
Definition truthy (s : string) : bool :=
  match s with EmptyString => false | String _ _ => true end.

(** A string made of white space only; the empty string is one. *)
Definition blank (s : string) : bool :=
  forallb is_white_space (chars (list_ascii_of_string s)).

End JS.

Import JS.

(** [isAbortError], lines 12-19. *)
Definition isAbortError (e : thrown) : bool :=
  match e with
  | DOMException n => String.eqb n "AbortError"
  | ErrorObject (Some n) => String.eqb n "AbortError"
  | ErrorObject None => false
  | NonObject => false
  end.

(* ================================================================= *)
(** ** The data model *)

Module City.

Record t : Type := make {
  name : string;
  country : option string;
  latitude : number;
  longitude : number
}.

End City.

Notation City := City.t.

(** The comparison that [hasFavorited] and [toggleFavorite] both make between
    a list entry [c] and the selected city. *)
Definition sameCity (c selectedCity : City) : bool :=
  strict_eq (City.latitude c) (City.latitude selectedCity)
  && strict_eq (City.longitude c) (City.longitude selectedCity)
  && String.eqb (City.name c) (City.name selectedCity).

Module Current.

Record t : Type := make {
  temperature : number;
  windspeed : number;
  winddirection : number;
  time : string
}.

End Current.

Module Hourly.

Record t : Type := make {
  time : list string;
  temperature_2m : list number;
  relativehumidity_2m : list number
}.

End Hourly.

Record WeatherData : Type := {
  current : option Current.t;
  hourly : option Hourly.t
}.

(** The geocoding response: [results] may be missing. *)
Record GeocodingResponse : Type := {
  results : option (list City)
}.

(** The forecast response is untyped in the source ([await res.json()] is
    [any]): each property it reads may be missing, and reading through a
    missing one throws a [TypeError]. *)
Module Forecast.

Record hourly_t : Type := make_hourly {
  time : option (list string);
  temperature_2m : option (list number);
  relativehumidity_2m : option (list number)
}.

Record t : Type := make {
  current_weather : option Current.t;
  hourly : option hourly_t
}.

End Forecast.

(* ================================================================= *)
(** ** The browser: storage, timers, requests *)

(** The two keys of [localStorage] the component uses (lines 51-52). *)
Inductive key : Type :=
| FAVORITES_KEY     (* 'miniapp:favorites' *)
| LAST_CITY_KEY.    (* 'miniapp:lastCity' *)

Definition key_name (k : key) : string :=
  match k with
  | FAVORITES_KEY => "miniapp:favorites"
  | LAST_CITY_KEY => "miniapp:lastCity"
  end.

(** A stored string, by what [if (raw)] and [JSON.parse(raw)] make of it:
    the empty string is falsy; a text that is not JSON makes [JSON.parse]
    throw a [SyntaxError]; any other text parses to a value.  The component
    uses that value at the type [A] of the state cell it puts it in, without
    looking at it: [Json a] is a text whose value [a] is of that type,
    [Foreign] a text whose value is not ([null], [5], [{}], a record whose
    latitude is [null]). *)
Inductive text (A : Type) : Type :=
| EmptyText
| Malformed
| Json (a : A)
| Foreign.

Arguments EmptyText {A}.
Arguments Malformed {A}.
Arguments Json {A} a.
Arguments Foreign {A}.

(** [localStorage]: what [getItem] returns for each key ([None] is [null]),
    and the browser's answer to the next [setItem]: when [quota_exceeded]
    holds the call throws a [QuotaExceededError].  Whether a write fits
    depends on sizes that are not modelled; the answer can change at any
    time (the event [Quota] below), so that every sequence of accepted and
    refused writes is a run of the model. *)
Record Storage : Type := {
  favorites_item : option (text (list City));
  lastCity_item : option (text City);
  quota_exceeded : bool
}.

(** A value passed through [JSON.stringify] to [setItem]. *)
Inductive stored : Type :=
| Cities (l : list City)
| OneCity (c : City).

(** What a request asks for: the geocoding search of a name (with
    [count=6&language=zh&format=json]) or the forecast at a city's
    coordinates. *)
Inductive target : Type :=
| Geocode (name : string)
| ForecastOf (city : City).

(** Where an [async] function is suspended. *)
Inductive phase : Type :=
| AwaitResponse   (* at [await fetch(...)] *)
| AwaitBody.      (* at [await res.json()] *)

(** A call of [fetchSuggestions] or [fetchWeather] that has not finished,
    with the [AbortController] it created ([ctl] is the controller's
    identity) and whether that controller has been aborted. *)
Record Request : Type := {
  ctl : nat;
  asks : target;
  at_phase : phase;
  aborted : bool
}.

(** A pending [setTimeout]: the closure holds the typed text and the
    [loadingSuggest] of the render that created it. *)
Record Timer : Type := {
  timer_id : nat;
  due : nat;
  typed : string;
  seen_loadingSuggest : bool
}.

(** Calls that leave the component, in the order they are made. *)
Inductive effect : Type :=
| CallFetch (ctl : nat) (t : target)
| CallAbort (ctl : nat)
| CallSetItem (k : key) (v : stored)
| CallSetTimeout (id : nat) (v : string) (delay : nat)
| CallClearTimeout (id : nat).

(** The [useState] cells (lines 55-62). *)
Record State : Type := {
  query : string;
  suggestions : list City;
  selectedCity : option City;
  favorites : list City;
  weather : option WeatherData;
  loading : bool;
  loadingSuggest : bool;
  error : option string
}.

(** The [useRef] cells (lines 64-66). *)
Record Refs : Type := {
  suggestAbortRef : option nat;
  weatherAbortRef : option nat;
  debounceRef : option nat
}.

Record Browser : Type := {
  storage : Storage;
  now : nat;
  timers : list Timer;
  next_timer : nat;
  requests : list Request;
  next_controller : nat;
  log : list effect
}.

Record World : Type := {
  ui : State;
  refs : Refs;
  browser : Browser
}.

(** *** Computations *)

(** A statement either completes or throws; the state changes it made
    before throwing stay.  [Mistyped] is the end of what this embedding can
    follow: the statement was handed a value that is not of the type the
    source gives it, and what the source does from there depends on that
    value (with [null] for favourites the next render throws a [TypeError]
    at [favorites.length], with [{}] it does not until a city is
    selected).  It is not an exception: no [catch] sees it. *)
Inductive completion (A : Type) : Type :=
| Normal (a : A)
| Throw (e : thrown)
| Mistyped.

Arguments Normal {A} a.
Arguments Throw {A} e.
Arguments Mistyped {A}.

Definition M (A : Type) : Type := World -> completion A * World.

Definition ret {A} (a : A) : M A := fun w => (Normal a, w).

Definition bind {A B} (m : M A) (k : A -> M B) : M B :=
  fun w =>
    match m w with
    | (Normal a, w') => k a w'
    | (Throw e, w') => (Throw e, w')
    | (Mistyped, w') => (Mistyped, w')
    end.

Definition throw {A} (e : thrown) : M A := fun w => (Throw e, w).

(** [try { body } catch (e) { handler(e) }] *)
Definition try_catch {A} (body : M A) (handler : thrown -> M A) : M A :=
  fun w =>
    match body w with
    | (Normal a, w') => (Normal a, w')
    | (Throw e, w') => handler e w'
    | (Mistyped, w') => (Mistyped, w')
    end.

Definition gets {A} (f : World -> A) : M A := fun w => (Normal (f w), w).
Definition modify (f : World -> World) : M unit := fun w => (Normal tt, f w).

Definition when (b : bool) (m : M unit) : M unit := if b then m else ret tt.

Declare Scope js_scope.
Delimit Scope js_scope with js.
Notation "x <- c1 ;; c2" := (bind c1 (fun x => c2))
  (at level 61, c1 at next level, right associativity) : js_scope.
Notation "c1 ;; c2" := (bind c1 (fun _ => c2))
  (at level 61, right associativity) : js_scope.
Local Open Scope js_scope.

(** The world a computation leaves. *)
Definition exec {A} (m : M A) (w : World) : World := snd (m w).

(** A computation that completes whatever the world. *)
Definition completes {A} (m : M A) : Prop :=
  forall w, exists a, fst (m w) = Normal a.

(** A computation that lets no exception out. *)
Definition catches {A} (m : M A) : Prop :=
  forall w e, fst (m w) <> Throw e.

(** A computation that stays within the types of the source. *)
Definition welltyped {A} (m : M A) : Prop :=
  forall w, fst (m w) <> Mistyped.

(** *** State setters *)

Definition with_ui (f : State -> State) (w : World) : World :=
  {| ui := f (ui w); refs := refs w; browser := browser w |}.
Definition with_refs (f : Refs -> Refs) (w : World) : World :=
  {| ui := ui w; refs := f (refs w); browser := browser w |}.
Definition with_browser (f : Browser -> Browser) (w : World) : World :=
  {| ui := ui w; refs := refs w; browser := f (browser w) |}.

Definition setQuery (v : string) : M unit :=
  modify (with_ui (fun s =>
    {| query := v; suggestions := suggestions s; selectedCity := selectedCity s;
       favorites := favorites s; weather := weather s; loading := loading s;
       loadingSuggest := loadingSuggest s; error := error s |})).

Definition setSuggestions (v : list City) : M unit :=
  modify (with_ui (fun s =>
    {| query := query s; suggestions := v; selectedCity := selectedCity s;
       favorites := favorites s; weather := weather s; loading := loading s;
       loadingSuggest := loadingSuggest s; error := error s |})).

Definition setSelectedCity (v : option City) : M unit :=
  modify (with_ui (fun s =>
    {| query := query s; suggestions := suggestions s; selectedCity := v;
       favorites := favorites s; weather := weather s; loading := loading s;
       loadingSuggest := loadingSuggest s; error := error s |})).

Definition setFavorites (v : list City) : M unit :=
  modify (with_ui (fun s =>
    {| query := query s; suggestions := suggestions s; selectedCity := selectedCity s;
       favorites := v; weather := weather s; loading := loading s;
       loadingSuggest := loadingSuggest s; error := error s |})).

Definition setWeather (v : option WeatherData) : M unit :=
  modify (with_ui (fun s =>
    {| query := query s; suggestions := suggestions s; selectedCity := selectedCity s;
       favorites := favorites s; weather := v; loading := loading s;
       loadingSuggest := loadingSuggest s; error := error s |})).

Definition setLoading (v : bool) : M unit :=
  modify (with_ui (fun s =>
    {| query := query s; suggestions := suggestions s; selectedCity := selectedCity s;
       favorites := favorites s; weather := weather s; loading := v;
       loadingSuggest := loadingSuggest s; error := error s |})).

Definition setLoadingSuggest (v : bool) : M unit :=
  modify (with_ui (fun s =>
    {| query := query s; suggestions := suggestions s; selectedCity := selectedCity s;
       favorites := favorites s; weather := weather s; loading := loading s;
       loadingSuggest := v; error := error s |})).

Definition setError (v : option string) : M unit :=
  modify (with_ui (fun s =>
    {| query := query s; suggestions := suggestions s; selectedCity := selectedCity s;
       favorites := favorites s; weather := weather s; loading := loading s;
       loadingSuggest := loadingSuggest s; error := v |})).

Definition set_suggestAbortRef (v : option nat) : M unit :=
  modify (with_refs (fun r =>
    {| suggestAbortRef := v; weatherAbortRef := weatherAbortRef r;
       debounceRef := debounceRef r |})).

Definition set_weatherAbortRef (v : option nat) : M unit :=
  modify (with_refs (fun r =>
    {| suggestAbortRef := suggestAbortRef r; weatherAbortRef := v;
       debounceRef := debounceRef r |})).

Definition set_debounceRef (v : option nat) : M unit :=
  modify (with_refs (fun r =>
    {| suggestAbortRef := suggestAbortRef r; weatherAbortRef := weatherAbortRef r;
       debounceRef := v |})).

Definition set_storage (v : Storage) (b : Browser) : Browser :=
  {| storage := v; now := now b; timers := timers b; next_timer := next_timer b;
     requests := requests b; next_controller := next_controller b; log := log b |}.

Definition set_now (v : nat) (b : Browser) : Browser :=
  {| storage := storage b; now := v; timers := timers b; next_timer := next_timer b;
     requests := requests b; next_controller := next_controller b; log := log b |}.

Definition set_timers (v : list Timer) (b : Browser) : Browser :=
  {| storage := storage b; now := now b; timers := v; next_timer := next_timer b;
     requests := requests b; next_controller := next_controller b; log := log b |}.

Definition set_next_timer (v : nat) (b : Browser) : Browser :=
  {| storage := storage b; now := now b; timers := timers b; next_timer := v;
     requests := requests b; next_controller := next_controller b; log := log b |}.

Definition set_requests (v : list Request) (b : Browser) : Browser :=
  {| storage := storage b; now := now b; timers := timers b; next_timer := next_timer b;
     requests := v; next_controller := next_controller b; log := log b |}.

Definition set_next_controller (v : nat) (b : Browser) : Browser :=
  {| storage := storage b; now := now b; timers := timers b; next_timer := next_timer b;
     requests := requests b; next_controller := v; log := log b |}.

Definition set_log (v : list effect) (b : Browser) : Browser :=
  {| storage := storage b; now := now b; timers := timers b; next_timer := next_timer b;
     requests := requests b; next_controller := next_controller b; log := v |}.

Definition record (e : effect) : M unit :=
  modify (with_browser (fun b => set_log (log b ++ [e]) b)).

(** *** [localStorage] and [JSON] *)

Definition getItem_favorites : M (option (text (list City))) :=
  gets (fun w => favorites_item (storage (browser w))).

Definition getItem_lastCity : M (option (text City)) :=
  gets (fun w => lastCity_item (storage (browser w))).

(** [if (raw)] on the result of [getItem]: [null] and [''] are falsy. *)
Definition raw_truthy {A} (raw : option (text A)) : bool :=
  match raw with
  | None => false
  | Some EmptyText => false
  | Some Malformed => true
  | Some (Json _) => true
  | Some Foreign => true
  end.

(** [JSON.parse(raw)], used at type [A]. *)
Definition JSON_parse {A} (raw : option (text A)) : M A :=
  match raw with
  | Some (Json a) => ret a
  | Some Foreign => fun w => (Mistyped, w)
  | _ => throw SyntaxError
  end.

(** What [JSON.stringify] writes for a number, read back: [-0] is written
    [0], an infinity is written [null], which is not a number. *)
Definition json_number (x : number) : option number :=
  match x with
  | Zero _ => Some (Zero false)
  | Infinity _ => None
  | Finite _ _ _ => Some x
  end.

Definition json_city (c : City) : option City :=
  match json_number (City.latitude c), json_number (City.longitude c) with
  | Some latitude, Some longitude =>
      Some {| City.name := City.name c; City.country := City.country c;
              City.latitude := latitude; City.longitude := longitude |}
  | _, _ => None
  end.

Fixpoint json_cities (l : list City) : option (list City) :=
  match l with
  | [] => Some []
  | c :: r =>
      match json_city c, json_cities r with
      | Some c', Some r' => Some (c' :: r')
      | _, _ => None
      end
  end.

(** The text [JSON.stringify(v)]: it parses to [v] with its zeros
    positive, or to a value of another shape when a coordinate of [v] is
    infinite. *)
Definition stringify {A} (v : option A) : text A :=
  match v with
  | Some a => Json a
  | None => Foreign
  end.

Definition write (k : key) (v : stored) (s : Storage) : Storage :=
  match k, v with
  | FAVORITES_KEY, Cities l =>
      {| favorites_item := Some (stringify (json_cities l));
         lastCity_item := lastCity_item s;
         quota_exceeded := quota_exceeded s |}
  | LAST_CITY_KEY, OneCity c =>
      {| favorites_item := favorites_item s;
         lastCity_item := Some (stringify (json_city c));
         quota_exceeded := quota_exceeded s |}
  | _, _ => s
  end.

(** [localStorage.setItem(k, JSON.stringify(v))] *)
Definition setItem (k : key) (v : stored) : M unit :=
  record (CallSetItem k v) ;;
  full <- gets (fun w => quota_exceeded (storage (browser w))) ;;
  if full then throw (DOMException "QuotaExceededError")
  else modify (with_browser (fun b => set_storage (write k v (storage b)) b)).

(** *** Timers *)

Definition setTimeout (v : string) (seen : bool) (delay : nat) : M nat :=
  id <- gets (fun w => next_timer (browser w)) ;;
  t <- gets (fun w => now (browser w)) ;;
  modify (with_browser (fun b =>
    set_next_timer (S id)
      (set_timers (timers b ++ [{| timer_id := id; due := t + delay; typed := v;
                                   seen_loadingSuggest := seen |}]) b))) ;;
  record (CallSetTimeout id v delay) ;;
  ret id.

Definition clearTimeout (id : nat) : M unit :=
  modify (with_browser (fun b =>
    set_timers (filter (fun t => negb (timer_id t =? id)%nat) (timers b)) b)) ;;
  record (CallClearTimeout id).

(** *** Abort controllers and [fetch] *)

Definition new_AbortController : M nat :=
  c <- gets (fun w => next_controller (browser w)) ;;
  modify (with_browser (set_next_controller (S c))) ;;
  ret c.

Definition mark_aborted (c : nat) (r : Request) : Request :=
  if (ctl r =? c)%nat
  then {| ctl := ctl r; asks := asks r; at_phase := at_phase r; aborted := true |}
  else r.

(** [ref.current?.abort()] *)
Definition abort (current : option nat) : M unit :=
  match current with
  | None => ret tt
  | Some c =>
      modify (with_browser (fun b => set_requests (map (mark_aborted c) (requests b)) b)) ;;
      record (CallAbort c)
  end.

(** [fetch(url, { signal: controller.signal })]: the call returns a promise;
    the request stays pending until the browser settles it. *)
Definition fetch (t : target) (controller : nat) : M unit :=
  modify (with_browser (fun b =>
    set_requests (requests b ++ [{| ctl := controller; asks := t;
                                    at_phase := AwaitResponse; aborted := false |}]) b)) ;;
  record (CallFetch controller t).

(** A settled promise. *)
Inductive settled (A : Type) : Type :=
| Fulfilled (a : A)
| Rejected (e : thrown).

Arguments Fulfilled {A} a.
Arguments Rejected {A} e.

Definition await {A} (p : settled A) : M A :=
  match p with
  | Fulfilled a => ret a
  | Rejected e => throw e
  end.

Record Response : Type := {
  ok : bool;
  status : nat
}.

(** What [res.json()] yields, for each of the two services. *)
Inductive body : Type :=
| GeocodingBody (data : GeocodingResponse)
| ForecastBody (data : Forecast.t).

(** Reading [o.p] where [o] may be [undefined]. *)
Definition prop {A} (o : option A) : M A :=
  match o with
  | Some a => ret a
  | None => throw TypeError
  end.

(** How far a resumed [async] function got. *)
Inductive progress : Type :=
| Suspended    (* it reached the next [await] *)
| Returned.    (* it ran off the end of the [try] block *)

Definition set_phase (c : nat) (p : phase) (r : Request) : Request :=
  if (ctl r =? c)%nat
  then {| ctl := ctl r; asks := asks r; at_phase := p; aborted := aborted r |}
  else r.

Definition suspend (c : nat) (p : phase) : M progress :=
  modify (with_browser (fun b => set_requests (map (set_phase c p) (requests b)) b)) ;;
  ret Suspended.

Definition retire (c : nat) : M unit :=
  modify (with_browser (fun b =>
    set_requests (filter (fun r => negb (ctl r =? c)%nat) (requests b)) b)).

(** [try { body } catch (e) { handler(e) } finally { finalizer }] around the
    rest of an [async] function [c]: when [body] stops at an [await], neither
    block runs yet. *)
Definition try_catch_finally (c : nat) (body : M progress)
    (handler : thrown -> M unit) (finalizer : M unit) : M unit :=
  fun w =>
    match body w with
    | (Normal Suspended, w') => (Normal tt, w')
    | (Normal Returned, w') => (finalizer ;; retire c) w'
    | (Throw e, w') => (handler e ;; finalizer ;; retire c) w'
    | (Mistyped, w') => (Mistyped, w')
    end.

(* ================================================================= *)
(** ** The component *)

(** [ignoreError], lines 4-10: it tries [JSON.stringify(e)] and drops
    whatever that does. *)
Definition ignoreError (e : thrown) : M unit := ret tt.

Definition SEARCH_FAILED : string := "城市搜索失败，请稍后重试".
Definition WEATHER_FAILED : string := "天气数据获取失败，请稍后重试".

(** The first effect, lines 68-79: one [try] block around both reads. *)
Definition restore : M unit :=
  try_catch
    (favRaw <- getItem_favorites ;;
     when (raw_truthy favRaw) (v <- JSON_parse favRaw ;; setFavorites v) ;;
     lastCityRaw <- getItem_lastCity ;;
     when (raw_truthy lastCityRaw)
       (city <- JSON_parse lastCityRaw ;; setSelectedCity (Some city)))
    ignoreError.

(** [hasFavorited], lines 94-102. *)
Definition hasFavorited (w : World) : bool :=
  match selectedCity (ui w) with
  | None => false
  | Some sel => existsb (fun c => sameCity c sel) (favorites (ui w))
  end.

(** [saveFavorites], lines 104-111. *)
Definition saveFavorites (next : list City) : M unit :=
  setFavorites next ;;
  try_catch (setItem FAVORITES_KEY (Cities next)) ignoreError.

(** [if (debounceRef.current)]: a timer identifier is a number, and [0] is
    falsy. *)
Definition id_truthy (current : option nat) : bool :=
  match current with
  | None => false
  | Some id => negb (id =? 0)%nat
  end.

(** [onQueryChange], lines 113-121.  The timer's closure calls the
    [fetchSuggestions] of the current render. *)
Definition onQueryChange (v : string) : M unit :=
  setQuery v ;;
  setError None ;;
  setSuggestions [] ;;
  current <- gets (fun w => debounceRef (refs w)) ;;
  when (id_truthy current)
    (match current with Some id => clearTimeout id | None => ret tt end) ;;
  seen <- gets (fun w => loadingSuggest (ui w)) ;;
  id <- setTimeout v seen 300 ;;
  set_debounceRef (Some id).

(** Lines 148-154. *)
Definition fetchSuggestions_catch (e : thrown) : M unit :=
  when (negb (isAbortError e)) (setError (Some SEARCH_FAILED)).

Definition fetchSuggestions_finally : M unit := setLoadingSuggest false.

(** [encodeURIComponent(name)], line 134, inside the [try]: it throws a
    [URIError] on a lone surrogate.  A request is kept by the name it
    searches, not by its URL, so that nothing is returned. *)
Definition encodeURIComponent (name : string) : M unit :=
  if well_formed name then ret tt else throw URIError.

(** [fetchSuggestions], lines 123-137, up to [await fetch(url, ...)].
    [loadingSuggest] is the value its closure captured. *)
Definition fetchSuggestions (loadingSuggest : bool) (name : string) : M unit :=
  if negb (truthy (trim name)) then setSuggestions []
  else
    when loadingSuggest (setLoadingSuggest false) ;;
    setLoadingSuggest true ;;
    current <- gets (fun w => suggestAbortRef (refs w)) ;;
    abort current ;;
    controller <- new_AbortController ;;
    set_suggestAbortRef (Some controller) ;;
    try_catch_finally controller
      (encodeURIComponent name ;;
       fetch (Geocode name) controller ;;
       ret Suspended)
      fetchSuggestions_catch fetchSuggestions_finally.

(** Lines 137-139: [fetch] has settled. *)
Definition fetchSuggestions_response (controller : nat) (p : settled Response) : M unit :=
  try_catch_finally controller
    (res <- await p ;;
     (if negb (ok res) then throw Error else ret tt) ;;
     suspend controller AwaitBody)
    fetchSuggestions_catch fetchSuggestions_finally.

(** Lines 139-147: [res.json()] has settled. *)
Definition fetchSuggestions_json (controller : nat) (p : settled GeocodingResponse) : M unit :=
  try_catch_finally controller
    (data <- await p ;;
     let list :=
       match results data with
       | Some rs =>
           map (fun r => {| City.name := City.name r; City.country := City.country r;
                            City.latitude := City.latitude r;
                            City.longitude := City.longitude r |}) rs
       | None => []
       end in
     setSuggestions list ;;
     ret Returned)
    fetchSuggestions_catch fetchSuggestions_finally.

(** [fetchWeather], lines 157-175, up to [await fetch(...)]. *)
Definition fetchWeather (city : City) : M unit :=
  setWeather None ;;
  setLoading true ;;
  setError None ;;
  current <- gets (fun w => weatherAbortRef (refs w)) ;;
  abort current ;;
  controller <- new_AbortController ;;
  set_weatherAbortRef (Some controller) ;;
  fetch (ForecastOf city) controller.

(** Lines 200-206. *)
Definition fetchWeather_catch (e : thrown) : M unit :=
  when (negb (isAbortError e)) (setError (Some WEATHER_FAILED)).

Definition fetchWeather_finally : M unit := setLoading false.

(** Lines 173-177: [fetch] has settled. *)
Definition fetchWeather_response (controller : nat) (p : settled Response) : M unit :=
  try_catch_finally controller
    (res <- await p ;;
     (if negb (ok res) then throw Error else ret tt) ;;
     suspend controller AwaitBody)
    fetchWeather_catch fetchWeather_finally.

(** Lines 180-185: [slice(0, n)] keeps the first [n] elements, or all of
    them when there are fewer. *)
Definition hourlySlice (time : list string)
    (temperature_2m relativehumidity_2m : list number) : Hourly.t :=
  let next24IdxEnd := Nat.min 24 (List.length time) in
  {| Hourly.time := firstn next24IdxEnd time;
     Hourly.temperature_2m := firstn next24IdxEnd temperature_2m;
     Hourly.relativehumidity_2m := firstn next24IdxEnd relativehumidity_2m |}.

(** Lines 178-194: the value passed to [setWeather]. *)
Definition shapeWeather (data : Forecast.t) : M WeatherData :=
  let current := Forecast.current_weather data in
  hourly <- prop (Forecast.hourly data) ;;
  time <- prop (Forecast.time hourly) ;;
  temperature_2m <- prop (Forecast.temperature_2m hourly) ;;
  relativehumidity_2m <- prop (Forecast.relativehumidity_2m hourly) ;;
  current <- prop current ;;
  ret {| current :=
           Some {| Current.temperature := Current.temperature current;
                   Current.windspeed := Current.windspeed current;
                   Current.winddirection := Current.winddirection current;
                   Current.time := Current.time current |};
         hourly := Some (hourlySlice time temperature_2m relativehumidity_2m) |}.

(** Lines 195-199. *)
Definition persistLastCity (city : City) : M unit :=
  try_catch (setItem LAST_CITY_KEY (OneCity city)) ignoreError.

(** Lines 177-199: [res.json()] has settled. *)
Definition fetchWeather_json (controller : nat) (city : City) (p : settled Forecast.t) : M unit :=
  try_catch_finally controller
    (data <- await p ;;
     snapshot <- shapeWeather data ;;
     setWeather (Some snapshot) ;;
     persistLastCity city ;;
     ret Returned)
    fetchWeather_catch fetchWeather_finally.

(** The second effect, lines 89-92, for the [selectedCity] of the render it
    belongs to. *)
Definition selectedCity_effect (selectedCity : option City) : M unit :=
  match selectedCity with
  | None => ret tt
  | Some city => fetchWeather city
  end.

(** [selectCity], lines 209-213. *)
Definition selectCity (city : City) : M unit :=
  setSelectedCity (Some city) ;;
  setQuery (City.name city ++
            match City.country city with
            | Some country => if truthy country then " (" ++ country ++ ")" else ""
            | None => ""
            end)%string ;;
  setSuggestions [].

(** [toggleFavorite], lines 215-230. *)
Definition toggleFavorite : M unit :=
  selected <- gets (fun w => selectedCity (ui w)) ;;
  match selected with
  | None => ret tt
  | Some selectedCity =>
      favorited <- gets hasFavorited ;;
      favorites <- gets (fun w => favorites (ui w)) ;;
      if favorited then
        let next := filter (fun c => negb (sameCity c selectedCity)) favorites in
        saveFavorites next
      else
        saveFavorites (firstn 20 (selectedCity :: favorites))
  end.

(** The query button, line 245. *)
Definition onClickQuery : M unit :=
  selected <- gets (fun w => selectedCity (ui w)) ;;
  match selected with
  | Some city => fetchWeather city
  | None => ret tt
  end.

(** The clean-up of the first effect, lines 80-86, run when the component
    goes away. *)
Definition cleanup : M unit :=
  current <- gets (fun w => suggestAbortRef (refs w)) ;;
  abort current ;;
  current <- gets (fun w => weatherAbortRef (refs w)) ;;
  abort current ;;
  current <- gets (fun w => debounceRef (refs w)) ;;
  when (id_truthy current)
    (match current with Some id => clearTimeout id | None => ret tt end).

(** The second half of the surrogate pair of a code point of four bytes,
    on its own. *)
Definition low_surrogate (c d : ascii) : list ascii :=
  [ascii_of_N 237; ascii_of_N (176 + N.land (N_of_ascii c) 15); d].

(** The code points left when [n] code units are dropped: a code point of
    four bytes is two code units, any other is one; a cut between the two
    leaves the second. *)
Fixpoint skip_units (n : nat) (cs : list (list ascii)) : list (list ascii) :=
  match n, cs with
  | O, _ => cs
  | S _, [] => []
  | S n', [_; _; c; d] :: r =>
      match n' with
      | O => low_surrogate c d :: r
      | S n'' => skip_units n'' r
      end
  | S n', _ :: r => skip_units n' r
  end.

(** [t.slice(n)]: the string from its code unit [n] on, empty when it is
    shorter. *)
Definition slice_from (n : nat) (t : string) : string :=
  string_of_list_ascii (List.concat (skip_units n (chars (list_ascii_of_string t)))).

Arguments slice_from : simpl never.

(** A row of the hourly card: the hour, and the temperature and the
    humidity found at the row's index, [None] where the array has no such
    index ([undefined]). *)
Record HourRow : Type := {
  hour_time : string;
  hour_temp : option number;
  hour_hum : option number
}.

(** The hourly card, lines 336-346: [weather.hourly.time.map((t, i) => ...)]. *)
Definition hourRows (h : Hourly.t) : list HourRow :=
  map (fun it : nat * string =>
         {| hour_time := slice_from 11 (snd it);
            hour_temp := nth_error (Hourly.temperature_2m h) (fst it);
            hour_hum := nth_error (Hourly.relativehumidity_2m h) (fst it) |})
      (combine (seq 0 (List.length (Hourly.time h))) (Hourly.time h)).

(** What the result panel renders of the weather, lines 318-349: the card of
    the current weather and the rows of the hourly card, each present when
    [weather] and that part of it are. *)
Definition weatherCards (w : World) : option Current.t * option (list HourRow) :=
  match weather (ui w) with
  | None => (None, None)
  | Some wd => (current wd, option_map hourRows (hourly wd))
  end.

(** The first render followed by its effects.  Both effects belong to the
    first render, where [selectedCity] is [null]; the state set by [restore]
    causes a second render, whose effect runs when [selectedCity] is no
    longer [null]. *)
Definition mount : M unit :=
  restore ;;
  selectedCity_effect None ;;
  selected <- gets (fun w => selectedCity (ui w)) ;;
  match selected with
  | Some _ => selectedCity_effect selected
  | None => ret tt
  end.

Definition initial (s : Storage) : World :=
  {| ui := {| query := ""; suggestions := []; selectedCity := None; favorites := [];
              weather := None; loading := false; loadingSuggest := false;
              error := None |};
     refs := {| suggestAbortRef := None; weatherAbortRef := None; debounceRef := None |};
     browser := {| storage := s; now := 0; timers := []; next_timer := 1;
                   requests := []; next_controller := 0; log := [] |} |}.

(** The app once it has started from a given store. *)
Definition started (s : Storage) : World := exec mount (initial s).

(* ================================================================= *)
(** ** The event loop *)

Definition number_eq_dec (x y : number) : {x = y} + {x <> y}.
Proof.
  decide equality; try apply Bool.bool_dec.
  - apply Z.eq_dec.
  - apply Pos.eq_dec.
Defined.

Definition City_eq_dec (x y : City) : {x = y} + {x <> y}.
Proof.
  decide equality; try apply number_eq_dec; try apply string_dec.
  decide equality; apply string_dec.
Defined.

Definition City_mem (c : City) (l : list City) : bool :=
  if in_dec City_eq_dec c l then true else false.

(** What can happen next: the user acts, time passes, a timer comes due, the
    browser settles a promise, the store fills up or is cleaned.
    [same_object] tells whether the clicked entry is the very object that
    [selectedCity] holds, in which case React keeps the state and does not
    run the effect again. *)
Inductive event : Type :=
| Input (v : string)
| Elapse (dt : nat)
| Timeout (id : nat)
| Select (city : City) (same_object : bool)
| ClickQuery
| ClickStar
| FetchSettled (controller : nat) (p : settled Response)
| BodySettled (controller : nat) (p : settled body)
| Quota (full : bool).

Definition find_request (c : nat) (w : World) : option Request :=
  find (fun r => (ctl r =? c)%nat) (requests (browser w)).

Definition find_timer (id : nat) (w : World) : option Timer :=
  find (fun t => (timer_id t =? id)%nat) (timers (browser w)).

(** The contract of an aborted signal: the pending promise of a request
    whose controller was aborted rejects with an [AbortError], and with
    nothing else. *)
Definition admissible {A} (r : Request) (p : settled A) : bool :=
  if aborted r then
    match p with
    | Rejected (DOMException n) => String.eqb n "AbortError"
    | _ => false
    end
  else true.

(** A timer's callback: the timer is spent, and the closure runs. *)
Definition fire (t : Timer) : M unit :=
  modify (with_browser (fun b =>
    set_timers (filter (fun t' => negb (timer_id t' =? timer_id t)%nat) (timers b)) b)) ;;
  fetchSuggestions (seen_loadingSuggest t) (typed t).

Definition resume_response (r : Request) (p : settled Response) : M unit :=
  match asks r with
  | Geocode _ => fetchSuggestions_response (ctl r) p
  | ForecastOf _ => fetchWeather_response (ctl r) p
  end.

Definition resume_body (r : Request) (p : settled body) : option (M unit) :=
  match asks r, p with
  | Geocode _, Fulfilled (GeocodingBody d) => Some (fetchSuggestions_json (ctl r) (Fulfilled d))
  | Geocode _, Rejected e => Some (fetchSuggestions_json (ctl r) (Rejected e))
  | ForecastOf city, Fulfilled (ForecastBody d) => Some (fetchWeather_json (ctl r) city (Fulfilled d))
  | ForecastOf city, Rejected e => Some (fetchWeather_json (ctl r) city (Rejected e))
  | _, _ => None
  end.

Definition set_quota (full : bool) (s : Storage) : Storage :=
  {| favorites_item := favorites_item s; lastCity_item := lastCity_item s;
     quota_exceeded := full |}.

(** One turn of the event loop; [None] when the event cannot happen in this
    world (a control that is disabled or not shown, a timer that is not due,
    a promise that is not pending). *)
Definition step (e : event) (w : World) : option World :=
  match e with
  | Input v => Some (exec (onQueryChange v) w)
  | Elapse dt => Some (with_browser (fun b => set_now (now b + dt) b) w)
  | Timeout id =>
      match find_timer id w with
      | Some t => if (due t <=? now (browser w))%nat then Some (exec (fire t) w) else None
      | None => None
      end
  | Select city same_object =>
      if City_mem city (suggestions (ui w)) || City_mem city (favorites (ui w)) then
        if same_object then
          match selectedCity (ui w) with
          | Some c => if City_eq_dec c city then Some (exec (selectCity city) w) else None
          | None => None
          end
        else Some (exec (selectCity city ;; selectedCity_effect (Some city)) w)
      else None
  | ClickQuery =>
      match selectedCity (ui w) with
      | Some _ => if loading (ui w) then None else Some (exec onClickQuery w)
      | None => None
      end
  | ClickStar =>
      match selectedCity (ui w) with
      | Some _ => Some (exec toggleFavorite w)
      | None => None
      end
  | FetchSettled c p =>
      match find_request c w with
      | Some r =>
          match at_phase r with
          | AwaitResponse =>
              if admissible r p then Some (exec (resume_response r p) w) else None
          | AwaitBody => None
          end
      | None => None
      end
  | BodySettled c p =>
      match find_request c w with
      | Some r =>
          match at_phase r with
          | AwaitBody =>
              if admissible r p then
                match resume_body r p with
                | Some m => Some (exec m w)
                | None => None
                end
              else None
          | AwaitResponse => None
          end
      | None => None
      end
  | Quota full =>
      Some (with_browser (fun b => set_storage (set_quota full (storage b)) b) w)
  end.

Fixpoint run (es : list event) (w : World) : option World :=
  match es with
  | [] => Some w
  | e :: es' =>
      match step e w with
      | Some w' => run es' w'
      | None => None
      end
  end.

(** The worlds the app can be in after starting from the store [s], when
    what the store held was of the types the component reads it at. *)
Definition reachable (s : Storage) (w : World) : Prop :=
  fst (mount (initial s)) = Normal tt /\ exists es, run es (started s) = Some w.

(* ================================================================= *)
(** ** Observations and invariants *)

(** A computation that leaves an observation of the world as it was. *)
Definition keeps {X A} (f : World -> X) (m : M A) : Prop :=
  forall w, f (snd (m w)) = f w.

(** *** The favourites *)

(** Two entries differ when the comparison of [sameCity] fails on them. *)
Definition distinct (a b : City) : Prop := sameCity a b = false.

(** No two entries of the list have the same (name, latitude, longitude). *)
Definition no_duplicates (l : list City) : Prop := ForallOrdPairs distinct l.

Definition favorites_ok (l : list City) : Prop :=
  (List.length l <= 20)%nat /\ no_duplicates l.

(** A store whose favourites entry, when it parses, is a list that is
    [favorites_ok]. *)
Definition store_ok (s : Storage) : Prop :=
  forall l, favorites_item s = Some (Json l) -> favorites_ok l.

(** The favourites list of a world. *)
Definition favs (w : World) : list City := favorites (ui w).

(** The list that [toggleFavorite] passes to [saveFavorites] when the
    selected city is [sel] and the favourites are [l]. *)
Definition toggled (sel : City) (l : list City) : list City :=
  if existsb (fun c => sameCity c sel) l
  then filter (fun c => negb (sameCity c sel)) l
  else firstn 20 (sel :: l).

(** *** The weather and the store *)

(** The lengths of the three hourly sequences on display. *)
Definition hourly_lengths (w : World) : option (nat * nat * nat) :=
  match weather (ui w) with
  | Some {| hourly := Some h |} =>
      Some (List.length (Hourly.time h), List.length (Hourly.temperature_2m h),
            List.length (Hourly.relativehumidity_2m h))
  | _ => None
  end.

(** The stored last city, and what leaves the component through the store
    and the log. *)
Definition stored_last (w : World) : option (text City) :=
  lastCity_item (storage (browser w)).

Definition outside (w : World) : Storage * list effect :=
  (storage (browser w), log (browser w)).


(** Whether the restore reads a text of another shape: the favourites come
    first, and a malformed text there ends the [try] block before the last
    city is read. *)
Definition astray (s : Storage) : bool :=
  match favorites_item s with
  | Some Foreign => true
  | Some Malformed => false
  | _ => match lastCity_item s with
         | Some Foreign => true
         | _ => false
         end
  end.

(** *** Failures *)

(** What the [try] block throws when it is resumed with a settled promise,
    if it throws. *)
Definition thrown_by_response (p : settled Response) : option thrown :=
  match p with
  | Rejected e => Some e
  | Fulfilled res => if ok res then None else Some Error
  end.


Definition thrown_by_forecast (p : settled Forecast.t) (w : World) : option thrown :=
  match p with
  | Rejected e => Some e
  | Fulfilled data =>
      match fst (shapeWeather data w) with
      | Throw e => Some e
      | _ => None
      end
  end.

(** How a failure [e] is handled: an abort leaves the error message alone,
    anything else replaces it with [message]; the loading flag is down. *)
Definition handled (message : string) (flag : State -> bool) (e : thrown)
    (w w' : World) : Prop :=
  error (ui w') = (if isAbortError e then error (ui w) else Some message)
  /\ flag (ui w') = false.

(** *** Requests *)

(** Two requests are of the same kind when both are geocoding searches or
    both are forecasts. *)
Definition same_kind (a b : target) : bool :=
  match a, b with
  | Geocode _, Geocode _ => true
  | ForecastOf _, ForecastOf _ => true
  | _, _ => false
  end.

(** The ref that holds the controller of the latest request of a kind. *)
Definition current_ref (t : target) (w : World) : option nat :=
  match t with
  | Geocode _ => suggestAbortRef (refs w)
  | ForecastOf _ => weatherAbortRef (refs w)
  end.

Definition abort_all (current : option nat) (l : list Request) : list Request :=
  match current with
  | Some c => map (mark_aborted c) l
  | None => l
  end.

(** The pending requests, the two controller refs and the next controller. *)
Definition net (w : World) : list Request * option nat * option nat * nat :=
  (requests (browser w), suggestAbortRef (refs w), weatherAbortRef (refs w),
   next_controller (browser w)).

(** [net] after a request for [t] is issued from [w]. *)
Definition issue (t : target) (w : World) : list Request * option nat * option nat * nat :=
  let c := next_controller (browser w) in
  (abort_all (current_ref t w) (requests (browser w))
     ++ [{| ctl := c; asks := t; at_phase := AwaitResponse; aborted := false |}],
   match t with Geocode _ => Some c | ForecastOf _ => suggestAbortRef (refs w) end,
   match t with ForecastOf _ => Some c | Geocode _ => weatherAbortRef (refs w) end,
   S c).

(** The calls logged when a request for [t] is issued from [w]. *)
Definition issue_calls (t : target) (w : World) : list effect :=
  match current_ref t w with
  | Some c => [CallAbort c]
  | None => []
  end ++ [CallFetch (next_controller (browser w)) t].

(** [net] after a search that threw before its [fetch]: what the ref
    pointed to is aborted, the ref holds a new controller, and nothing is
    pending under it. *)
Definition stillborn (w : World) : list Request * option nat * option nat * nat :=
  let c := next_controller (browser w) in
  (filter (fun r => negb (ctl r =? c)%nat)
     (abort_all (suggestAbortRef (refs w)) (requests (browser w))),
   Some c, weatherAbortRef (refs w), S c).

(** The calls logged then. *)
Definition abort_calls (w : World) : list effect :=
  match suggestAbortRef (refs w) with
  | Some c => [CallAbort c]
  | None => []
  end.

(** The search for a name is sent when the name is not blank and has no
    lone surrogate. *)
Definition searched (name : string) : bool := negb (blank name) && well_formed name.

(** How the list of pending requests changes when none is issued. *)
Definition settles (l l' : list Request) : Prop :=
  l' = l
  \/ (exists c p, l' = map (set_phase c p) l)
  \/ (exists c, l' = filter (fun r => negb (ctl r =? c)%nat) l).

(** A step that issues no request: the pending ones settle or stay, the
    refs and the numbering stay. *)
Definition quiet (w w' : World) : Prop :=
  settles (requests (browser w)) (requests (browser w'))
  /\ suggestAbortRef (refs w') = suggestAbortRef (refs w)
  /\ weatherAbortRef (refs w') = weatherAbortRef (refs w)
  /\ next_controller (browser w') = next_controller (browser w).

(** Controllers are numbered in the order of their creation, a pending
    request that is not aborted is the one its ref points to, and no two
    pending requests share a controller. *)
Definition net_ok (w : World) : Prop :=
  (forall r, In r (requests (browser w)) -> (ctl r < next_controller (browser w))%nat)
  /\ (forall r, In r (requests (browser w)) -> aborted r = false ->
        current_ref (asks r) w = Some (ctl r))
  /\ NoDup (map ctl (requests (browser w))).

(** The controller [c] exists and whatever is pending under it is aborted
    and asks for [t]. *)
Definition cancelled (c : nat) (t : target) (w : World) : Prop :=
  (c < next_controller (browser w))%nat
  /\ (forall r, In r (requests (browser w)) -> ctl r = c ->
        aborted r = true /\ asks r = t).

(** What the user is shown, which is all of the state, and what is
    stored. *)
Definition shown (w : World) : State * Storage := (ui w, storage (browser w)).

(** The [finally] block of a request for [t]: the loading flag of its kind
    goes down. *)
Definition lower (t : target) : M unit :=
  match t with
  | Geocode _ => setLoadingSuggest false
  | ForecastOf _ => setLoading false
  end.

(** *** Timers *)

(** The names searched for, in the order of the calls. *)
Fixpoint geocode_calls (l : list effect) : list string :=
  match l with
  | [] => []
  | CallFetch _ (Geocode name) :: r => name :: geocode_calls r
  | _ :: r => geocode_calls r
  end.

Definition calls (w : World) : list string := geocode_calls (log (browser w)).

(** While events go by: the time since the last keystroke and the text it
    left, once there has been one. *)
Definition track (st : option (nat * string)) (e : event) : option (nat * string) :=
  match e with
  | Input v => Some (0, v)
  | Elapse dt =>
      match st with
      | Some (d, v) => Some (d + dt, v)
      | None => None
      end
  | _ => st
  end.

(** Every keystroke but the first comes less than 300 after the one
    before. *)
Fixpoint rapid_from (st : option (nat * string)) (es : list event) : bool :=
  match es with
  | [] => true
  | e :: es' =>
      match e, st with
      | Input _, Some (d, _) => (d <? 300)%nat
      | _, _ => true
      end && rapid_from (track st e) es'
  end.

Definition rapid (es : list event) : bool := rapid_from None es.

(** The text left by the last keystroke. *)
Fixpoint last_input (es : list event) : option string :=
  match es with
  | [] => None
  | e :: es' =>
      match last_input es' with
      | Some v => Some v
      | None => match e with Input v => Some v | _ => None end
      end
  end.

(** The timers, the ref that names the latest, the numbering, the clock and
    the searches made. *)
Definition clock (w : World) : list Timer * option nat * nat * nat * list string :=
  (timers (browser w), debounceRef (refs w), next_timer (browser w), now (browser w),
   calls w).

(** A pending timer is the one [debounceRef] names, and timer identifiers
    start at 1. *)
Definition timers_ok (w : World) : Prop :=
  (1 <= next_timer (browser w))%nat
  /\ (forall t, In t (timers (browser w)) -> debounceRef (refs w) = Some (timer_id t))
  /\ (forall id, debounceRef (refs w) = Some id -> (1 <= id)%nat).

(** Where the debouncing stands, [d] after the keystroke that left [v]:
    its timer is pending and no search was made, or [d] is 300 at least and
    at most the search for [v] was made. *)
Definition debounced (st : option (nat * string)) (w : World) : Prop :=
  timers_ok w
  /\ match st with
     | None => timers (browser w) = [] /\ calls w = []
     | Some (d, v) =>
         (exists t, timers (browser w) = [t] /\ typed t = v
                    /\ (due t + d = now (browser w) + 300)%nat /\ calls w = [])
         \/ (timers (browser w) = [] /\ (300 <= d)%nat
             /\ (calls w = [] \/ (blank v = false /\ calls w = [v])))
     end.

(** The timer that a keystroke arms. *)
Definition armed (v : string) (w : World) : Timer :=
  {| timer_id := next_timer (browser w); due := now (browser w) + 300; typed := v;
     seen_loadingSuggest := loadingSuggest (ui w) |}.

(** *** Steps *)

(** The computation that a step runs: [ran w m] when some event can happen
    in [w] and runs [m]. *)
Inductive ran (w : World) : M unit -> Prop :=
| ran_input v : ran w (onQueryChange v)
| ran_elapse dt : ran w (modify (with_browser (fun b => set_now (now b + dt) b)))
| ran_timeout t :
    In t (timers (browser w)) -> (due t <= now (browser w))%nat -> ran w (fire t)
| ran_reselect city : selectedCity (ui w) = Some city -> ran w (selectCity city)
| ran_select city :
    In city (suggestions (ui w)) \/ In city (favorites (ui w)) ->
    ran w (selectCity city ;; selectedCity_effect (Some city))
| ran_query city :
    selectedCity (ui w) = Some city -> loading (ui w) = false -> ran w onClickQuery
| ran_star city : selectedCity (ui w) = Some city -> ran w toggleFavorite
| ran_search_response r name p :
    In r (requests (browser w)) -> asks r = Geocode name -> admissible r p = true ->
    ran w (fetchSuggestions_response (ctl r) p)
| ran_forecast_response r city p :
    In r (requests (browser w)) -> asks r = ForecastOf city -> admissible r p = true ->
    ran w (fetchWeather_response (ctl r) p)
| ran_search_body r name p :
    In r (requests (browser w)) -> asks r = Geocode name -> admissible r p = true ->
    ran w (fetchSuggestions_json (ctl r) p)
| ran_forecast_body r city p :
    In r (requests (browser w)) -> asks r = ForecastOf city -> admissible r p = true ->
    ran w (fetchWeather_json (ctl r) city p)
| ran_quota full :
    ran w (modify (with_browser (fun b => set_storage (set_quota full (storage b)) b))).

(** *** More observations *)

(** Selecting each city of a list in turn and clicking the star. *)
Fixpoint star_each (cs : list City) (w : World) : World :=
  match cs with
  | [] => w
  | c :: r => star_each r (exec toggleFavorite (exec (setSelectedCity (Some c)) w))
  end.

(** A weather on display has both its cards, at most 24 hours, and no more
    temperatures or humidities than hours. *)
Definition snapshot_ok (wd : WeatherData) : Prop :=
  exists cur h,
    wd = {| current := Some cur; hourly := Some h |}
    /\ (List.length (Hourly.time h) <= 24)%nat
    /\ (List.length (Hourly.temperature_2m h) <= List.length (Hourly.time h))%nat
    /\ (List.length (Hourly.relativehumidity_2m h) <= List.length (Hourly.time h))%nat.

Definition weather_ok (w : World) : Prop :=
  forall wd, weather (ui w) = Some wd -> snapshot_ok wd.

(** A request for a forecast, or for a search, is pending. *)
Definition pending (kind : target -> bool) (w : World) : Prop :=
  exists r, In r (requests (browser w)) /\ kind (asks r) = true.

Definition is_forecast (t : target) : bool :=
  match t with ForecastOf _ => true | Geocode _ => false end.

Definition is_search (t : target) : bool :=
  match t with Geocode _ => true | ForecastOf _ => false end.

(** A loading flag is up only while a request of its kind is pending. *)
Definition flags_ok (w : World) : Prop :=
  (loading (ui w) = true -> pending is_forecast w)
  /\ (loadingSuggest (ui w) = true -> pending is_search w).

(** The two loading flags and the pending requests. *)
Definition busy (w : World) : bool * bool * list Request :=
  (loading (ui w), loadingSuggest (ui w), requests (browser w)).

(** While a forecast request that is not aborted is pending, no weather is
    on display. *)
Definition waiting_blank (w : World) : Prop :=
  forall r, In r (requests (browser w)) -> is_forecast (asks r) = true ->
            aborted r = false -> weather (ui w) = None.

(** The browser settles a promise. *)
Definition arrival (e : event) : bool :=
  match e with
  | FetchSettled _ _ | BodySettled _ _ => true
  | _ => false
  end.

(** Every pending request is aborted. *)
Definition all_aborted (w : World) : Prop :=
  forall r, In r (requests (browser w)) -> aborted r = true.

(** The world with the loading flag of the weather taken down when [a]
    holds, and that of the suggestions when [b] holds. *)
Definition lowered (a b : bool) (w : World) : World :=
  exec (when a (setLoading false) ;; when b (setLoadingSuggest false)) w.

(** The text that [selectCity] puts in the search box. *)
Definition label (city : City) : string :=
  (City.name city ++
   match City.country city with
   | Some country => if truthy country then " (" ++ country ++ ")" else ""
   | None => ""
   end)%string.

(** Everything but the favourites and the store. *)
Definition beside_favorites (w : World) :=
  (query (ui w), suggestions (ui w), selectedCity (ui w), weather (ui w),
   loading (ui w), loadingSuggest (ui w), error (ui w), refs w,
   now (browser w), timers (browser w), next_timer (browser w),
   requests (browser w), next_controller (browser w),
   lastCity_item (storage (browser w)), quota_exceeded (storage (browser w))).

(** Everything but the search box, the suggestions, the error and the
    timers. *)
Definition beside_typing (w : World) :=
  (selectedCity (ui w), favorites (ui w), weather (ui w), loading (ui w),
   loadingSuggest (ui w), suggestAbortRef (refs w), weatherAbortRef (refs w),
   storage (browser w), now (browser w), requests (browser w),
   next_controller (browser w)).

(* ================================================================= *)
(** ** Sample data *)

Definition paris : City :=
  {| City.name := "Paris"; City.country := Some "France";
     City.latitude := Finite false 6253 (-7); City.longitude := Finite false 301 (-7) |}.

Definition lyon : City :=
  {| City.name := "Lyon"; City.country := Some "France";
     City.latitude := Finite false 5858 (-7); City.longitude := Finite false 619 (-7) |}.

Definition empty_store : Storage :=
  {| favorites_item := None; lastCity_item := None; quota_exceeded := false |}.

(** A store with two different favourites and a last city. *)
Definition two_store : Storage :=
  {| favorites_item := Some (Json [paris; lyon]); lastCity_item := Some (Json lyon);
     quota_exceeded := false |}.

(** A store whose favourites entry lists the same city twice. *)
Definition doubled_store : Storage :=
  {| favorites_item := Some (Json [paris; paris]); lastCity_item := Some (Json paris);
     quota_exceeded := false |}.

(** Twenty different cities, and a store whose favourites are full. *)
Definition numbered (n : nat) : City :=
  {| City.name := "City"; City.country := None;
     City.latitude := Finite false (Pos.of_succ_nat n) 0; City.longitude := Zero false |}.

Definition twenty : list City := map numbered (seq 0 20).

Definition full_store : Storage :=
  {| favorites_item := Some (Json twenty); lastCity_item := Some (Json lyon);
     quota_exceeded := false |}.

(** A store whose favourites are not JSON and whose last city is fine, and
    the same store without the favourites. *)
Definition garbled_store : Storage :=
  {| favorites_item := Some Malformed; lastCity_item := Some (Json lyon);
     quota_exceeded := false |}.

Definition last_only_store : Storage :=
  {| favorites_item := None; lastCity_item := Some (Json lyon);
     quota_exceeded := false |}.

(** A store whose favourites are fine and whose last city is not JSON. *)
Definition last_garbled_store : Storage :=
  {| favorites_item := Some (Json [paris; lyon]); lastCity_item := Some Malformed;
     quota_exceeded := false |}.

(** The high surrogate U+D83D without its partner, after a letter. *)
Definition lone_surrogate : string :=
  String "a" (String "237" (String "160" (String "189" EmptyString))).

(** A tab, an ideographic space (U+3000), a no-break space (U+00A0) and a
    byte order mark (U+FEFF). *)
Definition wide_spaces : string :=
  String "009"
    (String "227" (String "128" (String "128"
       (String "194" (String "160"
          (String "239" (String "187" (String "191" EmptyString)))))))).

(** The letter [à] (U+00E0), whose second byte is 160. *)
Definition a_grave : string := String "195" (String "160" EmptyString).

Definition mild : Current.t :=
  {| Current.temperature := Finite false 21 0; Current.windspeed := Finite false 3 0;
     Current.winddirection := Finite false 180 0; Current.time := "2024-05-01T10:00" |}.

(** A forecast of two hours. *)
Definition short_forecast : Forecast.t :=
  {| Forecast.current_weather := Some mild;
     Forecast.hourly :=
       Some {| Forecast.time := Some ["2024-05-01T10:00"; "2024-05-01T11:00"];
               Forecast.temperature_2m := Some [Finite false 21 0; Finite false 22 0];
               Forecast.relativehumidity_2m :=
                 Some [Finite false 50 0; Finite false 55 0; Finite false 60 0] |} |}.

(** A forecast whose temperature array is shorter than its time array. *)
Definition ragged_forecast : Forecast.t :=
  {| Forecast.current_weather := Some mild;
     Forecast.hourly :=
       Some {| Forecast.time := Some ["2024-05-01T10:00"; "2024-05-01T11:00"];
               Forecast.temperature_2m := Some [Finite false 21 0];
               Forecast.relativehumidity_2m := Some [Finite false 50 0; Finite false 55 0] |} |}.

(** A forecast without its hourly part. *)
Definition bare_forecast : Forecast.t :=
  {| Forecast.current_weather := Some mild; Forecast.hourly := None |}.

Definition http_ok : Response := {| ok := true; status := 200 |}.

(** The forecast for Lyon, requested at start-up from [two_store], is
    pending when Paris is selected from the favourites. *)
Definition lyon_request : Request :=
  {| ctl := 0; asks := ForecastOf lyon; at_phase := AwaitResponse; aborted := false |}.

Definition paris_request : Request :=
  {| ctl := 1; asks := ForecastOf paris; at_phase := AwaitResponse; aborted := false |}.

Definition paris_selected : World :=
  Eval vm_compute in
  match step (Select paris false) (started two_store) with
  | Some w => w
  | None => started two_store
  end.

(** The forecast for Paris has its response and waits for its body. *)
Definition awaiting_paris : World :=
  Eval vm_compute in
  match step (FetchSettled 1 (Fulfilled http_ok)) paris_selected with
  | Some w => w
  | None => paris_selected
  end.

(** The app started from [two_store], when the store refuses the next
    write. *)
Definition refusing_two : World :=
  Eval vm_compute in
  match step (Quota true) (started two_store) with
  | Some w => w
  | None => started two_store
  end.


(** The forecast for Paris has arrived. *)
Definition paris_fetched : World :=
  Eval vm_compute in
  match step (BodySettled 1 (Fulfilled (ForecastBody short_forecast))) awaiting_paris with
  | Some w => w
  | None => awaiting_paris
  end.

(* ================================================================= *)
(** ** Properties *)

(** *** Numbers, strings, cities *)

Lemma number_eqb_eq (x y : number) : number_eqb x y = true <-> x = y.
Proof.
  destruct x as [s|s|s m e], y as [t|t|t n f]; cbn; try (split; discriminate).
  - rewrite Bool.eqb_true_iff. split; congruence.
  - rewrite Bool.eqb_true_iff. split; congruence.
  - rewrite !andb_true_iff, Bool.eqb_true_iff, Pos.eqb_eq, Z.eqb_eq.
    split; [intros [[-> ->] ->]; reflexivity | intros H; inversion H; auto].
Qed.

Lemma strict_eq_spec (x y : number) : strict_eq x y = true <-> same_number x y.
Proof. apply number_eqb_eq. Qed.

Lemma strict_eq_refl (x : number) : strict_eq x x = true.
Proof. apply strict_eq_spec. reflexivity. Qed.

Lemma same_number_sym (x y : number) : same_number x y -> same_number y x.
Proof. unfold same_number. congruence. Qed.

Lemma strict_eq_sym (x y : number) : strict_eq x y = strict_eq y x.
Proof.
  destruct (strict_eq x y) eqn:E, (strict_eq y x) eqn:F; try reflexivity.
  - apply strict_eq_spec, same_number_sym, strict_eq_spec in E; congruence.
  - apply strict_eq_spec, same_number_sym, strict_eq_spec in F; congruence.
Qed.

Lemma same_number_trans (x y z : number) :
  same_number x y -> same_number y z -> same_number x z.
Proof. unfold same_number. congruence. Qed.

(** The value of a term does not depend on how its mantissa is written. *)
Lemma odd_mantissa_value (m : positive) : forall e,
  let (m', e') := odd_mantissa m e in
  exists k : nat, m = Pos.shiftl_nat m' k /\ e' = (e + Z.of_nat k)%Z.
Proof.
  induction m as [m IH|m IH|]; intros e; cbn [odd_mantissa].
  - exists 0%nat. split; [reflexivity|lia].
  - specialize (IH (e + 1)%Z). destruct (odd_mantissa m (e + 1)) as [m' e'].
    destruct IH as (k & -> & ->). exists (S k). split; [|lia].
    clear. induction k as [|k IH]; cbn; [reflexivity|].
    cbn in IH. congruence.
  - exists 0%nat. split; [reflexivity|lia].
Qed.

(** Two finite terms with the same sign and exponent are the same number
    only when their mantissas are equal. *)
Lemma same_exponent (s : bool) (m n : positive) (e : Z) :
  same_number (Finite s m e) (Finite s n e) -> m = n.
Proof.
  unfold same_number, canonical.
  pose proof (odd_mantissa_value m e) as Hm. pose proof (odd_mantissa_value n e) as Hn.
  destruct (odd_mantissa m e) as [m' e1], (odd_mantissa n e) as [n' e2].
  destruct Hm as (k & -> & ->), Hn as (j & -> & ->).
  intros H. inversion H; subst. assert (k = j) by lia. subst. reflexivity.
Qed.

Lemma sameCity_refl (c : City) : sameCity c c = true.
Proof.
  unfold sameCity. now rewrite !strict_eq_refl, String.eqb_refl.
Qed.

Lemma sameCity_sym (a b : City) : sameCity a b = sameCity b a.
Proof.
  unfold sameCity.
  now rewrite (strict_eq_sym (City.latitude a)), (strict_eq_sym (City.longitude a)),
    (String.eqb_sym (City.name a)).
Qed.


Lemma sameCity_trans (a b c : City) :
  sameCity a b = true -> sameCity b c = true -> sameCity a c = true.
Proof.
  unfold sameCity. rewrite !andb_true_iff, !strict_eq_spec, !String.eqb_eq.
  intros [[H1 H2] H3] [[K1 K2] K3]. repeat split.
  - eapply same_number_trans; eassumption.
  - eapply same_number_trans; eassumption.
  - congruence.
Qed.

(** *** Lists without duplicates *)

Lemma no_duplicates_cons (c : City) (l : list City) :
  no_duplicates (c :: l) <-> Forall (distinct c) l /\ no_duplicates l.
Proof.
  unfold no_duplicates. split.
  - intros H; inversion H; subst; auto.
  - intros [H K]; constructor; assumption.
Qed.

Lemma no_duplicates_filter (f : City -> bool) (l : list City) :
  no_duplicates l -> no_duplicates (filter f l).
Proof.
  induction l as [|c l IH]; cbn; intros H; [assumption|].
  apply no_duplicates_cons in H as [H K].
  destruct (f c); [|auto].
  apply no_duplicates_cons; split; [|auto].
  rewrite Forall_forall in *. intros d Hd. apply filter_In in Hd as [Hd _]. auto.
Qed.

Lemma no_duplicates_firstn (n : nat) (l : list City) :
  no_duplicates l -> no_duplicates (firstn n l).
Proof.
  revert l; induction n as [|n IH]; intros [|c l] H; cbn; try constructor.
  - apply no_duplicates_cons in H as [H K].
    rewrite Forall_forall in *. intros d Hd. apply H.
    rewrite <- (firstn_skipn n l). apply in_or_app; left; assumption.
  - apply IH. apply no_duplicates_cons in H as [_ K]. exact K.
Qed.

Lemma absent_distinct (sel : City) (l : list City) :
  existsb (fun c => sameCity c sel) l = false -> Forall (distinct sel) l.
Proof.
  intros H. apply Forall_forall. intros d Hd. unfold distinct.
  destruct (sameCity sel d) eqn:E; [|reflexivity].
  rewrite sameCity_sym in E.
  assert (existsb (fun c => sameCity c sel) l = true) by (apply existsb_exists; eauto).
  congruence.
Qed.

(** Removing the entries that match [sel] from a list whose only matching
    entry is [c] removes [c] and nothing else. *)
Lemma filter_removes_one (sel c : City) (l1 l2 : list City) :
  no_duplicates (l1 ++ c :: l2) -> sameCity c sel = true ->
  filter (fun d => negb (sameCity d sel)) (l1 ++ c :: l2) = l1 ++ l2.
Proof.
  intros H Hc.
  assert (K : forall d, In d l1 \/ In d l2 -> sameCity d sel = false).
  { intros d Hd. destruct (sameCity d sel) eqn:E; [|reflexivity]. exfalso.
    assert (Hdc : sameCity d c = true).
    { eapply sameCity_trans; [exact E|]. rewrite sameCity_sym. exact Hc. }
    clear E Hc. induction l1 as [|a l1 IH]; cbn in *.
    - apply no_duplicates_cons in H as [H _]. rewrite Forall_forall in H.
      destruct Hd as [[]|Hd]. specialize (H d Hd). unfold distinct in H.
      rewrite sameCity_sym in H. congruence.
    - apply no_duplicates_cons in H as [H H'].
      destruct Hd as [[->|Hd]|Hd].
      + rewrite Forall_forall in H. specialize (H c (in_elt c l1 l2)).
        unfold distinct in H. congruence.
      + apply IH; auto.
      + apply IH; auto. }
  rewrite filter_app. cbn. rewrite Hc. cbn.
  f_equal; apply forallb_filter_id; apply forallb_forall; intros d Hd;
    rewrite K; auto.
Qed.

(** *** Computations that leave part of the world alone *)

Section Keeps.

Context {X : Type} (f : World -> X).

Lemma keeps_ret {A} (a : A) : keeps f (ret a).
Proof. intros w; reflexivity. Qed.

Lemma keeps_throw {A} (e : thrown) : keeps f (@throw A e).
Proof. intros w; reflexivity. Qed.

Lemma keeps_gets {A} (g : World -> A) : keeps f (gets g).
Proof. intros w; reflexivity. Qed.

Lemma keeps_bind {A B} (m : M A) (k : A -> M B) :
  keeps f m -> (forall a, keeps f (k a)) -> keeps f (bind m k).
Proof.
  intros Hm Hk w. unfold bind. specialize (Hm w).
  destruct (m w) as [[a|e|] w1]; cbn in *; [|assumption..].
  rewrite Hk. assumption.
Qed.

Lemma keeps_try_catch {A} (m : M A) (h : thrown -> M A) :
  keeps f m -> (forall e, keeps f (h e)) -> keeps f (try_catch m h).
Proof.
  intros Hm Hh w. unfold try_catch. specialize (Hm w).
  destruct (m w) as [[a|e|] w1]; cbn in *; [assumption| |assumption].
  rewrite Hh. assumption.
Qed.

Lemma keeps_when (b : bool) (m : M unit) : keeps f m -> keeps f (when b m).
Proof. destruct b; cbn; [auto | intros _; apply keeps_ret]. Qed.

Lemma keeps_try_catch_finally (c : nat) (m : M progress) (h : thrown -> M unit)
    (fin : M unit) :
  keeps f m -> (forall e, keeps f (h e)) -> keeps f fin -> keeps f (retire c) ->
  keeps f (try_catch_finally c m h fin).
Proof.
  intros Hm Hh Hfin Hret w. unfold try_catch_finally. specialize (Hm w).
  destruct (m w) as [[[|]|e|] w1]; cbn in *; [assumption| | |assumption].
  - rewrite keeps_bind; auto.
  - rewrite keeps_bind; auto. intros _. apply keeps_bind; auto.
Qed.

End Keeps.

Ltac keeps_step :=
  first
    [ apply keeps_ret | apply keeps_throw | apply keeps_gets
    | apply keeps_bind; [|intros ?]
    | apply keeps_try_catch; [|intros ?]
    | apply keeps_try_catch_finally; [|intros ?| |]
    | apply keeps_when
    | match goal with
      | |- keeps _ (match ?x with _ => _ end) => destruct x
      end
    | progress unfold
        restore, saveFavorites, onQueryChange, fetchSuggestions,
        fetchSuggestions_catch, fetchSuggestions_finally, fetchSuggestions_response,
        fetchSuggestions_json, fetchWeather, fetchWeather_catch, fetchWeather_finally,
        fetchWeather_response, fetchWeather_json, shapeWeather, persistLastCity,
        selectedCity_effect, selectCity, toggleFavorite, onClickQuery, mount, fire,
        resume_response, ignoreError, setItem, setTimeout, clearTimeout,
        new_AbortController, abort, fetch, await, prop, suspend, JSON_parse,
        encodeURIComponent
    | (intros ?; reflexivity) ].

Ltac keeps := repeat keeps_step.

(** The favourites list changes in [restore] and [saveFavorites] only. *)
Lemma fetchWeather_keeps_favs city : keeps favs (fetchWeather city).
Proof. keeps. Qed.

Lemma resume_body_keeps_favs r p m : resume_body r p = Some m -> keeps favs m.
Proof.
  unfold resume_body. destruct (asks r), p as [[d|d]|e]; intros H; inversion H; subst; keeps.
Qed.

Lemma step_keeps_favs (e : event) (w w' : World) :
  step e w = Some w' -> e <> ClickStar -> favs w' = favs w.
Proof.
  intros H Hne. destruct e; cbn in H.
  - inversion H; subst.
    assert (K : keeps favs (onQueryChange v)) by keeps. apply K.
  - inversion H; reflexivity.
  - destruct (find_timer id w) as [t|]; [|discriminate].
    destruct (due t <=? now (browser w))%nat; inversion H; subst.
    assert (K : keeps favs (fire t)) by keeps. apply K.
  - destruct (City_mem city (suggestions (ui w)) || City_mem city (favorites (ui w)));
      [|discriminate].
    destruct same_object.
    + destruct (selectedCity (ui w)) as [c|]; [|discriminate].
      destruct (City_eq_dec c city); inversion H; subst.
      assert (K : keeps favs (selectCity city)) by keeps. apply K.
    + inversion H; subst.
      assert (K : keeps favs (selectCity city ;; selectedCity_effect (Some city))) by keeps.
      apply K.
  - destruct (selectedCity (ui w)) eqn:E; [|discriminate].
    destruct (loading (ui w)); inversion H; subst.
    assert (K : keeps favs onClickQuery) by keeps. apply K.
  - congruence.
  - destruct (find_request controller w) as [r|]; [|discriminate].
    destruct (at_phase r); [|discriminate].
    destruct (admissible r p); inversion H; subst.
    assert (K : keeps favs (resume_response r p)) by keeps. apply K.
  - destruct (find_request controller w) as [r|]; [|discriminate].
    destruct (at_phase r); [discriminate|].
    destruct (admissible r p); [|discriminate].
    destruct (resume_body r p) eqn:E; inversion H; subst.
    apply (resume_body_keeps_favs _ _ _ E).
  - inversion H; reflexivity.
Qed.

(** *** Saving and toggling favourites *)

Lemma saveFavorites_favs next w : favs (exec (saveFavorites next) w) = next.
Proof.
  unfold exec, saveFavorites, setItem, try_catch, bind, gets, record, modify; cbn.
  destruct (quota_exceeded (storage (browser w))); reflexivity.
Qed.

Lemma saveFavorites_log next w :
  log (browser (exec (saveFavorites next) w))
  = log (browser w) ++ [CallSetItem FAVORITES_KEY (Cities next)].
Proof.
  unfold exec, saveFavorites, setItem, try_catch, bind, gets, record, modify; cbn.
  destruct (quota_exceeded (storage (browser w))); reflexivity.
Qed.

Lemma saveFavorites_storage next w :
  storage (browser (exec (saveFavorites next) w))
  = if quota_exceeded (storage (browser w)) then storage (browser w)
    else write FAVORITES_KEY (Cities next) (storage (browser w)).
Proof.
  unfold exec, saveFavorites, setItem, try_catch, bind, gets, record, modify; cbn.
  destruct (quota_exceeded (storage (browser w))) eqn:E; cbn; rewrite ?E; reflexivity.
Qed.

Lemma saveFavorites_selectedCity next w :
  selectedCity (ui (exec (saveFavorites next) w)) = selectedCity (ui w).
Proof.
  unfold exec, saveFavorites, setItem, try_catch, bind, gets, record, modify; cbn.
  destruct (quota_exceeded (storage (browser w))); reflexivity.
Qed.

Lemma toggleFavorite_exec w sel :
  selectedCity (ui w) = Some sel ->
  exec toggleFavorite w = exec (saveFavorites (toggled sel (favs w))) w.
Proof.
  intros H. unfold exec, toggleFavorite, bind, gets, hasFavorited, toggled, favs.
  cbv beta iota. rewrite H. cbv beta iota. rewrite H.
  destruct (existsb (fun c => sameCity c sel) (favorites (ui w))); reflexivity.
Qed.

Lemma toggleFavorite_unselected w :
  selectedCity (ui w) = None -> exec toggleFavorite w = w.
Proof.
  intros H. unfold exec, toggleFavorite, bind, gets. cbv beta iota. rewrite H. reflexivity.
Qed.

Lemma toggled_ok sel l : favorites_ok l -> favorites_ok (toggled sel l).
Proof.
  intros [Hlen Hnd]. unfold toggled.
  destruct (existsb (fun c => sameCity c sel) l) eqn:E; split.
  - pose proof (filter_length_le (fun c => negb (sameCity c sel)) l). lia.
  - apply no_duplicates_filter; assumption.
  - rewrite length_firstn. lia.
  - apply no_duplicates_firstn, no_duplicates_cons; split;
      [apply absent_distinct|]; assumption.
Qed.

Lemma toggleFavorite_ok w :
  favorites_ok (favs w) -> favorites_ok (favs (exec toggleFavorite w)).
Proof.
  intros H. destruct (selectedCity (ui w)) as [sel|] eqn:E.
  - rewrite (toggleFavorite_exec _ _ E), saveFavorites_favs. apply toggled_ok, H.
  - rewrite (toggleFavorite_unselected _ E). exact H.
Qed.

(** *** Start-up and reachable worlds *)

Lemma started_favs s :
  favs (started s)
  = match favorites_item s with
    | Some (Json l) => l
    | _ => []
    end.
Proof.
  destruct s as [[[| |l|]|] [[| |c|]|] q]; reflexivity.
Qed.

Lemma run_invariant (P : World -> Prop) :
  (forall e w w', P w -> step e w = Some w' -> P w') ->
  forall es w w', P w -> run es w = Some w' -> P w'.
Proof.
  intros Hstep es. induction es as [|e es IH]; cbn; intros w w' Hw H.
  - inversion H; subst; assumption.
  - destruct (step e w) as [w1|] eqn:E; [|discriminate].
    eapply IH; [|exact H]. eapply Hstep; eassumption.
Qed.

Lemma reachable_invariant (s : Storage) (P : World -> Prop) :
  P (started s) ->
  (forall e w w', P w -> step e w = Some w' -> P w') ->
  forall w, reachable s w -> P w.
Proof.
  intros H0 Hstep w [_ [es Hes]]. eapply run_invariant; eassumption.
Qed.

Lemma step_favorites_ok e w w' :
  favorites_ok (favs w) -> step e w = Some w' -> favorites_ok (favs w').
Proof.
  intros H Hs. destruct e; try (rewrite (step_keeps_favs _ _ _ Hs); [exact H|discriminate]).
  cbn in Hs. destruct (selectedCity (ui w)); [|discriminate].
  inversion Hs; subst. apply toggleFavorite_ok, H.
Qed.

Lemma started_ok_iff s : favorites_ok (favs (started s)) <-> store_ok s.
Proof.
  rewrite started_favs. unfold store_ok. split.
  - intros H l E. rewrite E in H. exact H.
  - intros H. destruct (favorites_item s) as [[| |l|]|]; auto;
      (split; [cbn; lia | constructor]).
Qed.

(** C1 (as amended).  In every world reachable from a store whose
    favourites entry is missing, unreadable or a list of at most 20 entries
    without two entries of the same (name, latitude, longitude), the
    favourites list has at most 20 entries and no two with the same triple.
    The toggle keeps this from any world.  The start-up restore installs the
    stored list as it is: the list it sets is within the bound and free of
    duplicates exactly when the stored one is. *)
Theorem favorites_invariant (s : Storage) (w : World) :
  (store_ok s -> reachable s w -> favorites_ok (favs w))
  /\ (favorites_ok (favs w) -> favorites_ok (favs (exec toggleFavorite w)))
  /\ (favorites_ok (favs (started s)) <-> store_ok s).
Proof.
  split; [|split].
  - intros Hs Hw. revert w Hw. apply reachable_invariant.
    + apply started_ok_iff, Hs.
    + intros e w w'. apply step_favorites_ok.
  - apply toggleFavorite_ok.
  - apply started_ok_iff.
Qed.

Lemma two_store_ok : store_ok two_store.
Proof.
  intros l H. inversion H; subst. split; [cbn; lia|].
  repeat constructor.
Qed.

Lemma favorites_invariant_witness :
  let w := exec toggleFavorite (started two_store) in
  store_ok two_store /\ reachable two_store w /\ favorites_ok (favs w)
  /\ favorites_ok (favs (exec toggleFavorite w)).
Proof.
  intros w.
  assert (Hr : reachable two_store w) by (split; [reflexivity | exists [ClickStar]; reflexivity]).
  destruct (favorites_invariant two_store w) as (H1 & H2 & _).
  exact (conj two_store_ok (conj Hr (conj (H1 two_store_ok Hr)
           (H2 (H1 two_store_ok Hr))))).
Defined.

(** C1, as stated, fails: started from a store that lists the same city
    twice, the app is in a reachable world whose favourites list has two
    entries with the same triple. *)
Lemma favorites_invariant_unchecked_restore :
  reachable doubled_store (started doubled_store)
  /\ favs (started doubled_store) = [paris; paris]
  /\ ~ favorites_ok (favs (started doubled_store)).
Proof.
  split; [split; [reflexivity | exists []; reflexivity]|]. split; [reflexivity|].
  intros [_ H]. apply no_duplicates_cons in H as [H _].
  inversion H; subst. discriminate.
Qed.

Lemma saveFavorites_ends next w :
  fst (saveFavorites next w) = Normal tt
  /\ error (ui (exec (saveFavorites next) w)) = error (ui w).
Proof.
  unfold exec, saveFavorites, setItem, try_catch, bind, gets, record, modify; cbn.
  destruct (quota_exceeded (storage (browser w))); split; reflexivity.
Qed.

Lemma toggleFavorite_ends w sel :
  selectedCity (ui w) = Some sel ->
  fst (toggleFavorite w) = Normal tt
  /\ error (ui (exec toggleFavorite w)) = error (ui w).
Proof.
  intros H. split.
  - unfold toggleFavorite, bind, gets, hasFavorited. cbv beta iota.
    rewrite H. cbv beta iota. rewrite H.
    destruct (existsb (fun c => sameCity c sel) (favorites (ui w)));
      apply saveFavorites_ends.
  - rewrite (toggleFavorite_exec _ _ H). apply saveFavorites_ends.
Qed.

(** C3 (as amended).  With a city selected: when the favourites hold an
    entry equal to it under the triple, the toggle removes every such entry
    and keeps the others in their order, which is exactly that one entry
    when no two entries of the list share a triple; when they hold none, it
    puts the city in front and keeps the first 20 entries.  In both cases
    the new list is passed to [localStorage.setItem] under the favourites
    key, and the store holds it afterwards, as [JSON.stringify] writes it,
    unless the store refuses the write, in which case the store is left as
    it was; the refusal is ignored: the toggle completes without an
    exception, shows no error, and the list in memory is the new one all the
    same. *)
Theorem toggleFavorite_correct (w : World) (sel : City) :
  selectedCity (ui w) = Some sel ->
  let l := favs w in
  let w' := exec toggleFavorite w in
  (existsb (fun c => sameCity c sel) l = true ->
     favs w' = filter (fun c => negb (sameCity c sel)) l
     /\ (forall l1 c l2, l = l1 ++ c :: l2 -> sameCity c sel = true ->
                         no_duplicates l -> favs w' = l1 ++ l2))
  /\ (existsb (fun c => sameCity c sel) l = false -> favs w' = firstn 20 (sel :: l))
  /\ log (browser w') = log (browser w) ++ [CallSetItem FAVORITES_KEY (Cities (favs w'))]
  /\ storage (browser w')
     = (if quota_exceeded (storage (browser w)) then storage (browser w)
        else write FAVORITES_KEY (Cities (favs w')) (storage (browser w)))
  /\ fst (toggleFavorite w) = Normal tt
  /\ error (ui w') = error (ui w).
Proof.
  intros Hsel l w'. subst l w'.
  destruct (toggleFavorite_ends w sel Hsel) as [E1 E2].
  rewrite (toggleFavorite_exec _ _ Hsel) in *.
  rewrite saveFavorites_favs, saveFavorites_log, saveFavorites_storage.
  split; [|split; [|split; [reflexivity|split; [reflexivity|split; assumption]]]].
  - intros H. unfold toggled. rewrite H. split; [reflexivity|].
    intros l1 c l2 E Hc Hnd. rewrite E.
    apply filter_removes_one; [rewrite <- E|]; assumption.
  - intros H. unfold toggled. rewrite H. reflexivity.
Qed.

Lemma toggleFavorite_correct_witness :
  let w := started two_store in
  (selectedCity (ui w) = Some lyon
   /\ favs w = [paris; lyon]
   /\ favs (exec toggleFavorite w) = [paris]
   /\ favorites_item (storage (browser (exec toggleFavorite w))) = Some (Json [paris]))
  /\ (step (Quota true) w = Some refusing_two
      /\ fst (toggleFavorite refusing_two) = Normal tt
      /\ favs (exec toggleFavorite refusing_two) = [paris]
      /\ error (ui (exec toggleFavorite refusing_two)) = None
      /\ favorites_item (storage (browser (exec toggleFavorite refusing_two)))
         = Some (Json [paris; lyon])).
Proof.
  intros w. split.
  - assert (Hsel : selectedCity (ui w) = Some lyon) by reflexivity.
    pose proof (toggleFavorite_correct w lyon Hsel) as (H1 & _ & _ & H4 & _).
    destruct (H1 eq_refl) as [_ H1'].
    specialize (H1' [paris] lyon [] eq_refl eq_refl (proj2 (two_store_ok _ eq_refl))).
    split; [exact Hsel|]. split; [reflexivity|]. split; [exact H1'|].
    rewrite H4, H1'. reflexivity.
  - assert (Hsel : selectedCity (ui refusing_two) = Some lyon) by reflexivity.
    pose proof (toggleFavorite_correct refusing_two lyon Hsel)
      as (H1 & _ & _ & H4 & H5 & H6).
    destruct (H1 eq_refl) as [_ H1'].
    specialize (H1' [paris] lyon [] eq_refl eq_refl (proj2 (two_store_ok _ eq_refl))).
    split; [reflexivity|]. split; [exact H5|]. split; [exact H1'|]. split; [exact H6|].
    rewrite H4. reflexivity.
Defined.

(** C3, as stated, fails on a list that holds the selected city twice, and
    on a full store: both entries go, not exactly one, and the store keeps
    the old list. *)
Lemma toggleFavorite_removes_all_matches :
  let w := started doubled_store in
  selectedCity (ui w) = Some paris
  /\ favs w = [paris; paris]
  /\ favs (exec toggleFavorite w) = []
  /\ (forall l1 c l2, favs w = l1 ++ c :: l2 -> favs (exec toggleFavorite w) <> l1 ++ l2)
  /\ (forall w', step (Quota true) w = Some w' ->
        favs (exec toggleFavorite w') = []
        /\ favorites_item (storage (browser (exec toggleFavorite w')))
           = Some (Json [paris; paris])).
Proof.
  cbv zeta. split; [reflexivity|]. split; [reflexivity|]. split; [reflexivity|]. split.
  - intros l1 c l2 E K.
    change (favs (exec toggleFavorite (started doubled_store))) with (@nil City) in K.
    change (favs (started doubled_store)) with [paris; paris] in E.
    destruct l1; [cbn in K; subst l2; discriminate E | discriminate K].
  - intros w' H. inversion H; subst. split; reflexivity.
Qed.

Lemma absent_filter_id (sel : City) (l : list City) :
  existsb (fun c => sameCity c sel) l = false ->
  filter (fun c => negb (sameCity c sel)) l = l.
Proof.
  intros H. apply forallb_filter_id, forallb_forall. intros d Hd.
  destruct (sameCity d sel) eqn:E; [|reflexivity].
  assert (existsb (fun c => sameCity c sel) l = true) by (apply existsb_exists; eauto).
  congruence.
Qed.

Lemma absent_firstn (sel : City) (n : nat) (l : list City) :
  existsb (fun c => sameCity c sel) l = false ->
  existsb (fun c => sameCity c sel) (firstn n l) = false.
Proof.
  intros H. destruct (existsb _ (firstn n l)) eqn:E; [|reflexivity].
  apply existsb_exists in E as (d & Hd & Hs).
  assert (existsb (fun c => sameCity c sel) l = true).
  { apply existsb_exists. exists d. split; [|exact Hs].
    rewrite <- (firstn_skipn n l). apply in_or_app; left; exact Hd. }
  congruence.
Qed.

(** Adding an absent city and removing it again leaves the first 19
    entries. *)
Lemma toggled_twice (sel : City) (l : list City) :
  existsb (fun c => sameCity c sel) l = false ->
  toggled sel (toggled sel l) = firstn 19 l.
Proof.
  intros H. unfold toggled at 2. rewrite H.
  change (firstn 20 (sel :: l)) with (sel :: firstn 19 l).
  unfold toggled. cbn [existsb filter]. rewrite sameCity_refl. cbn [orb negb].
  apply absent_filter_id, absent_firstn, H.
Qed.

(** C10.  With a city selected that is not among the favourites, two
    toggles in a row give the list back when it had fewer than 20 entries;
    when it had exactly 20, they give it back without its last entry. *)
Theorem toggleFavorite_twice (w : World) (sel : City) :
  selectedCity (ui w) = Some sel ->
  existsb (fun c => sameCity c sel) (favs w) = false ->
  let w2 := exec toggleFavorite (exec toggleFavorite w) in
  ((List.length (favs w) < 20)%nat -> favs w2 = favs w)
  /\ (List.length (favs w) = 20%nat ->
      favs w2 = removelast (favs w) /\ favs w2 <> favs w).
Proof.
  intros Hsel Habs w2.
  assert (E : favs w2 = firstn 19 (favs w)).
  { subst w2. rewrite (toggleFavorite_exec _ sel).
    - rewrite saveFavorites_favs, (toggleFavorite_exec _ _ Hsel), saveFavorites_favs.
      apply toggled_twice, Habs.
    - rewrite (toggleFavorite_exec _ _ Hsel), saveFavorites_selectedCity. exact Hsel. }
  rewrite E. split.
  - intros Hlen. apply firstn_all2. lia.
  - intros Hlen. split.
    + rewrite removelast_firstn_len, Hlen. reflexivity.
    + intros K. apply (f_equal (@List.length City)) in K.
      rewrite length_firstn in K. lia.
Qed.

Lemma toggleFavorite_twice_witness :
  let w := started two_store in
  let v := started full_store in
  (selectedCity (ui (exec toggleFavorite w)) = Some lyon
   /\ favs (exec toggleFavorite w) = [paris]
   /\ favs (exec toggleFavorite (exec toggleFavorite (exec toggleFavorite w))) = [paris])
  /\ (selectedCity (ui v) = Some lyon
      /\ favs v = twenty
      /\ favs (exec toggleFavorite (exec toggleFavorite v)) = removelast twenty).
Proof.
  intros w v. split.
  - split; [reflexivity|]. split; [reflexivity|].
    refine (proj1 (toggleFavorite_twice (exec toggleFavorite w) lyon eq_refl eq_refl) _).
    cbn. lia.
  - split; [reflexivity|]. split; [reflexivity|].
    exact (proj1 (proj2 (toggleFavorite_twice v lyon eq_refl eq_refl) eq_refl)).
Defined.

(** *** The hourly slice *)

Lemma shapeWeather_complete data cur time temp hum w :
  Forecast.current_weather data = Some cur ->
  Forecast.hourly data
  = Some {| Forecast.time := Some time; Forecast.temperature_2m := Some temp;
            Forecast.relativehumidity_2m := Some hum |} ->
  shapeWeather data w
  = (Normal {| current := Some cur; hourly := Some (hourlySlice time temp hum) |}, w).
Proof.
  intros Hc Hh. unfold shapeWeather, bind, prop. rewrite Hc, Hh. cbn.
  destruct cur; reflexivity.
Qed.

Lemma fetchWeather_json_weather controller city data snapshot w :
  shapeWeather data w = (Normal snapshot, w) ->
  weather (ui (exec (fetchWeather_json controller city (Fulfilled data)) w))
  = Some snapshot.
Proof.
  intros H.
  unfold exec, fetchWeather_json, try_catch_finally, bind, await, ret. rewrite H.
  unfold persistLastCity, setItem, try_catch, bind, gets, record, modify,
    fetchWeather_finally, retire; cbn.
  destruct (quota_exceeded (storage (browser w))); reflexivity.
Qed.

(** C2 (as amended).  After a successful weather fetch the time sequence on
    display has exactly min(24, length of the upstream time array) entries;
    each of the three sequences is the prefix of that length of its upstream
    array, so that entry [i] of each is entry [i] of its upstream array; the
    three have the same length when the upstream temperature and humidity
    arrays have at least that many entries. *)
Theorem hourly_slice_stored (w : World) (controller : nat) (city : City)
    (data : Forecast.t) (cur : Current.t) (time : list string) (temp hum : list number) :
  Forecast.current_weather data = Some cur ->
  Forecast.hourly data
  = Some {| Forecast.time := Some time; Forecast.temperature_2m := Some temp;
            Forecast.relativehumidity_2m := Some hum |} ->
  let n := Nat.min 24 (List.length time) in
  exists h,
    weather (ui (exec (fetchWeather_json controller city (Fulfilled data)) w))
    = Some {| current := Some cur; hourly := Some h |}
    /\ List.length (Hourly.time h) = n
    /\ Hourly.time h = firstn n time
    /\ Hourly.temperature_2m h = firstn n temp
    /\ Hourly.relativehumidity_2m h = firstn n hum
    /\ (forall i, (i < n)%nat ->
          nth_error (Hourly.time h) i = nth_error time i
          /\ nth_error (Hourly.temperature_2m h) i = nth_error temp i
          /\ nth_error (Hourly.relativehumidity_2m h) i = nth_error hum i)
    /\ ((n <= List.length temp)%nat -> (n <= List.length hum)%nat ->
          List.length (Hourly.temperature_2m h) = n
          /\ List.length (Hourly.relativehumidity_2m h) = n).
Proof.
  intros Hc Hh n. exists (hourlySlice time temp hum).
  split; [|split; [|split; [|split; [|split; [|split]]]]].
  - apply fetchWeather_json_weather, shapeWeather_complete; assumption.
  - cbn [hourlySlice Hourly.time]. rewrite length_firstn. subst n. lia.
  - reflexivity.
  - reflexivity.
  - reflexivity.
  - intros i Hi. cbn [hourlySlice Hourly.time Hourly.temperature_2m
                       Hourly.relativehumidity_2m].
    fold n. rewrite !nth_error_firstn.
    apply Nat.ltb_lt in Hi. rewrite Hi. auto.
  - intros Ht Hu. cbn [hourlySlice Hourly.time Hourly.temperature_2m
                        Hourly.relativehumidity_2m].
    fold n. rewrite !length_firstn. lia.
Qed.

Lemma hourly_slice_stored_witness :
  exists h,
    weather (ui (exec (fetchWeather_json 0 lyon (Fulfilled short_forecast))
                   (started two_store)))
    = Some {| current := Some mild; hourly := Some h |}
    /\ List.length (Hourly.time h) = 2%nat
    /\ List.length (Hourly.temperature_2m h) = 2%nat
    /\ List.length (Hourly.relativehumidity_2m h) = 2%nat.
Proof.
  destruct (hourly_slice_stored (started two_store) 0 lyon short_forecast mild
              _ _ _ eq_refl eq_refl)
    as (h & H1 & H2 & _ & _ & _ & _ & H7).
  exists h. split; [exact H1|]. split; [exact H2|].
  apply H7; cbn; lia.
Defined.

(** C2, as stated, fails: a forecast with two times and one temperature is
    a successful fetch, and the sequences on display have lengths 2, 1
    and 2. *)
Lemma hourly_slice_unequal_lengths :
  option_map hourly_lengths
    (run [FetchSettled 0 (Fulfilled http_ok);
          BodySettled 0 (Fulfilled (ForecastBody ragged_forecast))]
       (started two_store))
  = Some (Some (2, 1, 2)%nat).
Proof. reflexivity. Qed.

(** *** Blank queries *)

Lemma drop_white_space_nil (l : list (list ascii)) :
  drop_white_space l = [] <-> forallb is_white_space l = true.
Proof.
  induction l as [|c l IH]; cbn; [tauto|].
  destruct (is_white_space c); cbn; [exact IH|].
  split; discriminate.
Qed.

Lemma forallb_white_space_rev (l : list (list ascii)) :
  forallb is_white_space (rev l) = forallb is_white_space l.
Proof.
  destruct (forallb is_white_space l) eqn:E.
  - apply forallb_forall. intros c Hc. apply in_rev in Hc.
    rewrite forallb_forall in E. auto.
  - destruct (forallb is_white_space (rev l)) eqn:F; [|reflexivity].
    assert (forallb is_white_space l = true); [|congruence].
    apply forallb_forall. intros c Hc. apply in_rev in Hc.
    rewrite forallb_forall in F. auto.
Qed.

Lemma drop_white_space_blank (l : list (list ascii)) :
  forallb is_white_space (drop_white_space l) = forallb is_white_space l.
Proof.
  induction l as [|c l IH]; cbn; [reflexivity|].
  destruct (is_white_space c) eqn:E; cbn; [exact IH|].
  rewrite E. reflexivity.
Qed.

Lemma drop_white_space_in (l : list (list ascii)) (c : list ascii) :
  In c (drop_white_space l) -> In c l.
Proof.
  induction l as [|d l IH]; cbn; [auto|].
  destruct (is_white_space d); [auto|]. cbn. auto.
Qed.

(** Every code point has a byte. *)
Lemma chars_nonempty (n : nat) : forall l : list ascii,
  (List.length l <= n)%nat -> Forall (fun c => c <> []) (chars l).
Proof.
  induction n as [|n IH]; intros [|a r1] H; cbn [chars]; try constructor;
    cbn [List.length] in H; try lia.
  assert (K : forall r : list ascii, (List.length r <= List.length r1)%nat ->
                Forall (fun c => c <> []) (chars r)) by (intros r Hr; apply IH; lia).
  destruct (N_of_ascii a <? 192)%N; [constructor; [discriminate|apply K; lia]|].
  destruct r1 as [|b r2]; [repeat constructor; discriminate|].
  destruct (N_of_ascii a <? 224)%N;
    [constructor; [discriminate|apply K; cbn; lia]|].
  destruct r2 as [|c r3]; [repeat constructor; discriminate|].
  destruct (N_of_ascii a <? 240)%N;
    [constructor; [discriminate|apply K; cbn; lia]|].
  destruct r3 as [|d r4]; [repeat constructor; discriminate|].
  constructor; [discriminate|apply K; cbn; lia].
Qed.

Lemma truthy_string_of_list (l : list ascii) :
  truthy (string_of_list_ascii l) = negb (match l with [] => true | _ => false end).
Proof. destruct l; reflexivity. Qed.

(** [!name.trim()] holds exactly of the strings made of white space. *)
Lemma trim_truthy (name : string) : truthy (trim name) = negb (blank name).
Proof.
  unfold trim, blank, trimEnd, trimStart. rewrite truthy_string_of_list.
  set (l := chars (list_ascii_of_string name)).
  assert (N : Forall (fun c => c <> []) l) by (eapply chars_nonempty; reflexivity).
  rewrite <- (drop_white_space_blank l).
  rewrite <- (forallb_white_space_rev (drop_white_space l)).
  set (r := rev (drop_white_space l)).
  destruct (forallb is_white_space r) eqn:E.
  - apply drop_white_space_nil in E. rewrite E. reflexivity.
  - destruct (drop_white_space r) as [|c k] eqn:F.
    + apply drop_white_space_nil in F. congruence.
    + assert (Hc : In c l).
      { apply drop_white_space_in, in_rev. fold r.
        apply drop_white_space_in. rewrite F. left. reflexivity. }
      rewrite Forall_forall in N. specialize (N c Hc).
      cbn [rev]. rewrite concat_app. cbn [List.concat]. rewrite app_nil_r.
      destruct (List.concat (rev k) ++ c) as [|x y] eqn:G; [|reflexivity].
      apply app_eq_nil in G as [_ G]. contradiction.
Qed.

(** C9.  On a query made of white space only, the empty one included,
    [fetchSuggestions] empties the suggestion list and returns: it issues no
    request and calls nothing outside the component, it sets no error and
    leaves the loading flag of the suggestions as it was.  White space is
    what [trim] strips: the ASCII blanks and line ends, and U+00A0, U+1680,
    U+2000 to U+200A, U+2028, U+2029, U+202F, U+205F, U+3000 and U+FEFF. *)
Theorem fetchSuggestions_blank (w : World) (loadingSuggest0 : bool) (name : string) :
  blank name = true ->
  let w' := exec (fetchSuggestions loadingSuggest0 name) w in
  fst (fetchSuggestions loadingSuggest0 name w) = Normal tt
  /\ suggestions (ui w') = []
  /\ requests (browser w') = requests (browser w)
  /\ log (browser w') = log (browser w)
  /\ browser w' = browser w
  /\ refs w' = refs w
  /\ error (ui w') = error (ui w)
  /\ loadingSuggest (ui w') = loadingSuggest (ui w).
Proof.
  intros H w'. subst w'. unfold exec, fetchSuggestions.
  rewrite trim_truthy, H. cbn. repeat split.
Qed.

Lemma fetchSuggestions_blank_witness :
  let w := started two_store in
  blank wide_spaces = true
  /\ blank a_grave = false
  /\ suggestions (ui (exec (fetchSuggestions false wide_spaces) w)) = []
  /\ log (browser (exec (fetchSuggestions false wide_spaces) w)) = log (browser w).
Proof.
  intros w.
  destruct (fetchSuggestions_blank w false wide_spaces eq_refl) as (_ & H2 & _ & H4 & _).
  split; [reflexivity|]. split; [reflexivity|]. exact (conj H2 H4).
Defined.

(** *** Failures *)

Lemma try_catch_finally_throw (c : nat) (body : M progress) (handler : thrown -> M unit)
    (finalizer : M unit) (e : thrown) (w w1 : World) :
  body w = (Throw e, w1) ->
  exec (try_catch_finally c body handler finalizer) w
  = exec (handler e ;; finalizer ;; retire c) w1.
Proof. intros H. unfold exec, try_catch_finally. rewrite H. reflexivity. Qed.

Lemma try_catch_finally_returned (c : nat) (body : M progress)
    (handler : thrown -> M unit) (finalizer : M unit) (w w1 : World) :
  body w = (Normal Returned, w1) ->
  exec (try_catch_finally c body handler finalizer) w
  = exec (finalizer ;; retire c) w1.
Proof. intros H. unfold exec, try_catch_finally. rewrite H. reflexivity. Qed.

Lemma response_throws c p e w :
  thrown_by_response p = Some e ->
  (res <- await p ;;
   (if negb (ok res) then throw Error else ret tt) ;;
   suspend c AwaitBody) w = (Throw e, w).
Proof.
  destruct p as [res|e']; cbn.
  - destruct (ok res); [discriminate|]. intros H; inversion H; reflexivity.
  - intros H; inversion H; reflexivity.
Qed.


Lemma weather_handled e c w :
  handled WEATHER_FAILED loading e w
    (exec (fetchWeather_catch e ;; fetchWeather_finally ;; retire c) w).
Proof.
  unfold handled, fetchWeather_catch. destruct (isAbortError e); split; reflexivity.
Qed.

Lemma forecast_throws (city : City) (p : settled Forecast.t) (e : thrown) (w : World) :
  thrown_by_forecast p w = Some e ->
  (data <- await p ;;
   snapshot <- shapeWeather data ;;
   setWeather (Some snapshot) ;;
   persistLastCity city ;;
   ret Returned) w = (Throw e, w).
Proof.
  destruct p as [data|e']; cbn.
  - unfold bind at 1. cbn. unfold bind at 1.
    unfold shapeWeather, bind, prop.
    destruct (Forecast.hourly data) as [[[t|] [u|] [h|]]|],
      (Forecast.current_weather data) as [cur|]; cbn;
      first [discriminate | intros H; inversion H; reflexivity].
  - intros H; inversion H; reflexivity.
Qed.



(** *** The last selected city *)

Lemma persistLastCity_storage city w :
  storage (browser (exec (persistLastCity city) w))
  = if quota_exceeded (storage (browser w)) then storage (browser w)
    else write LAST_CITY_KEY (OneCity city) (storage (browser w)).
Proof.
  unfold exec, persistLastCity, setItem, try_catch, bind, gets, record, modify; cbn.
  destruct (quota_exceeded (storage (browser w))) eqn:E; cbn; rewrite ?E; reflexivity.
Qed.

Lemma persistLastCity_log city w :
  log (browser (exec (persistLastCity city) w))
  = log (browser w) ++ [CallSetItem LAST_CITY_KEY (OneCity city)].
Proof.
  unfold exec, persistLastCity, setItem, try_catch, bind, gets, record, modify; cbn.
  destruct (quota_exceeded (storage (browser w))); reflexivity.
Qed.

Lemma persistLastCity_completes city w : fst (persistLastCity city w) = Normal tt.
Proof.
  unfold persistLastCity, setItem, try_catch, bind, gets, record, modify; cbn.
  destruct (quota_exceeded (storage (browser w))); reflexivity.
Qed.

Lemma fetchWeather_json_success controller city data snapshot w :
  shapeWeather data w = (Normal snapshot, w) ->
  exec (fetchWeather_json controller city (Fulfilled data)) w
  = exec (fetchWeather_finally ;; retire controller)
      (exec (persistLastCity city) (exec (setWeather (Some snapshot)) w)).
Proof.
  intros H. unfold fetchWeather_json.
  apply try_catch_finally_returned.
  unfold bind at 1. cbn [await ret]. unfold bind at 1. rewrite H.
  unfold bind at 1. cbn [setWeather modify].
  unfold bind at 1.
  pose proof (persistLastCity_completes city
                (with_ui (fun s =>
                   {| query := query s; suggestions := suggestions s;
                      selectedCity := selectedCity s; favorites := favorites s;
                      weather := Some snapshot; loading := loading s;
                      loadingSuggest := loadingSuggest s; error := error s |}) w)) as K.
  unfold exec. cbn [setWeather modify snd].
  destruct (persistLastCity city _) as [[[]|e|] w1]; [reflexivity|discriminate..].
Qed.

Lemma lastCity_kept_on_throw (handler : thrown -> M unit) (finalizer : M unit)
    (c : nat) (e : thrown) (w : World) :
  keeps outside (handler e) -> keeps outside finalizer ->
  storage (browser (exec (handler e ;; finalizer ;; retire c) w)) = storage (browser w)
  /\ log (browser (exec (handler e ;; finalizer ;; retire c) w)) = log (browser w).
Proof.
  intros H1 H2.
  assert (K : keeps outside (handler e ;; finalizer ;; retire c)).
  { apply keeps_bind; [exact H1|]. intros _. apply keeps_bind; [exact H2|].
    intros _ w0; reflexivity. }
  specialize (K w). inversion K. split; reflexivity.
Qed.

Lemma shapeWeather_pure data w : snd (shapeWeather data w) = w.
Proof.
  unfold shapeWeather, bind, prop.
  destruct (Forecast.hourly data) as [[[t|] [u|] [h|]]|],
    (Forecast.current_weather data) as [cur|]; reflexivity.
Qed.

Lemma forecast_succeeds data w :
  thrown_by_forecast (Fulfilled data) w = None ->
  exists snapshot, shapeWeather data w = (Normal snapshot, w).
Proof.
  unfold thrown_by_forecast. pose proof (shapeWeather_pure data w) as K.
  destruct (shapeWeather data w) as [[snapshot|e|] w1] eqn:S; cbn in *; [|discriminate|].
  - subst. eauto.
  - exfalso. revert S. unfold shapeWeather, bind, prop.
    destruct (Forecast.hourly data) as [[[t|] [u|] [h|]]|],
      (Forecast.current_weather data) as [cur|]; discriminate.
Qed.

Lemma setItem_favorites_keeps_last l : keeps stored_last (setItem FAVORITES_KEY (Cities l)).
Proof. keeps. Qed.

Lemma fetchWeather_json_rejected_outside c city e w :
  outside (exec (fetchWeather_json c city (Rejected e)) w) = outside w.
Proof.
  unfold fetchWeather_json. rewrite (try_catch_finally_throw _ _ _ _ e w w eq_refl).
  unfold fetchWeather_catch. destruct (isAbortError e); reflexivity.
Qed.

Lemma fetchSuggestions_json_keeps_last c p : keeps stored_last (fetchSuggestions_json c p).
Proof. destruct p; keeps. Qed.

(** Only the body of a forecast changes the stored last city. *)
Lemma step_last e w w' :
  step e w = Some w' -> stored_last w' <> stored_last w ->
  exists c data, e = BodySettled c (Fulfilled (ForecastBody data)).
Proof.
  intros H N. destruct e; cbn [step] in H.
  - exfalso; apply N.
    inversion H; subst.
    assert (K : keeps stored_last (onQueryChange v)) by keeps. apply K.
  - exfalso; apply N.
    inversion H; subst. reflexivity.
  - exfalso; apply N.
    destruct (find_timer id w) as [t|]; [|discriminate].
    destruct (due t <=? now (browser w))%nat; inversion H; subst.
    assert (K : keeps stored_last (fire t)) by keeps. apply K.
  - exfalso; apply N.
    destruct (City_mem city (suggestions (ui w)) || City_mem city (favorites (ui w)));
      [|discriminate].
    destruct same_object.
    + destruct (selectedCity (ui w)) as [c|]; [|discriminate].
      destruct (City_eq_dec c city); inversion H; subst.
      assert (K : keeps stored_last (selectCity city)) by keeps. apply K.
    + inversion H; subst.
      assert (K : keeps stored_last (selectCity city ;; selectedCity_effect (Some city)))
        by keeps.
      apply K.
  - exfalso; apply N.
    destruct (selectedCity (ui w)) eqn:E; [|discriminate].
    destruct (loading (ui w)); inversion H; subst.
    assert (K : keeps stored_last onClickQuery) by keeps. apply K.
  - exfalso; apply N.
    destruct (selectedCity (ui w)); [|discriminate]. inversion H; subst.
    assert (K : keeps stored_last toggleFavorite) by keeps. apply K.
  - exfalso; apply N.
    destruct (find_request controller w) as [r|]; [|discriminate].
    destruct (at_phase r); [|discriminate].
    destruct (admissible r p); inversion H; subst.
    assert (K : keeps stored_last (resume_response r p)) by keeps. apply K.
  - destruct (find_request controller w) as [r|]; [|discriminate].
    destruct (at_phase r); [discriminate|].
    destruct (admissible r p); [|discriminate].
    unfold resume_body in H.
    destruct (asks r) as [n|city], p as [[d|d]|e]; inversion H; subst; eauto;
      exfalso; apply N; try apply (fetchSuggestions_json_keeps_last _ _ w).
    match goal with
    | |- stored_last (exec (fetchWeather_json _ _ (Rejected ?x)) _) = _ =>
        pose proof (fetchWeather_json_rejected_outside (ctl r) city x w) as K
    end.
    unfold outside in K. inversion K as [[K1 K2]]. unfold stored_last. rewrite K1.
    reflexivity.
  - exfalso; apply N.
    inversion H; subst. reflexivity.
Qed.

(** C5 (as amended).  When a weather fetch for a city succeeds, the weather
    state is set and then [localStorage.setItem] is called for the last-city
    key with that city; the store holds the city afterwards, as
    [JSON.stringify] writes it (the city itself when its coordinates are
    finite and no negative zero), unless the store refuses the write, in
    which case it is left as it was and no error is shown.  When the fetch
    fails or is cancelled, at [fetch], on the status, on the body or on the
    shape of the forecast, the store is left as it was and nothing is
    written; a response that is fine writes nothing before its body is
    read; and no other step of the app changes the stored last city. *)
Theorem lastCity_persisted (w : World) (c : nat) (city : City) :
  (forall data snapshot, shapeWeather data w = (Normal snapshot, w) ->
     let w1 := exec (setWeather (Some snapshot)) w in
     let w' := exec (fetchWeather_json c city (Fulfilled data)) w in
     w' = exec (fetchWeather_finally ;; retire c) (exec (persistLastCity city) w1)
     /\ weather (ui w1) = Some snapshot
     /\ outside w1 = outside w
     /\ weather (ui w') = Some snapshot
     /\ error (ui w') = error (ui w)
     /\ log (browser w') = log (browser w) ++ [CallSetItem LAST_CITY_KEY (OneCity city)]
     /\ storage (browser w')
        = (if quota_exceeded (storage (browser w)) then storage (browser w)
           else write LAST_CITY_KEY (OneCity city) (storage (browser w)))
     /\ (quota_exceeded (storage (browser w)) = false ->
         stored_last w' = Some (stringify (json_city city))
         /\ (json_city city = Some city -> stored_last w' = Some (Json city))))
  /\ (forall p e, thrown_by_response p = Some e ->
        outside (exec (fetchWeather_response c p) w) = outside w)
  /\ (forall p e, thrown_by_forecast p w = Some e ->
        outside (exec (fetchWeather_json c city p) w) = outside w)
  /\ (forall p, thrown_by_response p = None ->
        outside (exec (fetchWeather_response c p) w) = outside w)
  /\ (forall e w', step e w = Some w' -> stored_last w' <> stored_last w ->
        exists c' data, e = BodySettled c' (Fulfilled (ForecastBody data))).
Proof.
  split; [|split; [|split; [|split; [|intros e w'; apply step_last]]]].
  - intros data snapshot H w1 w'. subst w1 w'.
    rewrite (fetchWeather_json_success _ _ _ _ _ H).
    split; [reflexivity|]. split; [reflexivity|]. split; [reflexivity|].
    assert (E1 : forall w0, storage (browser (exec (fetchWeather_finally ;; retire c) w0))
                            = storage (browser w0)) by reflexivity.
    assert (E2 : forall w0, log (browser (exec (fetchWeather_finally ;; retire c) w0))
                            = log (browser w0)) by reflexivity.
    assert (F : forall w0, ui (exec (fetchWeather_finally ;; retire c) w0)
                           = ui (exec fetchWeather_finally w0)) by reflexivity.
    rewrite F.
    set (w1 := exec (setWeather (Some snapshot)) w).
    unfold stored_last. rewrite E1, E2.
    rewrite persistLastCity_storage, persistLastCity_log.
    change (storage (browser w1)) with (storage (browser w)).
    change (log (browser w1)) with (log (browser w)).
    split; [|split; [|split; [|split]]]; try reflexivity.
    + unfold exec, persistLastCity, setItem, try_catch, bind, gets, record, modify; cbn.
      destruct (quota_exceeded (storage (browser w))); reflexivity.
    + unfold exec, persistLastCity, setItem, try_catch, bind, gets, record, modify; cbn.
      destruct (quota_exceeded (storage (browser w))); reflexivity.
    + intros Q. rewrite Q. split; [reflexivity|]. intros J. cbn. rewrite J. reflexivity.
  - intros p e H. unfold fetchWeather_response.
    rewrite (try_catch_finally_throw _ _ _ _ e w w (response_throws c p e w H)).
    unfold outside.
    destruct (lastCity_kept_on_throw fetchWeather_catch fetchWeather_finally c e w)
      as [K1 K2]; [keeps..|]. rewrite K1, K2. reflexivity.
  - intros p e H. unfold fetchWeather_json.
    rewrite (try_catch_finally_throw _ _ _ _ e w w (forecast_throws city p e w H)).
    unfold outside.
    destruct (lastCity_kept_on_throw fetchWeather_catch fetchWeather_finally c e w)
      as [K1 K2]; [keeps..|]. rewrite K1, K2. reflexivity.
  - intros [res|e]; cbn; [|discriminate]. destruct (ok res) eqn:E; [|discriminate].
    intros _. unfold exec, fetchWeather_response, try_catch_finally, bind, await, ret.
    rewrite E. reflexivity.
Qed.

Lemma lastCity_persisted_witness :
  stored_last awaiting_paris = Some (Json lyon)
  /\ stored_last (exec (fetchWeather_json 1 paris (Fulfilled short_forecast)) awaiting_paris)
     = Some (Json paris)
  /\ outside (exec (fetchWeather_json 1 paris (Fulfilled bare_forecast)) awaiting_paris)
     = outside awaiting_paris
  /\ outside (exec (fetchWeather_response 0 (Rejected AbortError)) awaiting_paris)
     = outside awaiting_paris.
Proof.
  destruct (lastCity_persisted awaiting_paris 1 paris) as (H1 & _ & H3 & _ & _).
  destruct (lastCity_persisted awaiting_paris 0 paris) as (_ & H2 & _).
  split; [reflexivity|].
  split.
  - refine (proj2 (proj2 (proj2 (proj2 (proj2 (proj2 (proj2 (proj2
       (H1 short_forecast
           {| current := Some mild;
              hourly := Some (hourlySlice ["2024-05-01T10:00"; "2024-05-01T11:00"]
                                [Finite false 21 0; Finite false 22 0]
                                [Finite false 50 0; Finite false 55 0; Finite false 60 0]) |}
           eq_refl))))))) eq_refl) eq_refl).
  - split.
    + exact (H3 (Fulfilled bare_forecast) TypeError eq_refl).
    + exact (H2 (Rejected AbortError) AbortError eq_refl).
Defined.

(** C5, as stated, fails when the store is full: the fetch for Paris
    succeeds and its weather is shown without an error, and the stored last
    city is still Lyon. *)
Lemma lastCity_not_persisted_when_full :
  option_map (fun w => (stored_last w, error (ui w), hourly_lengths w))
    (run [Select paris false; Quota true; FetchSettled 1 (Fulfilled http_ok);
          BodySettled 1 (Fulfilled (ForecastBody short_forecast))]
       (started two_store))
  = Some (Some (Json lyon), None, Some (2, 2, 2)%nat).
Proof. reflexivity. Qed.

(** *** Start-up *)

Lemma mount_outcome s :
  fst (mount (initial s)) = if astray s then Mistyped else Normal tt.
Proof. destruct s as [[[| |l|]|] [[| |c|]|] q]; reflexivity. Qed.

Lemma mount_completes s : astray s = false -> fst (mount (initial s)) = Normal tt.
Proof. intros H. rewrite mount_outcome, H. reflexivity. Qed.

(** C7.  The claim fails on the code by a slip: both reads of the restore
    sit in one [try] block, so that favourites that are not JSON keep a last
    city that is fine from being restored, and no forecast is requested;
    without the favourites key the same last city is restored and its
    forecast requested once, and a last city that is not JSON does not keep
    the favourites from being restored.  Start-up does not throw in any of
    the three. *)
Theorem startup_restore_keys_depend :
  (fst (mount (initial garbled_store)) = Normal tt
   /\ favs (started garbled_store) = []
   /\ selectedCity (ui (started garbled_store)) = None
   /\ log (browser (started garbled_store)) = [])
  /\ (fst (mount (initial last_only_store)) = Normal tt
      /\ selectedCity (ui (started last_only_store)) = Some lyon
      /\ log (browser (started last_only_store)) = [CallFetch 0 (ForecastOf lyon)])
  /\ (fst (mount (initial last_garbled_store)) = Normal tt
      /\ favs (started last_garbled_store) = [paris; lyon]
      /\ selectedCity (ui (started last_garbled_store)) = None).
Proof. repeat split. Qed.


(** *** Requests and their cancellation *)

Lemma fetchWeather_net city w :
  net (exec (fetchWeather city) w) = issue (ForecastOf city) w
  /\ log (browser (exec (fetchWeather city) w))
     = log (browser w) ++ issue_calls (ForecastOf city) w.
Proof.
  unfold net, issue, issue_calls, current_ref, exec, fetchWeather, abort, bind, gets,
    modify, record, new_AbortController, fetch, abort_all.
  cbn. destruct (weatherAbortRef (refs w)); cbn; rewrite <- ?app_assoc; split; reflexivity.
Qed.

Lemma fetchSuggestions_net seen name w :
  blank name = false -> well_formed name = true ->
  net (exec (fetchSuggestions seen name) w) = issue (Geocode name) w
  /\ log (browser (exec (fetchSuggestions seen name) w))
     = log (browser w) ++ issue_calls (Geocode name) w.
Proof.
  intros H F.
  unfold net, issue, issue_calls, current_ref, exec, fetchSuggestions.
  rewrite trim_truthy, H.
  unfold abort, bind, gets, modify, record, new_AbortController, fetch, abort_all,
    try_catch_finally, encodeURIComponent.
  rewrite F.
  destruct seen; cbn; destruct (suggestAbortRef (refs w)); cbn;
    rewrite <- ?app_assoc; split; reflexivity.
Qed.

Lemma fetchSuggestions_stillborn seen name w :
  blank name = false -> well_formed name = false ->
  net (exec (fetchSuggestions seen name) w) = stillborn w
  /\ log (browser (exec (fetchSuggestions seen name) w)) = log (browser w) ++ abort_calls w.
Proof.
  intros H F.
  unfold net, stillborn, abort_calls, exec, fetchSuggestions.
  rewrite trim_truthy, H.
  unfold abort, bind, gets, modify, record, new_AbortController, fetch, abort_all,
    try_catch_finally, encodeURIComponent.
  rewrite F.
  destruct seen; cbn; destruct (suggestAbortRef (refs w)); cbn;
    rewrite ?app_nil_r; split; reflexivity.
Qed.

Lemma exec_bind_completes {A B} (m : M A) (k : A -> M B) (w : World) (a : A) :
  fst (m w) = Normal a -> exec (bind m k) w = exec (k a) (exec m w).
Proof.
  unfold exec, bind. destruct (m w) as [[a'|e|] w1]; cbn; intros H; inversion H.
  reflexivity.
Qed.

Lemma fetchSuggestions_catch_completes e w : fst (fetchSuggestions_catch e w) = Normal tt.
Proof. unfold fetchSuggestions_catch. destruct (isAbortError e); reflexivity. Qed.

Lemma fetchWeather_catch_completes e w : fst (fetchWeather_catch e w) = Normal tt.
Proof. unfold fetchWeather_catch. destruct (isAbortError e); reflexivity. Qed.

(** After a failure the handler runs, then the finalizer, then the request
    is gone. *)
Lemma after_throw (handler : thrown -> M unit) (finalizer : M unit) (c : nat)
    (e : thrown) (w : World) :
  fst (handler e w) = Normal tt ->
  fst (finalizer (exec (handler e) w)) = Normal tt ->
  exec (handler e ;; finalizer ;; retire c) w
  = exec (retire c) (exec finalizer (exec (handler e) w)).
Proof.
  intros H1 H2. rewrite (exec_bind_completes _ _ _ tt H1).
  rewrite (exec_bind_completes _ _ _ tt H2). reflexivity.
Qed.

Lemma retire_net c w :
  net (exec (retire c) w)
  = (filter (fun r => negb (ctl r =? c)%nat) (requests (browser w)),
     suggestAbortRef (refs w), weatherAbortRef (refs w), next_controller (browser w)).
Proof. reflexivity. Qed.

Lemma keeps_net_quiet {A} (m : M A) (w : World) : keeps net m -> quiet w (exec m w).
Proof.
  intros H. specialize (H w). unfold net in H. inversion H as [[K1 K2 K3 K4]].
  unfold quiet, exec. rewrite K1, K2, K3, K4. split; [left; reflexivity|auto].
Qed.

Lemma quiet_after_throw (handler : thrown -> M unit) (finalizer : M unit) (c : nat)
    (e : thrown) (w : World) :
  keeps net finalizer -> keeps net (handler e) ->
  (forall w, fst (handler e w) = Normal tt) ->
  (forall w, fst (finalizer w) = Normal tt) ->
  quiet w (exec (handler e ;; finalizer ;; retire c) w).
Proof.
  intros Hf Hh Ch Cf.
  rewrite (after_throw _ _ _ _ _ (Ch w) (Cf _)).
  pose proof (Hf (exec (handler e) w)) as K. unfold exec in *. rewrite Hh in K.
  unfold net in K. inversion K as [[K1 K2 K3 K4]].
  unfold quiet. cbn. rewrite K1, K2, K3, K4. split; [right; right; eauto|auto].
Qed.

Lemma quiet_after_return (finalizer : M unit) (c : nat) (w : World) :
  keeps net finalizer -> (forall w, fst (finalizer w) = Normal tt) ->
  quiet w (exec (finalizer ;; retire c) w).
Proof.
  intros Hf Cf. rewrite (exec_bind_completes _ _ _ tt (Cf w)).
  pose proof (Hf w) as K. unfold net in K. inversion K as [[K1 K2 K3 K4]].
  unfold quiet, exec in *. cbn. rewrite K1, K2, K3, K4.
  split; [right; right; eauto|auto].
Qed.

Lemma response_quiet (handler : thrown -> M unit) (finalizer : M unit) c p w :
  keeps net finalizer -> (forall e, keeps net (handler e)) ->
  (forall e w, fst (handler e w) = Normal tt) ->
  (forall w, fst (finalizer w) = Normal tt) ->
  quiet w (exec (try_catch_finally c
                   (res <- await p ;;
                    (if negb (ok res) then throw Error else ret tt) ;;
                    suspend c AwaitBody) handler finalizer) w).
Proof.
  intros Hf Hh Ch Cf.
  destruct (thrown_by_response p) as [e|] eqn:E.
  - rewrite (try_catch_finally_throw _ _ _ _ e w w (response_throws c p e w E)).
    apply quiet_after_throw; auto.
  - destruct p as [res|e]; [|discriminate]. cbn in E.
    destruct (ok res) eqn:O; [|discriminate].
    unfold exec, try_catch_finally, bind, await, ret. rewrite O. cbn.
    unfold quiet. cbn. split; [right; left; eauto|auto].
Qed.

Lemma quiet_trans_keeps {A} (m : M A) (w w' : World) :
  keeps net m -> quiet (exec m w) w' -> quiet w w'.
Proof.
  intros H. specialize (H w). unfold net in H. inversion H as [[K1 K2 K3 K4]].
  unfold quiet, exec. rewrite K1, K2, K3, K4. auto.
Qed.

Lemma fetchSuggestions_json_quiet c p w : quiet w (exec (fetchSuggestions_json c p) w).
Proof.
  unfold fetchSuggestions_json. destruct p as [data|e].
  - rewrite (try_catch_finally_returned _ _ _ _ w
               (exec (setSuggestions
                  match results data with
                  | Some rs =>
                      map (fun r => {| City.name := City.name r;
                                       City.country := City.country r;
                                       City.latitude := City.latitude r;
                                       City.longitude := City.longitude r |}) rs
                  | None => []
                  end) w)) by reflexivity.
    eapply (quiet_trans_keeps (setSuggestions _)); [intros ?; reflexivity|].
    apply quiet_after_return; [intros ?; reflexivity | reflexivity].
  - rewrite (try_catch_finally_throw _ _ _ _ e w w eq_refl).
    apply quiet_after_throw; try (intros ?; reflexivity).
    + keeps.
    + apply fetchSuggestions_catch_completes.
Qed.

Lemma fetchWeather_json_quiet c city p w : quiet w (exec (fetchWeather_json c city p) w).
Proof.
  destruct (thrown_by_forecast p w) as [e|] eqn:E.
  - unfold fetchWeather_json.
    rewrite (try_catch_finally_throw _ _ _ _ e w w (forecast_throws city p e w E)).
    apply quiet_after_throw; try (intros ?; reflexivity).
    + keeps.
    + apply fetchWeather_catch_completes.
  - destruct p as [data|e]; [|discriminate].
    destruct (forecast_succeeds _ _ E) as [snapshot H].
    rewrite (fetchWeather_json_success _ _ _ _ _ H).
    eapply (quiet_trans_keeps (setWeather _)); [intros ?; reflexivity|].
    eapply (quiet_trans_keeps (persistLastCity _)); [keeps|].
    apply quiet_after_return; [intros ?; reflexivity | reflexivity].
Qed.

Lemma resume_response_quiet r p w : quiet w (exec (resume_response r p) w).
Proof.
  unfold resume_response, fetchSuggestions_response, fetchWeather_response.
  destruct (asks r); apply response_quiet; try (intros ?; reflexivity);
    try (intros ?; keeps).
  - apply fetchSuggestions_catch_completes.
  - apply fetchWeather_catch_completes.
Qed.

Lemma resume_body_quiet r p m w : resume_body r p = Some m -> quiet w (exec m w).
Proof.
  unfold resume_body.
  destruct (asks r), p as [[d|d]|e]; intros H; inversion H; subst;
    first [apply fetchSuggestions_json_quiet | apply fetchWeather_json_quiet].
Qed.

Lemma fire_net t w :
  if blank (typed t) then net (exec (fire t) w) = net w
  else if well_formed (typed t) then
    net (exec (fire t) w) = issue (Geocode (typed t)) w
    /\ log (browser (exec (fire t) w))
       = log (browser w) ++ issue_calls (Geocode (typed t)) w
  else
    net (exec (fire t) w) = stillborn w
    /\ log (browser (exec (fire t) w)) = log (browser w) ++ abort_calls w.
Proof.
  assert (E : exists w0, exec (fire t) w
                         = exec (fetchSuggestions (seen_loadingSuggest t) (typed t)) w0
                         /\ net w0 = net w /\ log (browser w0) = log (browser w)
                         /\ refs w0 = refs w).
  { eexists. split; [reflexivity|]. repeat split. }
  destruct E as (w0 & -> & E1 & E2 & E3).
  assert (I : issue (Geocode (typed t)) w0 = issue (Geocode (typed t)) w).
  { unfold net in E1. inversion E1 as [[K1 K2 K3 K4]].
    unfold issue, current_ref. rewrite K1, K2, K3, K4. reflexivity. }
  assert (J : issue_calls (Geocode (typed t)) w0 = issue_calls (Geocode (typed t)) w).
  { unfold net in E1. inversion E1 as [[K1 K2 K3 K4]].
    unfold issue_calls, current_ref. rewrite K2, K4. reflexivity. }
  assert (I' : stillborn w0 = stillborn w).
  { unfold net in E1. inversion E1 as [[K1 K2 K3 K4]].
    unfold stillborn. rewrite K1, K2, K3, K4. reflexivity. }
  assert (J' : abort_calls w0 = abort_calls w).
  { unfold abort_calls. rewrite E3. reflexivity. }
  rewrite <- E1, <- E2, <- I, <- J, <- I', <- J'.
  destruct (blank (typed t)) eqn:B.
  - unfold exec at 1, fetchSuggestions. rewrite trim_truthy, B. reflexivity.
  - destruct (well_formed (typed t)) eqn:F.
    + apply (fetchSuggestions_net (seen_loadingSuggest t) (typed t) _ B F).
    + apply (fetchSuggestions_stillborn (seen_loadingSuggest t) (typed t) _ B F).
Qed.

(** Every step either issues one request, aborting what its ref pointed to,
    or issues none, or is a search that throws before its [fetch]. *)
Lemma step_net (e : event) (w w' : World) :
  step e w = Some w' ->
  (exists t, net w' = issue t w /\ log (browser w') = log (browser w) ++ issue_calls t w)
  \/ quiet w w'
  \/ (net w' = stillborn w /\ log (browser w') = log (browser w) ++ abort_calls w).
Proof.
  intros H. destruct e; cbn [step] in H.
  - inversion H; subst. right; left. apply keeps_net_quiet. keeps.
  - inversion H; subst. right; left. unfold quiet; cbn. split; [left; reflexivity|auto].
  - destruct (find_timer id w) as [t|]; [|discriminate].
    destruct (due t <=? now (browser w))%nat; inversion H; subst.
    pose proof (fire_net t w) as K. destruct (blank (typed t)).
    + right; left. unfold net in K. inversion K as [[K1 K2 K3 K4]].
      unfold quiet. rewrite K1, K2, K3, K4. split; [left; reflexivity|auto].
    + destruct (well_formed (typed t)); [left; eauto|right; right; exact K].
  - destruct (City_mem city (suggestions (ui w)) || City_mem city (favorites (ui w)));
      [|discriminate].
    destruct same_object.
    + destruct (selectedCity (ui w)) as [c|]; [|discriminate].
      destruct (City_eq_dec c city); inversion H; subst.
      right; left. apply keeps_net_quiet. keeps.
    + inversion H; subst. left. exists (ForecastOf city).
      apply (fetchWeather_net city (exec (selectCity city) w)).
  - destruct (selectedCity (ui w)) as [c|] eqn:E; [|discriminate].
    destruct (loading (ui w)); inversion H; subst.
    left. exists (ForecastOf c).
    assert (K : exec onClickQuery w = exec (fetchWeather c) w).
    { unfold exec, onClickQuery, bind, gets. cbv beta iota. rewrite E. reflexivity. }
    rewrite K. apply fetchWeather_net.
  - destruct (selectedCity (ui w)); [|discriminate]. inversion H; subst.
    right; left. apply keeps_net_quiet. keeps.
  - destruct (find_request controller w) as [r|]; [|discriminate].
    destruct (at_phase r); [|discriminate].
    destruct (admissible r p); inversion H; subst.
    right; left. apply resume_response_quiet.
  - destruct (find_request controller w) as [r|]; [|discriminate].
    destruct (at_phase r); [discriminate|].
    destruct (admissible r p); [|discriminate].
    destruct (resume_body r p) eqn:E; inversion H; subst.
    right; left. eapply resume_body_quiet; eassumption.
  - inversion H; subst. right; left. unfold quiet; cbn. split; [left; reflexivity|auto].
Qed.

Lemma mark_aborted_fields c r :
  ctl (mark_aborted c r) = ctl r /\ asks (mark_aborted c r) = asks r
  /\ at_phase (mark_aborted c r) = at_phase r
  /\ aborted (mark_aborted c r) = ((ctl r =? c)%nat || aborted r).
Proof. unfold mark_aborted. destruct (ctl r =? c)%nat; cbn; auto. Qed.

Lemma set_phase_fields c p r :
  ctl (set_phase c p r) = ctl r /\ asks (set_phase c p r) = asks r
  /\ aborted (set_phase c p r) = aborted r.
Proof. unfold set_phase. destruct (ctl r =? c)%nat; cbn; auto. Qed.

(** A request pending after a quiet step was pending before it, under the
    same controller, for the same target, aborted or not as before. *)
Lemma settles_in l l' r :
  settles l l' -> In r l' ->
  exists r0, In r0 l /\ ctl r = ctl r0 /\ asks r = asks r0 /\ aborted r = aborted r0.
Proof.
  intros [-> | [(c & p & ->) | (c & ->)]] H.
  - eauto.
  - apply in_map_iff in H as (r0 & <- & H).
    destruct (set_phase_fields c p r0) as (A & B & C). eauto.
  - apply filter_In in H as [H _]. eauto.
Qed.

Lemma abort_all_in current l r :
  In r (abort_all current l) ->
  exists r0, In r0 l /\ ctl r = ctl r0 /\ asks r = asks r0
             /\ aborted r = (match current with
                             | Some c => (ctl r0 =? c)%nat
                             | None => false
                             end || aborted r0).
Proof.
  destruct current as [c|]; cbn; intros H.
  - apply in_map_iff in H as (r0 & <- & H).
    destruct (mark_aborted_fields c r0) as (A & B & _ & C). eauto.
  - eauto.
Qed.

Lemma in_abort_all current l r0 :
  In r0 l ->
  exists r, In r (abort_all current l) /\ ctl r = ctl r0 /\ asks r = asks r0
            /\ aborted r = (match current with
                            | Some c => (ctl r0 =? c)%nat
                            | None => false
                            end || aborted r0).
Proof.
  destruct current as [c|]; cbn; intros H.
  - exists (mark_aborted c r0).
    destruct (mark_aborted_fields c r0) as (A & B & _ & C).
    split; [apply in_map, H|auto].
  - eauto.
Qed.

Lemma current_ref_same_kind a b w :
  same_kind a b = true -> current_ref a w = current_ref b w.
Proof. destruct a, b; cbn; congruence. Qed.

Lemma started_net_ok s : net_ok (started s).
Proof.
  destruct s as [[[| |l|]|] [[| |c|]|] q]; (split; [|split]); cbn;
    try (intros r H; try contradiction; destruct H as [<-|[]]; cbn; auto; fail);
    repeat constructor; cbn; tauto.
Qed.

Lemma settles_ctl l l' : settles l l' -> NoDup (map ctl l) -> NoDup (map ctl l').
Proof.
  intros [-> | [(c & p & ->) | (c & ->)]] H.
  - exact H.
  - rewrite map_map.
    rewrite (map_ext _ ctl); [exact H|]. intros r. apply set_phase_fields.
  - induction l as [|r l IH]; cbn in *; [constructor|].
    inversion H; subst.
    destruct (negb (ctl r =? c)%nat); cbn; [|auto].
    constructor; [|auto]. intros K. apply in_map_iff in K as (r0 & E & K).
    apply filter_In in K as [K _]. apply H2. rewrite <- E. apply in_map, K.
Qed.

Lemma abort_all_ctl current l : map ctl (abort_all current l) = map ctl l.
Proof.
  destruct current as [c|]; cbn; [|reflexivity].
  rewrite map_map. apply map_ext. intros r. apply mark_aborted_fields.
Qed.

(** A request pending after a search that threw was pending before it. *)
Lemma stillborn_in (w w' : World) (r : Request) :
  net w' = stillborn w -> In r (requests (browser w')) ->
  exists r0, In r0 (requests (browser w)) /\ ctl r = ctl r0 /\ asks r = asks r0
             /\ aborted r = (match suggestAbortRef (refs w) with
                             | Some c => (ctl r0 =? c)%nat
                             | None => false
                             end || aborted r0).
Proof.
  unfold net, stillborn. intros N Hr. inversion N as [[N1 N2 N3 N4]].
  rewrite N1 in Hr. apply filter_In in Hr as [Hr _].
  apply abort_all_in in Hr. exact Hr.
Qed.

Lemma step_net_ok e w w' : net_ok w -> step e w = Some w' -> net_ok w'.
Proof.
  intros (I1 & I2 & I3) H.
  apply step_net in H as [(t & N & _) | [(S & R1 & R2 & C) | [N _]]].
  - unfold net, issue in N. inversion N as [[N1 N2 N3 N4]]. clear N.
    split; [|split]; unfold current_ref; rewrite N1, ?N2, ?N3, ?N4.
    + intros r Hr. apply in_app_or in Hr as [Hr | [<-|[]]]; cbn; [|lia].
      apply abort_all_in in Hr as (r0 & Hr0 & -> & _). specialize (I1 _ Hr0). lia.
    + intros r Hr. apply in_app_or in Hr as [Hr | [<-|[]]].
      * apply abort_all_in in Hr as (r0 & Hr0 & E1 & E2 & E3). intros Ha.
        rewrite Ha in E3. symmetry in E3. apply orb_false_iff in E3 as [E3 E4].
        specialize (I2 _ Hr0 E4). rewrite E1, E2.
        destruct (same_kind (asks r0) t) eqn:K.
        -- rewrite <- (current_ref_same_kind _ _ w K), I2 in E3.
           rewrite Nat.eqb_refl in E3. discriminate.
        -- unfold current_ref in I2. destruct (asks r0), t; try discriminate K; exact I2.
      * intros _. cbn. destruct t; reflexivity.
    + rewrite map_app, abort_all_ctl. cbn.
      apply NoDup_app; [exact I3 | repeat constructor; cbn; tauto |].
      intros a Ha [<-|[]]. apply in_map_iff in Ha as (r0 & E & Hr0).
      specialize (I1 _ Hr0). lia.
  - split; [|split]; unfold current_ref; rewrite ?R1, ?R2, ?C.
    + intros r Hr. destruct (settles_in _ _ _ S Hr) as (r0 & Hr0 & -> & _). auto.
    + intros r Hr.
      destruct (settles_in _ _ _ S Hr) as (r0 & Hr0 & -> & -> & ->). apply I2, Hr0.
    + eapply settles_ctl; eassumption.
  - pose proof (fun r => stillborn_in w w' r N) as In0.
    unfold net, stillborn in N. inversion N as [[N1 N2 N3 N4]]. clear N.
    split; [|split].
    + intros r Hr. rewrite N4. destruct (In0 r Hr) as (r0 & Hr0 & -> & _).
      specialize (I1 _ Hr0). lia.
    + intros r Hr Ha. destruct (In0 r Hr) as (r0 & Hr0 & E1 & E2 & E3).
      rewrite Ha in E3. symmetry in E3. apply orb_false_iff in E3 as [E3 E4].
      specialize (I2 _ Hr0 E4). rewrite E1, E2. unfold current_ref in *.
      destruct (asks r0).
      * rewrite I2, Nat.eqb_refl in E3. discriminate.
      * rewrite N3. exact I2.
    + rewrite N1. apply (settles_ctl (abort_all (suggestAbortRef (refs w))
                                        (requests (browser w)))).
      * right; right. eauto.
      * rewrite abort_all_ctl. exact I3.
Qed.

Lemma reachable_net_ok s w : reachable s w -> net_ok w.
Proof.
  apply reachable_invariant.
  - apply started_net_ok.
  - intros e w0 w'. apply step_net_ok.
Qed.

(** Once cancelled, for ever cancelled. *)
Lemma step_cancelled c t e w w' :
  cancelled c t w -> step e w = Some w' -> cancelled c t w'.
Proof.
  intros [I1 I2] H.
  apply step_net in H as [(t' & N & _) | [(S & R1 & R2 & C) | [N _]]].
  - unfold net, issue in N. inversion N as [[N1 N2 N3 N4]]. clear N.
    split; rewrite ?N1, ?N4; [lia|]. intros r Hr Hc.
    apply in_app_or in Hr as [Hr | [<-|[]]].
    + apply abort_all_in in Hr as (r0 & Hr0 & E1 & E2 & E3).
      destruct (I2 r0 Hr0) as [A B]; [congruence|].
      rewrite E3, A, E2. split; [apply orb_true_r|exact B].
    + cbn in Hc. lia.
  - split; rewrite ?C; [exact I1|]. intros r Hr Hc.
    destruct (settles_in _ _ _ S Hr) as (r0 & Hr0 & E1 & -> & ->).
    apply I2; [exact Hr0|congruence].
  - pose proof (fun r => stillborn_in w w' r N) as In0.
    unfold net, stillborn in N. inversion N as [[N1 N2 N3 N4]]. clear N.
    split; [rewrite N4; lia|]. intros r Hr Hc.
    destruct (In0 r Hr) as (r0 & Hr0 & E1 & E2 & E3).
    destruct (I2 r0 Hr0) as [A B]; [congruence|].
    rewrite E3, A, E2. split; [apply orb_true_r|exact B].
Qed.

Lemma run_cancelled c t es w w' :
  cancelled c t w -> run es w = Some w' -> cancelled c t w'.
Proof.
  apply (run_invariant (cancelled c t)). intros e w0 w1. apply step_cancelled.
Qed.

Lemma admissible_aborted {A} (r : Request) (p : settled A) :
  aborted r = true -> admissible r p = true ->
  exists e, p = Rejected e /\ isAbortError e = true.
Proof.
  unfold admissible. intros ->. destruct p as [a|[n|n|]]; try discriminate.
  intros H. exists (DOMException n). split; [reflexivity|exact H].
Qed.

Lemma find_request_some c w r :
  find_request c w = Some r -> In r (requests (browser w)) /\ ctl r = c.
Proof.
  unfold find_request. intros H. apply find_some in H as [H K].
  apply Nat.eqb_eq in K. auto.
Qed.

(** What the rejection of an aborted request changes of what is shown: its
    [catch] block sets no error, its [finally] block runs. *)
Lemma abort_shown (t : target) (e : thrown) (c : nat) (w : World) :
  isAbortError e = true ->
  shown (exec (match t with
               | Geocode _ =>
                   fetchSuggestions_catch e ;; fetchSuggestions_finally ;; retire c
               | ForecastOf _ =>
                   fetchWeather_catch e ;; fetchWeather_finally ;; retire c
               end) w)
  = shown (exec (lower t) w).
Proof.
  intros H. unfold fetchSuggestions_catch, fetchWeather_catch. rewrite H.
  destruct t; reflexivity.
Qed.

(** The result of an aborted request lowers the loading flag of its kind
    and changes nothing else of what is shown. *)
Lemma aborted_response (r : Request) (p : settled Response) (w : World) :
  aborted r = true -> admissible r p = true ->
  shown (exec (resume_response r p) w) = shown (exec (lower (asks r)) w).
Proof.
  intros Ha A. destruct (admissible_aborted r p Ha A) as (e & -> & He).
  rewrite <- (abort_shown (asks r) e (ctl r) w He).
  unfold resume_response, fetchSuggestions_response, fetchWeather_response.
  destruct (asks r); rewrite (try_catch_finally_throw _ _ _ _ e w w eq_refl);
    reflexivity.
Qed.

Lemma aborted_body (r : Request) (p : settled body) (m : M unit) (w : World) :
  aborted r = true -> admissible r p = true -> resume_body r p = Some m ->
  shown (exec m w) = shown (exec (lower (asks r)) w).
Proof.
  intros Ha A H. destruct (admissible_aborted r p Ha A) as (e & -> & He).
  rewrite <- (abort_shown (asks r) e (ctl r) w He).
  unfold resume_body in H. destruct (asks r); inversion H; subst.
  - unfold fetchSuggestions_json.
    rewrite (try_catch_finally_throw _ _ _ _ e w w eq_refl). reflexivity.
  - unfold fetchWeather_json.
    rewrite (try_catch_finally_throw _ _ _ _ e w w eq_refl). reflexivity.
Qed.

Lemma late_response c t p w w' :
  cancelled c t w -> step (FetchSettled c p) w = Some w' ->
  shown w' = shown (exec (lower t) w).
Proof.
  intros [_ I] H. cbn [step] in H.
  destruct (find_request c w) as [r|] eqn:F; [|discriminate].
  apply find_request_some in F as [F1 F2].
  destruct (at_phase r); [|discriminate].
  destruct (admissible r p) eqn:A; [|discriminate].
  destruct (I r F1 F2) as [Ha Hk]. inversion H; subst.
  apply aborted_response; assumption.
Qed.

Lemma late_body c t p w w' :
  cancelled c t w -> step (BodySettled c p) w = Some w' ->
  shown w' = shown (exec (lower t) w).
Proof.
  intros [_ I] H. cbn [step] in H.
  destruct (find_request c w) as [r|] eqn:F; [|discriminate].
  apply find_request_some in F as [F1 F2].
  destruct (at_phase r); [discriminate|].
  destruct (admissible r p) eqn:A; [|discriminate].
  destruct (I r F1 F2) as [Ha Hk].
  destruct (resume_body r p) as [m|] eqn:E; inversion H; subst.
  apply (aborted_body r p m w Ha A E).
Qed.

Lemma same_controller l (r r' : Request) :
  NoDup (map ctl l) -> In r l -> In r' l -> ctl r = ctl r' -> r = r'.
Proof.
  induction l as [|a l IH]; cbn; [contradiction|].
  intros H [->|Hr] [->|Hr'] E; inversion H; subst.
  - reflexivity.
  - exfalso. apply H2. rewrite E. apply in_map, Hr'.
  - exfalso. apply H2. rewrite <- E. apply in_map, Hr.
  - auto.
Qed.


(** X21.  In a world the app can reach, when a step issues a request while
    an earlier request of the same kind is pending, the earlier request is
    pending and aborted afterwards; when it was not aborted yet, the step
    calls [abort] on its controller and then [fetch] for the new request;
    and whatever happens next, the late result of the earlier request, at
    [fetch] or on its body, takes the loading flag of its kind down and
    changes nothing else of what is shown or stored: neither the
    suggestions, nor the weather, nor the error message, nor the other
    loading flag. *)
Theorem superseded_request_cancelled (s : Storage) (w w1 : World) (e : event)
    (r1 r2 : Request) :
  reachable s w ->
  In r1 (requests (browser w)) ->
  step e w = Some w1 ->
  In r2 (requests (browser w1)) ->
  ~ In (ctl r2) (map ctl (requests (browser w))) ->
  same_kind (asks r1) (asks r2) = true ->
  (exists r1', In r1' (requests (browser w1)) /\ ctl r1' = ctl r1
               /\ asks r1' = asks r1 /\ aborted r1' = true)
  /\ (aborted r1 = false ->
      log (browser w1)
      = log (browser w) ++ [CallAbort (ctl r1); CallFetch (ctl r2) (asks r2)])
  /\ (forall es w2, run es w1 = Some w2 ->
        (forall p w3, step (FetchSettled (ctl r1) p) w2 = Some w3 ->
           shown w3 = shown (exec (lower (asks r1)) w2))
        /\ (forall p w3, step (BodySettled (ctl r1) p) w2 = Some w3 ->
              shown w3 = shown (exec (lower (asks r1)) w2))).
Proof.
  intros Hw H1 Hs H2 Hnew Hk.
  destruct (reachable_net_ok _ _ Hw) as (I1 & I2 & I3).
  destruct (step_net _ _ _ Hs) as [(t & N & L) | [(S & _) | [N _]]].
  2:{ exfalso. destruct (settles_in _ _ _ S H2) as (r0 & Hr0 & E & _).
      apply Hnew. rewrite E. apply in_map, Hr0. }
  2:{ exfalso. destruct (stillborn_in w w1 r2 N H2) as (r0 & Hr0 & E & _).
      apply Hnew. rewrite E. apply in_map, Hr0. }
  unfold net, issue in N. inversion N as [[N1 N2 N3 N4]]. clear N.
  rewrite N1 in H2. apply in_app_or in H2 as [H2 | [<-|[]]].
  { exfalso. apply abort_all_in in H2 as (r0 & Hr0 & E & _).
    apply Hnew. rewrite E. apply in_map, Hr0. }
  cbn [asks ctl] in *.
  assert (A : aborted r1 = false -> current_ref t w = Some (ctl r1)).
  { intros Ha. rewrite <- (current_ref_same_kind _ _ w Hk). apply I2; assumption. }
  assert (C : cancelled (ctl r1) (asks r1) w1).
  { split; [rewrite N4; specialize (I1 _ H1); lia|]. rewrite N1. intros r Hr Hc.
    apply in_app_or in Hr as [Hr | [<-|[]]].
    - apply abort_all_in in Hr as (r0 & Hr0 & E1 & E2 & E3).
      assert (r0 = r1) by (eapply same_controller; eauto; congruence). subst r0.
      split; [|exact E2].
      rewrite E3. destruct (aborted r1) eqn:Ha; [apply orb_true_r|].
      rewrite (A eq_refl), Nat.eqb_refl. reflexivity.
    - cbn in Hc. specialize (I1 _ H1). lia. }
  split; [|split].
  - destruct (in_abort_all (current_ref t w) _ _ H1) as (r1' & Hin & E1 & E2 & E3).
    exists r1'. rewrite N1. split; [apply in_or_app; left; exact Hin|].
    split; [exact E1|]. split; [exact E2|].
    rewrite E3. destruct (aborted r1) eqn:Ha; [apply orb_true_r|].
    rewrite (A eq_refl), Nat.eqb_refl. reflexivity.
  - intros Ha. rewrite L. unfold issue_calls. rewrite (A Ha). reflexivity.
  - intros es w2 Hr. pose proof (run_cancelled _ _ _ _ _ C Hr) as C2. split.
    + intros p w3. apply late_response, C2.
    + intros p w3. apply late_body, C2.
Qed.

Lemma superseded_request_cancelled_witness :
  In lyon_request (requests (browser (started two_store)))
  /\ In paris_request (requests (browser paris_selected))
  /\ log (browser paris_selected)
     = log (browser (started two_store)) ++ [CallAbort 0; CallFetch 1 (ForecastOf paris)]
  /\ (forall w3, step (FetchSettled 0 (Rejected AbortError)) paris_fetched = Some w3 ->
        shown w3 = shown paris_fetched)
  /\ step (FetchSettled 0 (Rejected AbortError)) paris_fetched <> None.
Proof.
  assert (H1 : In lyon_request (requests (browser (started two_store))))
    by (left; reflexivity).
  assert (H2 : In paris_request (requests (browser paris_selected)))
    by (right; left; reflexivity).
  assert (Hr : reachable two_store (started two_store))
    by (split; [reflexivity | exists []; reflexivity]).
  assert (Hnew : ~ In (ctl paris_request)
                     (map ctl (requests (browser (started two_store))))).
  { cbn. intros [H|[]]. discriminate. }
  assert (Hs : step (Select paris false) (started two_store) = Some paris_selected)
    by (vm_compute; reflexivity).
  destruct (superseded_request_cancelled two_store (started two_store) paris_selected
              (Select paris false) lyon_request paris_request Hr H1 Hs H2 Hnew
              eq_refl) as (_ & L & K).
  split; [exact H1|]. split; [exact H2|]. split; [exact (L eq_refl)|].
  split; [|vm_compute; discriminate].
  intros w3.
  assert (R : run [FetchSettled 1 (Fulfilled http_ok);
                   BodySettled 1 (Fulfilled (ForecastBody short_forecast))]
                paris_selected = Some paris_fetched) by (vm_compute; reflexivity).
  apply (proj1 (K _ paris_fetched R)).
Defined.

(** *** Debouncing *)

Lemma geocode_calls_app l l' : geocode_calls (l ++ l') = geocode_calls l ++ geocode_calls l'.
Proof.
  induction l as [|[c [n|city]|c|k v|id v d|id] l IH]; cbn; rewrite ?IH; reflexivity.
Qed.

Lemma keeps_clock_record e : geocode_calls [e] = [] -> keeps clock (record e).
Proof.
  intros H w. unfold clock, calls. cbn. rewrite geocode_calls_app, H, app_nil_r.
  reflexivity.
Qed.

Ltac keeps_clock :=
  repeat first [ apply keeps_clock_record; reflexivity | keeps_step ].

Lemma resume_body_keeps_clock r p m : resume_body r p = Some m -> keeps clock m.
Proof.
  unfold resume_body.
  destruct (asks r), p as [[d|d]|e]; intros H; inversion H; subst; keeps_clock.
Qed.

Lemma keeps_timers_ok {A} (m : M A) w : keeps clock m -> timers_ok w -> timers_ok (exec m w).
Proof.
  intros K H. specialize (K w). unfold clock in K. inversion K as [[K1 K2 K3 K4 K5]].
  unfold timers_ok, exec. rewrite K1, K2, K3. exact H.
Qed.

(** What a keystroke does to the timers. *)
Lemma onQueryChange_clock v w :
  timers_ok w ->
  let w' := exec (onQueryChange v) w in
  timers (browser w') = [armed v w]
  /\ debounceRef (refs w') = Some (next_timer (browser w))
  /\ next_timer (browser w') = S (next_timer (browser w))
  /\ now (browser w') = now (browser w)
  /\ calls w' = calls w
  /\ log (browser w')
     = log (browser w)
       ++ match debounceRef (refs w) with
          | Some id => [CallClearTimeout id]
          | None => []
          end
       ++ [CallSetTimeout (next_timer (browser w)) v 300].
Proof.
  intros (T1 & T2 & T3) w'. subst w'.
  unfold exec, onQueryChange, bind, gets, when, id_truthy, clearTimeout, setTimeout,
    modify, record, set_debounceRef, calls, armed, ret.
  cbn. destruct (debounceRef (refs w)) as [id|] eqn:E.
  - specialize (T3 id eq_refl).
    assert (Z : (id =? 0)%nat = false) by (apply Nat.eqb_neq; lia).
    rewrite Z. cbn.
    assert (F : filter (fun t => negb (timer_id t =? id)%nat) (timers (browser w)) = []).
    { induction (timers (browser w)) as [|t l IH]; [reflexivity|]. cbn.
      assert (Some id = Some (timer_id t)) as K by (apply T2; left; reflexivity).
      inversion K; subst. rewrite Nat.eqb_refl. cbn. apply IH.
      intros t' Ht'. apply T2. right. exact Ht'. }
    rewrite F. cbn. rewrite !geocode_calls_app, <- !app_assoc. cbn.
    rewrite !app_nil_r. repeat split.
  - assert (F : timers (browser w) = []).
    { destruct (timers (browser w)) as [|t l]; [reflexivity|].
      specialize (T2 t (or_introl eq_refl)). discriminate. }
    cbn. rewrite F. cbn. rewrite !geocode_calls_app. cbn. rewrite !app_nil_r.
    repeat split.
Qed.

(** What a timer's callback does to the timers and to the searches. *)
Lemma fire_clock t w :
  clock (exec (fire t) w)
  = (filter (fun t' => negb (timer_id t' =? timer_id t)%nat) (timers (browser w)),
     debounceRef (refs w), next_timer (browser w), now (browser w),
     calls w ++ if searched (typed t) then [typed t] else []).
Proof.
  unfold clock, calls, exec, fire, fetchSuggestions, bind, modify, searched.
  rewrite trim_truthy. destruct (blank (typed t)); cbn.
  - rewrite app_nil_r. reflexivity.
  - unfold abort, bind, gets, modify, record, new_AbortController, fetch, when, ret,
      try_catch_finally, encodeURIComponent, throw.
    destruct (well_formed (typed t));
      destruct (seen_loadingSuggest t); cbn; destruct (suggestAbortRef (refs w)); cbn;
      rewrite ?geocode_calls_app; cbn; rewrite ?app_nil_r; reflexivity.
Qed.

Lemma step_clock e w w' :
  step e w = Some w' ->
  match e with
  | Input _ | Elapse _ | Timeout _ => True
  | _ => clock w' = clock w
  end.
Proof.
  intros H. destruct e; try exact I; cbn [step] in H.
  - destruct (City_mem city (suggestions (ui w)) || City_mem city (favorites (ui w)));
      [|discriminate].
    destruct same_object.
    + destruct (selectedCity (ui w)) as [c|]; [|discriminate].
      destruct (City_eq_dec c city); inversion H; subst.
      assert (K : keeps clock (selectCity city)) by keeps_clock. apply K.
    + inversion H; subst.
      assert (K : keeps clock (selectCity city ;; selectedCity_effect (Some city)))
        by keeps_clock.
      apply K.
  - destruct (selectedCity (ui w)) eqn:E; [|discriminate].
    destruct (loading (ui w)); inversion H; subst.
    assert (K : keeps clock onClickQuery) by keeps_clock. apply K.
  - destruct (selectedCity (ui w)); [|discriminate]. inversion H; subst.
    assert (K : keeps clock toggleFavorite) by keeps_clock. apply K.
  - destruct (find_request controller w) as [r|]; [|discriminate].
    destruct (at_phase r); [|discriminate].
    destruct (admissible r p); inversion H; subst.
    assert (K : keeps clock (resume_response r p)) by keeps_clock. apply K.
  - destruct (find_request controller w) as [r|]; [|discriminate].
    destruct (at_phase r); [discriminate|].
    destruct (admissible r p); [|discriminate].
    destruct (resume_body r p) eqn:E; inversion H; subst.
    apply (resume_body_keeps_clock _ _ _ E).
  - inversion H; subst. reflexivity.
Qed.

Lemma find_timer_some id w t :
  find_timer id w = Some t -> In t (timers (browser w)) /\ timer_id t = id.
Proof.
  unfold find_timer. intros H. apply find_some in H as [H K].
  apply Nat.eqb_eq in K. auto.
Qed.

Lemma clock_timers_ok w w' : clock w' = clock w -> timers_ok w -> timers_ok w'.
Proof.
  unfold clock. intros K H. inversion K as [[K1 K2 K3 K4 K5]].
  unfold timers_ok. rewrite K1, K2, K3. exact H.
Qed.

Lemma step_timers_ok e w w' : timers_ok w -> step e w = Some w' -> timers_ok w'.
Proof.
  intros T H. pose proof (step_clock _ _ _ H) as K.
  destruct e; try (eapply clock_timers_ok; eassumption); cbn [step] in H.
  - inversion H; subst.
    destruct (onQueryChange_clock v w T) as (C1 & C2 & C3 & _).
    destruct T as (T1 & T2 & T3).
    unfold timers_ok. rewrite C1, C2, C3. split; [lia|]. split.
    + intros t [<-|[]]. reflexivity.
    + intros id E. inversion E; subst. exact T1.
  - inversion H; subst. exact T.
  - destruct (find_timer id w) as [t|]; [|discriminate].
    destruct (due t <=? now (browser w))%nat; inversion H; subst.
    pose proof (fire_clock t w) as C. unfold clock in C.
    inversion C as [[C1 C2 C3 C4 C5]]. destruct T as (T1 & T2 & T3).
    unfold timers_ok. rewrite C1, C2, C3. split; [exact T1|]. split; [|exact T3].
    intros t' Ht'. apply filter_In in Ht' as [Ht' _]. apply T2, Ht'.
Qed.

Lemma started_timers_ok s : timers_ok (started s).
Proof.
  destruct s as [[[| |l|]|] [[| |c|]|] q]; (split; [|split]); cbn;
    try lia; try contradiction; discriminate.
Qed.

Lemma reachable_timers_ok s w : reachable s w -> timers_ok w.
Proof.
  apply reachable_invariant.
  - apply started_timers_ok.
  - intros e w0 w'. apply step_timers_ok.
Qed.

Lemma step_debounced st e w w' :
  debounced st w -> step e w = Some w' -> rapid_from st [e] = true ->
  debounced (track st e) w'.
Proof.
  intros [T D] H R. split; [eapply step_timers_ok; eassumption|].
  pose proof (step_clock _ _ _ H) as K.
  destruct e; cbn [track];
    try (unfold clock in K; inversion K as [[K1 K2 K3 K4 K5]];
         rewrite K1, K4, K5; exact D);
    cbn [step] in H.
  - (* a keystroke *)
    inversion H; subst.
    destruct (onQueryChange_clock v w T) as (C1 & C2 & C3 & C4 & C5 & _).
    left. exists (armed v w). rewrite C1, C4, C5. cbn.
    split; [reflexivity|]. split; [reflexivity|]. split; [lia|].
    destruct st as [[d v0]|].
    + cbn [rapid_from track] in R. rewrite andb_true_r in R. apply Nat.ltb_lt in R.
      destruct D as [(t & _ & _ & _ & D) | (_ & D & _)]; [exact D|lia].
    + apply D.
  - (* time passes *)
    inversion H; subst. cbn. destruct st as [[d v]|]; [|exact D].
    destruct D as [(t & D1 & D2 & D3 & D4) | (D1 & D2 & D3)].
    + left. exists t. repeat split; try assumption. lia.
    + right. repeat split; try assumption. lia.
  - (* the timer comes due *)
    destruct (find_timer id w) as [t|] eqn:F; [|discriminate].
    apply find_timer_some in F as [F1 F2].
    destruct (due t <=? now (browser w))%nat eqn:L; inversion H; subst.
    apply Nat.leb_le in L.
    pose proof (fire_clock t w) as C. unfold clock in C.
    inversion C as [[C1 C2 C3 C4 C5]].
    destruct st as [[d v]|].
    + destruct D as [(t0 & D1 & D2 & D3 & D4) | (D1 & _)].
      * rewrite D1 in F1. destruct F1 as [->|[]].
        right. rewrite C1, C5, D1, D4, D2. cbn. rewrite Nat.eqb_refl. cbn.
        split; [reflexivity|]. split; [lia|].
        unfold searched. destruct (blank v); cbn; [left; reflexivity|].
        destruct (well_formed v); [right; auto | left; reflexivity].
      * rewrite D1 in F1. contradiction.
    + destruct D as [D1 _]. rewrite D1 in F1. contradiction.
Qed.

Lemma rapid_from_cons st e es :
  rapid_from st (e :: es) = rapid_from st [e] && rapid_from (track st e) es.
Proof. cbn. rewrite andb_true_r. reflexivity. Qed.

Lemma run_debounced es : forall st w w',
  debounced st w -> run es w = Some w' -> rapid_from st es = true ->
  debounced (fold_left track es st) w'.
Proof.
  induction es as [|e es IH]; intros st w w' D H R.
  - inversion H; subst. exact D.
  - cbn [run] in H. destruct (step e w) as [w1|] eqn:E; [|discriminate].
    rewrite rapid_from_cons in R. apply andb_true_iff in R as [R1 R2].
    cbn [fold_left]. eapply IH; [|exact H|exact R2].
    eapply step_debounced; eassumption.
Qed.

Lemma track_last es : forall st,
  option_map snd (fold_left track es st)
  = match last_input es with
    | Some v => Some v
    | None => option_map snd st
    end.
Proof.
  induction es as [|e es IH]; intros st; cbn [fold_left last_input]; [reflexivity|].
  rewrite IH. destruct (last_input es); [reflexivity|].
  destruct e; try reflexivity. destruct st as [[d v]|]; reflexivity.
Qed.

Lemma started_debounced s : debounced None (started s).
Proof.
  split; [apply started_timers_ok|].
  destruct s as [[[| |l|]|] [[| |c|]|] q]; split; reflexivity.
Qed.

(** C8.  Along a run of the app in which every keystroke but the first
    comes less than 300 after the one before, the searches made are none or
    the single search for the text of the last keystroke, which is not
    blank.  In any world the app can reach, a keystroke leaves exactly one
    timer pending, its own, due 300 later; it calls [clearTimeout] on the
    timer that [debounceRef] names and then [setTimeout]; and a timer that
    was pending is the one [debounceRef] names. *)
Theorem debounce_last_query (s : Storage) (es : list event) (w : World) :
  run es (started s) = Some w ->
  (rapid es = true ->
     calls w = []
     \/ (exists v, last_input es = Some v /\ blank v = false /\ calls w = [v]))
  /\ (forall v,
        let w' := exec (onQueryChange v) w in
        timers (browser w') = [armed v w]
        /\ due (armed v w) = (now (browser w) + 300)%nat
        /\ log (browser w')
           = log (browser w)
             ++ match debounceRef (refs w) with
                | Some id => [CallClearTimeout id]
                | None => []
                end
             ++ [CallSetTimeout (next_timer (browser w)) v 300]
        /\ (forall t, In t (timers (browser w)) ->
              debounceRef (refs w) = Some (timer_id t))).
Proof.
  intros H. split.
  - intros R.
    pose proof (run_debounced es None _ _ (started_debounced s) H R) as [_ D].
    pose proof (track_last es None) as L.
    destruct (fold_left track es None) as [[d v]|].
    + cbn in L. assert (E : last_input es = Some v).
      { destruct (last_input es); [congruence|discriminate]. }
      destruct D as [(t & _ & _ & _ & D) | (_ & _ & [D | [B D]])]; eauto.
    + left. apply D.
  - intros v w'. subst w'.
    assert (T : timers_ok w).
    { apply (run_invariant timers_ok (fun e w0 w1 => step_timers_ok e w0 w1)
               es (started s) w (started_timers_ok s) H). }
    destruct (onQueryChange_clock v w T) as (C1 & _ & _ & _ & _ & C6).
    split; [exact C1|]. split; [reflexivity|]. split; [exact C6|].
    apply T.
Qed.

Lemma debounce_last_query_witness :
  let es := [Input "P"; Elapse 120; Input "Pa"; Elapse 299; Input "Par"; Elapse 300;
             Timeout 3] in
  exists w, run es (started two_store) = Some w
            /\ rapid es = true
            /\ last_input es = Some "Par"
            /\ log (browser w)
               = [CallFetch 0 (ForecastOf lyon);
                  CallSetTimeout 1 "P" 300;
                  CallClearTimeout 1; CallSetTimeout 2 "Pa" 300;
                  CallClearTimeout 2; CallSetTimeout 3 "Par" 300;
                  CallFetch 1 (Geocode "Par")]
            /\ (calls w = []
                \/ (exists v, last_input es = Some v /\ blank v = false /\ calls w = [v])).
Proof.
  intros es.
  destruct (run es (started two_store)) as [w|] eqn:E; [|vm_compute in E; discriminate].
  exists w. split; [reflexivity|]. split; [reflexivity|]. split; [reflexivity|].
  split.
  - vm_compute in E. inversion E; subst. reflexivity.
  - exact (proj1 (debounce_last_query two_store es w E) eq_refl).
Defined.

(** *** No handler throws *)

Lemma catches_ret {A} (a : A) : catches (ret a).
Proof. intros w e. discriminate. Qed.

Lemma catches_gets {A} (g : World -> A) : catches (gets g).
Proof. intros w e. discriminate. Qed.

Lemma catches_modify (f : World -> World) : catches (modify f).
Proof. intros w e. discriminate. Qed.

Lemma catches_bind {A B} (m : M A) (k : A -> M B) :
  catches m -> (forall a, catches (k a)) -> catches (bind m k).
Proof.
  intros Hm Hk w e. unfold bind. specialize (Hm w).
  destruct (m w) as [[a|e'|] w1]; cbn in *; [apply Hk| |discriminate].
  exfalso. apply (Hm e'). reflexivity.
Qed.

Lemma catches_when (b : bool) (m : M unit) : catches m -> catches (when b m).
Proof. destruct b; cbn; [auto | intros _; apply catches_ret]. Qed.

Lemma catches_try_catch {A} (m : M A) (h : thrown -> M A) :
  (forall e, catches (h e)) -> catches (try_catch m h).
Proof.
  intros Hh w e. unfold try_catch.
  destruct (m w) as [[a|e'|] w1]; [discriminate|apply Hh|discriminate].
Qed.

Lemma catches_try_catch_finally (c : nat) (m : M progress) (h : thrown -> M unit)
    (fin : M unit) :
  (forall e, catches (h e)) -> catches fin ->
  catches (try_catch_finally c m h fin).
Proof.
  intros Hh Hfin w e. unfold try_catch_finally.
  assert (R : catches (fin ;; retire c)).
  { apply catches_bind; [exact Hfin|]. intros _. apply catches_modify. }
  destruct (m w) as [[[|]|e'|] w1]; try discriminate.
  - apply R.
  - apply catches_bind; [apply Hh|]. intros _. apply R.
Qed.

Ltac catches_step :=
  first
    [ apply catches_ret | apply catches_gets | apply catches_modify
    | apply catches_bind; [|intros ?]
    | apply catches_try_catch; intros ?
    | apply catches_try_catch_finally; [intros ?|]
    | apply catches_when
    | match goal with
      | |- catches (match ?x with _ => _ end) => destruct x
      end
    | progress unfold
        restore, saveFavorites, onQueryChange, fetchSuggestions,
        fetchSuggestions_catch, fetchSuggestions_finally, fetchSuggestions_response,
        fetchSuggestions_json, fetchWeather, fetchWeather_catch, fetchWeather_finally,
        fetchWeather_response, fetchWeather_json, selectedCity_effect, selectCity,
        toggleFavorite, onClickQuery, mount, fire, resume_response, ignoreError,
        setTimeout, clearTimeout, new_AbortController, abort, fetch, record,
        setQuery, setSuggestions, setSelectedCity, setFavorites, setWeather,
        setLoading, setLoadingSuggest, setError, set_suggestAbortRef,
        set_weatherAbortRef, set_debounceRef, cleanup ].

Lemma welltyped_ret {A} (a : A) : welltyped (ret a).
Proof. intros w. discriminate. Qed.

Lemma welltyped_throw {A} (e : thrown) : welltyped (@throw A e).
Proof. intros w. discriminate. Qed.

Lemma welltyped_gets {A} (g : World -> A) : welltyped (gets g).
Proof. intros w. discriminate. Qed.

Lemma welltyped_modify (f : World -> World) : welltyped (modify f).
Proof. intros w. discriminate. Qed.

Lemma welltyped_bind {A B} (m : M A) (k : A -> M B) :
  welltyped m -> (forall a, welltyped (k a)) -> welltyped (bind m k).
Proof.
  intros Hm Hk w. unfold bind. specialize (Hm w).
  destruct (m w) as [[a|e|] w1]; cbn in *; [apply Hk|discriminate|].
  exfalso. apply Hm. reflexivity.
Qed.

Lemma welltyped_when (b : bool) (m : M unit) : welltyped m -> welltyped (when b m).
Proof. destruct b; cbn; [auto | intros _; apply welltyped_ret]. Qed.

Lemma welltyped_try_catch {A} (m : M A) (h : thrown -> M A) :
  welltyped m -> (forall e, welltyped (h e)) -> welltyped (try_catch m h).
Proof.
  intros Hm Hh w. unfold try_catch. specialize (Hm w).
  destruct (m w) as [[a|e|] w1]; cbn in *; [discriminate|apply Hh|].
  exfalso. apply Hm. reflexivity.
Qed.

Lemma welltyped_try_catch_finally (c : nat) (m : M progress) (h : thrown -> M unit)
    (fin : M unit) :
  welltyped m -> (forall e, welltyped (h e)) -> welltyped fin ->
  welltyped (try_catch_finally c m h fin).
Proof.
  intros Hm Hh Hfin w. unfold try_catch_finally. specialize (Hm w).
  assert (R : welltyped (fin ;; retire c)).
  { apply welltyped_bind; [exact Hfin|]. intros _. apply welltyped_modify. }
  destruct (m w) as [[[|]|e|] w1]; cbn in *; [discriminate|apply R| |].
  - apply welltyped_bind; [apply Hh|]. intros _. apply R.
  - exfalso. apply Hm. reflexivity.
Qed.

Ltac welltyped_step :=
  first
    [ apply welltyped_ret | apply welltyped_throw | apply welltyped_gets | apply welltyped_modify
    | apply welltyped_bind; [|intros ?]
    | apply welltyped_try_catch; [|intros ?]
    | apply welltyped_try_catch_finally; [|intros ?|]
    | apply welltyped_when
    | match goal with
      | |- welltyped (match ?x with _ => _ end) => destruct x
      end
    | progress unfold
        saveFavorites, onQueryChange, fetchSuggestions,
        fetchSuggestions_catch, fetchSuggestions_finally, fetchSuggestions_response,
        fetchSuggestions_json, fetchWeather, fetchWeather_catch, fetchWeather_finally,
        fetchWeather_response, fetchWeather_json, shapeWeather, persistLastCity,
        selectedCity_effect, selectCity, toggleFavorite, onClickQuery, fire,
        resume_response, ignoreError, setItem, encodeURIComponent, await, prop, suspend,
        setTimeout, clearTimeout, new_AbortController, abort, fetch, record,
        setQuery, setSuggestions, setSelectedCity, setFavorites, setWeather,
        setLoading, setLoadingSuggest, setError, set_suggestAbortRef,
        set_weatherAbortRef, set_debounceRef, cleanup ].

Lemma caught_and_typed (m : M unit) : catches m -> welltyped m -> completes m.
Proof.
  intros C T w. specialize (C w). specialize (T w).
  destruct (m w) as [[[]|e|] w1]; cbn in *;
    [exists tt; reflexivity | exfalso; apply (C e); reflexivity | contradiction].
Qed.

(** No effect and no handler lets an exception out: what they may throw
    inside is caught inside. *)
Lemma handlers_catch :
  catches mount
  /\ (forall v, catches (onQueryChange v))
  /\ (forall t, catches (fire t))
  /\ (forall city, catches (selectCity city ;; selectedCity_effect (Some city)))
  /\ catches onClickQuery
  /\ catches toggleFavorite
  /\ (forall r p, catches (resume_response r p))
  /\ (forall r p m, resume_body r p = Some m -> catches m)
  /\ catches cleanup.
Proof.
  repeat split; intros; try (repeat catches_step; fail).
  unfold resume_body in H.
  destruct (asks r), p as [[d|d]|e]; inversion H; subst; repeat catches_step.
Qed.

(** The handlers that [step] runs stay within the types of the source:
    only the restore reads a value that may be of another type. *)
Lemma handlers_typed :
  (forall v, welltyped (onQueryChange v))
  /\ (forall t, welltyped (fire t))
  /\ (forall city, welltyped (selectCity city ;; selectedCity_effect (Some city)))
  /\ welltyped onClickQuery
  /\ welltyped toggleFavorite
  /\ (forall r p, welltyped (resume_response r p))
  /\ (forall r p m, resume_body r p = Some m -> welltyped m)
  /\ welltyped cleanup.
Proof.
  repeat split; intros; try (repeat welltyped_step; fail).
  unfold resume_body in H.
  destruct (asks r), p as [[d|d]|e]; inversion H; subst; repeat welltyped_step.
Qed.

(* ================================================================= *)
(** ** Further properties of the component *)

(** *** What a step runs *)

Lemma City_mem_In c l : City_mem c l = true -> In c l.
Proof. unfold City_mem. destruct (in_dec City_eq_dec c l); [auto|discriminate]. Qed.

Lemma step_ran (e : event) (w w' : World) :
  step e w = Some w' -> exists m, ran w m /\ w' = exec m w.
Proof.
  intros H. destruct e; cbn [step] in H.
  - inversion H. eexists. split; [apply ran_input|reflexivity].
  - inversion H. eexists. split; [apply (ran_elapse w dt)|reflexivity].
  - destruct (find_timer id w) as [t|] eqn:F; [|discriminate].
    apply find_timer_some in F as [F _].
    destruct (due t <=? now (browser w))%nat eqn:L; inversion H.
    apply Nat.leb_le in L. eexists. split; [apply ran_timeout; eassumption|reflexivity].
  - destruct (City_mem city (suggestions (ui w)) || City_mem city (favorites (ui w)))
      eqn:E; [|discriminate].
    destruct same_object.
    + destruct (selectedCity (ui w)) as [c|] eqn:S; [|discriminate].
      destruct (City_eq_dec c city); inversion H; subst.
      eexists. split; [apply ran_reselect; exact S|reflexivity].
    + inversion H. eexists. split; [|reflexivity]. apply ran_select.
      apply orb_true_iff in E as [E|E]; apply City_mem_In in E; auto.
  - destruct (selectedCity (ui w)) as [c|] eqn:S; [|discriminate].
    destruct (loading (ui w)) eqn:L; inversion H.
    eexists. split; [eapply ran_query; eassumption|reflexivity].
  - destruct (selectedCity (ui w)) as [c|] eqn:S; [|discriminate]. inversion H.
    eexists. split; [eapply ran_star; eassumption|reflexivity].
  - destruct (find_request controller w) as [r|] eqn:F; [|discriminate].
    apply find_request_some in F as [F _].
    destruct (at_phase r); [|discriminate].
    destruct (admissible r p) eqn:A; inversion H.
    unfold resume_response. destruct (asks r) as [name|city] eqn:K.
    + eexists. split; [eapply ran_search_response; eassumption|reflexivity].
    + eexists. split; [eapply ran_forecast_response; eassumption|reflexivity].
  - destruct (find_request controller w) as [r|] eqn:F; [|discriminate].
    apply find_request_some in F as [F _].
    destruct (at_phase r); [discriminate|].
    destruct (admissible r p) eqn:A; [|discriminate].
    unfold resume_body in H.
    destruct (asks r) as [name|city] eqn:K, p as [[d|d]|e]; inversion H.
    + eexists. split; [|reflexivity].
      apply (ran_search_body w r name (Fulfilled d)); auto.
    + eexists. split; [|reflexivity].
      apply (ran_search_body w r name (Rejected e)); auto.
    + eexists. split; [|reflexivity].
      apply (ran_forecast_body w r city (Fulfilled d)); auto.
    + eexists. split; [|reflexivity].
      apply (ran_forecast_body w r city (Rejected e)); auto.
  - inversion H. eexists. split; [apply (ran_quota w full)|reflexivity].
Qed.

(** An invariant of what steps run is an invariant of the app. *)
Lemma ran_invariant (s : Storage) (P : World -> Prop) :
  P (started s) ->
  (forall w m, reachable s w -> P w -> ran w m -> P (exec m w)) ->
  forall w, reachable s w -> P w.
Proof.
  intros H0 Hs w Hw. pose proof (proj1 Hw) as M0.
  assert (K : reachable s w /\ P w); [|apply K].
  revert w Hw. apply reachable_invariant.
  - split; [split; [exact M0 | exists []; reflexivity]|exact H0].
  - intros e w w' [[_ [es Hes]] Hp] H.
    assert (R : reachable s w') .
    { split; [exact M0|].
      exists (es ++ [e]). clear Hp. revert Hes. generalize (started s).
      induction es as [|e0 es IH]; cbn; intros w0 Hes.
      - inversion Hes; subst. rewrite H. reflexivity.
      - destruct (step e0 w0); [auto|discriminate]. }
    split; [exact R|].
    destruct (step_ran _ _ _ H) as (m & Hm & ->).
    apply Hs; [split; [exact M0 | exists es; exact Hes] | exact Hp | exact Hm].
Qed.

(** *** The favourites, further *)

Lemma existsb_filter_negb {A} (f : A -> bool) (l : list A) :
  existsb f (filter (fun x => negb (f x)) l) = false.
Proof.
  induction l as [|a l IH]; cbn; [reflexivity|].
  destruct (f a) eqn:E; cbn; [exact IH|]. rewrite E. exact IH.
Qed.

Lemma present_after_toggle (sel : City) (l : list City) :
  existsb (fun c => sameCity c sel) (toggled sel l)
  = negb (existsb (fun c => sameCity c sel) l).
Proof.
  unfold toggled. destruct (existsb (fun c => sameCity c sel) l) eqn:E; cbn [negb].
  - apply (existsb_filter_negb (fun c => sameCity c sel)).
  - change (firstn 20 (sel :: l)) with (sel :: firstn 19 l).
    cbn [existsb]. rewrite sameCity_refl. reflexivity.
Qed.

(** X2.  With a city selected, a click on the star always flips it: the
    city is a favourite afterwards exactly when it was not before, whatever
    the length of the list and whether or not the store took the write. *)
Theorem star_flips (w : World) (sel : City) :
  selectedCity (ui w) = Some sel ->
  hasFavorited (exec toggleFavorite w) = negb (hasFavorited w).
Proof.
  intros H. unfold hasFavorited at 2. rewrite H.
  rewrite (toggleFavorite_exec _ _ H). unfold hasFavorited.
  rewrite saveFavorites_selectedCity, H.
  change (favorites (ui (exec (saveFavorites (toggled sel (favs w))) w)))
    with (favs (exec (saveFavorites (toggled sel (favs w))) w)).
  rewrite saveFavorites_favs. apply present_after_toggle.
Qed.

Lemma star_flips_witness :
  hasFavorited (started two_store) = true
  /\ hasFavorited (exec toggleFavorite (started two_store)) = false
  /\ hasFavorited (exec toggleFavorite (exec toggleFavorite (started two_store))) = true.
Proof.
  pose proof (star_flips (started two_store) lyon eq_refl) as H1.
  pose proof (star_flips (exec toggleFavorite (started two_store)) lyon eq_refl) as H2.
  assert (H0 : hasFavorited (started two_store) = true) by reflexivity.
  rewrite H0 in H1. rewrite H1 in H2. exact (conj H0 (conj H1 H2)).
Defined.

Lemma firstn_app_firstn {A} (n : nat) (a b : list A) :
  firstn n (a ++ firstn n b) = firstn n (a ++ b).
Proof.
  rewrite !firstn_app, firstn_firstn. f_equal. f_equal. lia.
Qed.

Lemma star_each_favs (cs : list City) : forall w,
  favs (star_each cs w) = fold_left (fun l c => toggled c l) cs (favs w).
Proof.
  induction cs as [|c cs IH]; intros w; cbn [star_each fold_left]; [reflexivity|].
  rewrite IH. f_equal.
  rewrite (toggleFavorite_exec (exec (setSelectedCity (Some c)) w) c eq_refl).
  rewrite saveFavorites_favs. reflexivity.
Qed.

Lemma add_each (cs : list City) : forall l,
  (List.length l <= 20)%nat ->
  no_duplicates cs ->
  (forall c, In c cs -> existsb (fun d => sameCity d c) l = false) ->
  fold_left (fun l c => toggled c l) cs l = firstn 20 (rev cs ++ l).
Proof.
  induction cs as [|c cs IH]; intros l Hlen Hnd Habs; cbn [fold_left rev].
  - cbn [app]. symmetry. apply firstn_all2, Hlen.
  - apply no_duplicates_cons in Hnd as [Hc Hnd].
    assert (E : toggled c l = firstn 20 (c :: l)).
    { unfold toggled. rewrite Habs; [reflexivity|left; reflexivity]. }
    rewrite E, IH.
    + rewrite firstn_app_firstn, <- app_assoc. reflexivity.
    + rewrite length_firstn. lia.
    + exact Hnd.
    + intros c' Hc'. apply absent_firstn. cbn [existsb].
      rewrite Forall_forall in Hc. rewrite (Hc c' Hc').
      apply Habs. right. exact Hc'.
Qed.

(** X3.  Starting from at most 20 favourites, selecting in turn cities that
    differ from one another and from the favourites, and clicking the star
    for each, leaves the cities added in the reverse order of their
    selection, followed by the old favourites, cut to the first 20. *)
Theorem star_each_most_recent_first (cs : list City) (w : World) :
  (List.length (favs w) <= 20)%nat ->
  no_duplicates cs ->
  (forall c, In c cs -> existsb (fun d => sameCity d c) (favs w) = false) ->
  favs (star_each cs w) = firstn 20 (rev cs ++ favs w).
Proof.
  intros Hlen Hnd Habs. rewrite star_each_favs. apply add_each; assumption.
Qed.

(** Cities numbered differently differ. *)
Lemma numbered_distinct (n m : nat) : n <> m -> distinct (numbered n) (numbered m).
Proof.
  intros H. unfold distinct. destruct (sameCity (numbered n) (numbered m)) eqn:E;
    [|reflexivity].
  unfold sameCity in E. apply andb_true_iff in E as [E _].
  apply andb_true_iff in E as [E _]. apply strict_eq_spec in E.
  cbn [numbered City.latitude] in E. apply same_exponent in E.
  apply SuccNat2Pos.inj in E. contradiction.
Qed.

Lemma numbered_no_duplicates (n : nat) : forall a, no_duplicates (map numbered (seq a n)).
Proof.
  induction n as [|n IH]; intros a; cbn; [constructor|].
  apply no_duplicates_cons. split; [|apply IH].
  apply Forall_forall. intros c Hc. apply in_map_iff in Hc as (m & <- & Hm).
  apply in_seq in Hm. apply numbered_distinct. lia.
Qed.

Lemma star_each_most_recent_first_witness :
  favs (star_each (map numbered (seq 0 21)) (started empty_store))
  = map numbered (rev (seq 1 20)).
Proof.
  rewrite (star_each_most_recent_first (map numbered (seq 0 21)) (started empty_store)).
  - reflexivity.
  - cbn. lia.
  - apply numbered_no_duplicates.
  - intros c _. reflexivity.
Defined.

Lemma saveFavorites_frame next w :
  beside_favorites (exec (saveFavorites next) w) = beside_favorites w
  /\ fst (saveFavorites next w) = Normal tt.
Proof.
  unfold beside_favorites, exec, saveFavorites, setItem, try_catch, bind, gets, record,
    modify; cbn.
  destruct (quota_exceeded (storage (browser w))) eqn:Q; cbn; rewrite ?Q;
    split; reflexivity.
Qed.

(** X4.  A click on the star changes the favourites and the favourites key
    of the store and nothing else: no search box, no suggestion, no
    selection, no weather, no flag, no error, no ref, no timer, no request
    and no last city; and it throws nothing, even when the store is
    full. *)
Theorem toggleFavorite_frame (w : World) :
  beside_favorites (exec toggleFavorite w) = beside_favorites w
  /\ fst (toggleFavorite w) = Normal tt.
Proof.
  destruct (selectedCity (ui w)) as [sel|] eqn:E.
  - split.
    + rewrite (toggleFavorite_exec _ _ E). apply saveFavorites_frame.
    + unfold toggleFavorite, bind, gets, hasFavorited. cbv beta iota.
      rewrite E. cbv beta iota. rewrite E.
      destruct (existsb (fun c => sameCity c sel) (favorites (ui w)));
        apply saveFavorites_frame.
  - split.
    + rewrite (toggleFavorite_unselected _ E). reflexivity.
    + unfold toggleFavorite, bind, gets. cbv beta iota. rewrite E. reflexivity.
Qed.

Lemma started_storage s : storage (browser (started s)) = s.
Proof. destruct s as [[[| |l|]|] [[| |c|]|] q]; reflexivity. Qed.

Lemma kept_valid {A} (m : M A) (w : World) :
  keeps (fun w => (favs w, favorites_item (storage (browser w)))) m ->
  favorites_ok (favs w) /\ store_ok (storage (browser w)) ->
  favorites_ok (favs (exec m w)) /\ store_ok (storage (browser (exec m w))).
Proof.
  intros K H. specialize (K w). cbv beta in K. inversion K as [[K1 K2]].
  unfold store_ok, exec in *. rewrite K1, K2. exact H.
Qed.

(** What [JSON.stringify] writes compares as what it was given. *)
Lemma json_number_canonical (x y : number) :
  json_number x = Some y -> canonical y = canonical x.
Proof. destruct x; cbn; intros H; inversion H; reflexivity. Qed.

Lemma json_city_same (c c' d d' : City) :
  json_city c = Some c' -> json_city d = Some d' -> sameCity c' d' = sameCity c d.
Proof.
  unfold json_city. intros Hc Hd.
  destruct (json_number (City.latitude c)) as [a|] eqn:A; [|discriminate].
  destruct (json_number (City.longitude c)) as [b|] eqn:B; [|discriminate].
  destruct (json_number (City.latitude d)) as [a'|] eqn:A'; [|discriminate].
  destruct (json_number (City.longitude d)) as [b'|] eqn:B'; [|discriminate].
  inversion Hc; inversion Hd; subst. unfold sameCity, strict_eq. cbn.
  rewrite (json_number_canonical _ _ A), (json_number_canonical _ _ B),
    (json_number_canonical _ _ A'), (json_number_canonical _ _ B').
  reflexivity.
Qed.

Lemma json_cities_distinct (c c' : City) (l : list City) : forall l',
  json_city c = Some c' -> json_cities l = Some l' ->
  Forall (distinct c) l -> Forall (distinct c') l'.
Proof.
  induction l as [|d l IH]; cbn; intros l' Hc Hl H.
  - inversion Hl. constructor.
  - destruct (json_city d) as [d'|] eqn:D; [|discriminate].
    destruct (json_cities l) as [k|]; [|discriminate].
    inversion Hl; subst. inversion H; subst. constructor; [|auto].
    unfold distinct. rewrite (json_city_same _ _ _ _ Hc D). assumption.
Qed.

Lemma json_cities_length (l : list City) : forall l',
  json_cities l = Some l' -> List.length l' = List.length l.
Proof.
  induction l as [|c l IH]; cbn; intros l' Hl.
  - inversion Hl. reflexivity.
  - destruct (json_city c) as [c'|]; [|discriminate].
    destruct (json_cities l) as [k|]; [|discriminate].
    inversion Hl; subst. cbn. rewrite (IH k eq_refl). reflexivity.
Qed.

Lemma json_cities_no_duplicates (l : list City) : forall l',
  json_cities l = Some l' -> no_duplicates l -> no_duplicates l'.
Proof.
  induction l as [|c l IH]; cbn; intros l' Hl Hnd.
  - inversion Hl. constructor.
  - destruct (json_city c) as [c'|] eqn:C; [|discriminate].
    destruct (json_cities l) as [k|] eqn:K; [|discriminate].
    inversion Hl; subst. apply no_duplicates_cons in Hnd as [H1 H2].
    apply no_duplicates_cons. split; [|apply IH; auto].
    apply (json_cities_distinct c c' l k C K H1).
Qed.

Lemma json_cities_ok (l l' : list City) :
  json_cities l = Some l' -> favorites_ok l -> favorites_ok l'.
Proof.
  intros Hl [Hlen Hnd]. split.
  - rewrite (json_cities_length _ _ Hl). exact Hlen.
  - apply (json_cities_no_duplicates _ _ Hl Hnd).
Qed.

Lemma ran_valid (w : World) (m : M unit) :
  ran w m ->
  favorites_ok (favs w) /\ store_ok (storage (browser w)) ->
  favorites_ok (favs (exec m w)) /\ store_ok (storage (browser (exec m w))).
Proof.
  intros R H. inversion R; subst; try (apply kept_valid; [keeps|exact H]; fail).
  (* what is left is the star *)
  destruct H as [Hf Hs]. rewrite (toggleFavorite_exec _ _ H0).
  rewrite saveFavorites_favs, saveFavorites_storage.
  split; [apply toggled_ok, Hf|].
  destruct (quota_exceeded (storage (browser w))); [exact Hs|].
  intros l E. cbn in E.
  destruct (json_cities (toggled city (favs w))) as [k|] eqn:K; [|discriminate].
  inversion E; subst. apply (json_cities_ok _ _ K), toggled_ok, Hf.
Qed.

(** X5.  Started from a store whose favourites entry, when it is a list of
    cities, has at most 20 entries and no two of the same triple, the app
    never leaves under the favourites key a list of cities that has more
    than 20 entries or two entries of the same triple.  What it writes is
    the list in memory as [JSON.stringify] writes it: with its zeros
    positive, which compares as the list in memory does, or, when a
    coordinate of a favourite is infinite, with [null] in its place, which
    is no list of cities. *)
Theorem store_stays_valid (s : Storage) (w : World) :
  store_ok s -> reachable s w -> store_ok (storage (browser w)).
Proof.
  intros Hs Hw.
  assert (K : favorites_ok (favs w) /\ store_ok (storage (browser w))); [|apply K].
  revert w Hw. apply ran_invariant.
  - split; [apply started_ok_iff, Hs|]. rewrite started_storage. exact Hs.
  - intros w m _ H R. apply ran_valid; assumption.
Qed.

Lemma store_stays_valid_witness :
  exists w, run [Select paris false; ClickStar] (started two_store) = Some w
            /\ favorites_item (storage (browser w)) = Some (Json [lyon])
            /\ store_ok (storage (browser w)).
Proof.
  destruct (run [Select paris false; ClickStar] (started two_store))
    as [w|] eqn:E; [|vm_compute in E; discriminate].
  exists w. split; [reflexivity|]. split.
  - vm_compute in E. inversion E; subst. reflexivity.
  - apply (store_stays_valid two_store w two_store_ok).
    split; [reflexivity|]. eexists. exact E.
Defined.

(** *** The weather on display *)

Lemma shapeWeather_ok data w snapshot w1 :
  shapeWeather data w = (Normal snapshot, w1) -> snapshot_ok snapshot.
Proof.
  unfold shapeWeather, bind, prop.
  destruct (Forecast.hourly data) as [[[t|] [u|] [h|]]|],
    (Forecast.current_weather data) as [cur|]; cbn; intros H; inversion H; subst.
  eexists. eexists. split; [reflexivity|].
  cbn [hourlySlice Hourly.time Hourly.temperature_2m Hourly.relativehumidity_2m].
  rewrite !length_firstn. lia.
Qed.

Lemma fetchWeather_starts city w :
  weather (ui (exec (fetchWeather city) w)) = None
  /\ loading (ui (exec (fetchWeather city) w)) = true
  /\ error (ui (exec (fetchWeather city) w)) = None.
Proof.
  unfold exec, fetchWeather, abort, bind, gets, modify, record, new_AbortController, fetch.
  cbn. destruct (weatherAbortRef (refs w)); repeat split.
Qed.

Lemma onClickQuery_exec city w :
  selectedCity (ui w) = Some city -> exec onClickQuery w = exec (fetchWeather city) w.
Proof.
  intros E. unfold exec, onClickQuery, bind, gets. cbv beta iota. rewrite E. reflexivity.
Qed.

Lemma kept_weather_ok {A} (m : M A) (w : World) :
  keeps (fun w => weather (ui w)) m -> weather_ok w -> weather_ok (exec m w).
Proof. intros K H. unfold weather_ok, exec. rewrite K. exact H. Qed.

Lemma cleared_weather_ok (w : World) : weather (ui w) = None -> weather_ok w.
Proof. intros E wd H. congruence. Qed.

Lemma ran_weather_ok (w : World) (m : M unit) :
  ran w m -> weather_ok w -> weather_ok (exec m w).
Proof.
  intros R H. inversion R; subst; try (apply kept_weather_ok; [keeps|exact H]; fail).
  - apply cleared_weather_ok.
    apply (fetchWeather_starts city (exec (selectCity city) w)).
  - rewrite (onClickQuery_exec _ _ H0). apply cleared_weather_ok, fetchWeather_starts.
  - destruct (thrown_by_forecast p w) as [e|] eqn:E.
    + unfold fetchWeather_json.
      rewrite (try_catch_finally_throw _ _ _ _ e w w (forecast_throws city p e w E)).
      apply kept_weather_ok; [keeps|exact H].
    + destruct p as [data|e]; [|discriminate].
      destruct (forecast_succeeds _ _ E) as [snapshot S].
      intros wd K. rewrite (fetchWeather_json_weather _ _ _ _ _ S) in K.
      inversion K; subst. eapply shapeWeather_ok; eassumption.
Qed.

Lemma started_weather s : weather (ui (started s)) = None.
Proof. destruct s as [[[| |l|]|] [[| |c|]|] q]; reflexivity. Qed.

Lemma hourRows_length h : List.length (hourRows h) = List.length (Hourly.time h).
Proof.
  unfold hourRows. rewrite length_map, length_combine, length_seq. apply Nat.min_id.
Qed.

(** X6.  In every world the app can reach, the result panel shows either no
    weather card at all or both cards, and the hourly card never has more
    than 24 rows; the stored sequences of temperatures and humidities are
    never longer than that of the hours. *)
Theorem weather_cards_bounded (s : Storage) (w : World) :
  reachable s w ->
  weather_ok w
  /\ (weatherCards w = (None, None)
      \/ exists cur rows, weatherCards w = (Some cur, Some rows)
                          /\ (List.length rows <= 24)%nat).
Proof.
  intros Hw.
  assert (K : weather_ok w).
  { revert w Hw. apply ran_invariant.
    - apply cleared_weather_ok, started_weather.
    - intros w m _ H R. apply ran_weather_ok; assumption. }
  split; [exact K|]. unfold weatherCards.
  destruct (weather (ui w)) as [wd|] eqn:E; [|left; reflexivity].
  destruct (K wd E) as (cur & h & -> & L & _). right.
  exists cur, (hourRows h). split; [reflexivity|]. rewrite hourRows_length. exact L.
Qed.

Lemma weather_cards_bounded_witness :
  exists rows, weatherCards paris_fetched = (Some mild, Some rows)
               /\ List.length rows = 2%nat
               /\ weather_ok paris_fetched.
Proof.
  assert (R : reachable two_store paris_fetched).
  { split; [reflexivity|].
    exists [Select paris false; FetchSettled 1 (Fulfilled http_ok);
            BodySettled 1 (Fulfilled (ForecastBody short_forecast))].
    vm_compute. reflexivity. }
  eexists. split; [vm_compute; reflexivity|]. split; [reflexivity|].
  exact (proj1 (weather_cards_bounded two_store paris_fetched R)).
Defined.

Lemma nth_error_combine_seq {A} (l : list A) : forall a i,
  nth_error (combine (seq a (List.length l)) l) i
  = option_map (fun t => ((a + i)%nat, t)) (nth_error l i).
Proof.
  induction l as [|x l IH]; intros a i; cbn [List.length seq combine].
  - destruct i; reflexivity.
  - destruct i as [|i]; cbn [nth_error option_map].
    + rewrite Nat.add_0_r. reflexivity.
    + rewrite IH. rewrite Nat.add_succ_r. reflexivity.
Qed.

Lemma hourRows_nth (h : Hourly.t) (i : nat) :
  nth_error (hourRows h) i
  = option_map (fun t => {| hour_time := slice_from 11 t;
                            hour_temp := nth_error (Hourly.temperature_2m h) i;
                            hour_hum := nth_error (Hourly.relativehumidity_2m h) i |})
      (nth_error (Hourly.time h) i).
Proof.
  unfold hourRows. rewrite nth_error_map, nth_error_combine_seq.
  destruct (nth_error (Hourly.time h) i); reflexivity.
Qed.

(** X7.  After a successful weather fetch the hourly card has
    min(24, number of upstream hours) rows; row [i] shows the upstream hour
    [i] from its twelfth character on, with the upstream temperature and
    humidity of index [i], absent where the upstream array is too short;
    when both arrays are long enough no row lacks a value. *)
Theorem hourly_rows_aligned (w : World) (controller : nat) (city : City)
    (data : Forecast.t) (cur : Current.t) (time : list string) (temp hum : list number) :
  Forecast.current_weather data = Some cur ->
  Forecast.hourly data
  = Some {| Forecast.time := Some time; Forecast.temperature_2m := Some temp;
            Forecast.relativehumidity_2m := Some hum |} ->
  let n := Nat.min 24 (List.length time) in
  exists rows,
    weatherCards (exec (fetchWeather_json controller city (Fulfilled data)) w)
    = (Some cur, Some rows)
    /\ List.length rows = n
    /\ (forall i, (i < n)%nat ->
          nth_error rows i
          = option_map (fun t => {| hour_time := slice_from 11 t;
                                    hour_temp := nth_error temp i;
                                    hour_hum := nth_error hum i |})
              (nth_error time i))
    /\ ((n <= List.length temp)%nat -> (n <= List.length hum)%nat ->
        forall row, In row rows -> hour_temp row <> None /\ hour_hum row <> None).
Proof.
  intros Hc Hh n. exists (hourRows (hourlySlice time temp hum)).
  assert (L : List.length (hourRows (hourlySlice time temp hum)) = n).
  { rewrite hourRows_length. cbn [hourlySlice Hourly.time].
    rewrite length_firstn. subst n. lia. }
  assert (N : forall i, (i < n)%nat ->
            nth_error (hourRows (hourlySlice time temp hum)) i
            = option_map (fun t => {| hour_time := slice_from 11 t;
                                      hour_temp := nth_error temp i;
                                      hour_hum := nth_error hum i |})
                (nth_error time i)).
  { intros i Hi. rewrite hourRows_nth.
    cbn [hourlySlice Hourly.time Hourly.temperature_2m Hourly.relativehumidity_2m].
    fold n. rewrite !nth_error_firstn. apply Nat.ltb_lt in Hi. rewrite Hi. reflexivity. }
  split; [|split; [exact L|split; [exact N|]]].
  - unfold weatherCards.
    rewrite (fetchWeather_json_weather _ _ _ _ _
               (shapeWeather_complete data cur time temp hum w Hc Hh)).
    reflexivity.
  - intros Ht Hu row Hrow. apply In_nth_error in Hrow as [i Hi].
    assert (Hlt : (i < n)%nat).
    { rewrite <- L. apply nth_error_Some. congruence. }
    rewrite (N i Hlt) in Hi.
    destruct (nth_error time i); [|discriminate]. cbn in Hi. inversion Hi; subst.
    cbn. split; apply nth_error_Some; lia.
Qed.

Lemma hourly_rows_aligned_witness :
  exists rows,
    weatherCards (exec (fetchWeather_json 1 paris (Fulfilled short_forecast))
                    awaiting_paris)
    = (Some mild, Some rows)
    /\ nth_error rows 1
       = Some {| hour_time := "11:00"; hour_temp := Some (Finite false 22 0);
                 hour_hum := Some (Finite false 55 0) |}
    /\ (forall row, In row rows -> hour_temp row <> None /\ hour_hum row <> None).
Proof.
  destruct (hourly_rows_aligned awaiting_paris 1 paris short_forecast mild
              _ _ _ eq_refl eq_refl) as (rows & H1 & _ & H3 & H4).
  exists rows. split; [exact H1|]. split.
  - rewrite H3; [reflexivity|cbn; lia].
  - apply H4; cbn; lia.
Defined.

(** *** The selection *)

Lemma ran_selection (w : World) (m : M unit) :
  ran w m ->
  selectedCity (ui (exec m w)) = selectedCity (ui w)
  \/ exists city, selectedCity (ui (exec m w)) = Some city
                  /\ (In city (suggestions (ui w)) \/ In city (favorites (ui w))).
Proof.
  intros R. inversion R; subst;
    try (left; match goal with
               | |- selectedCity (ui (exec ?m ?w)) = _ =>
                   assert (K : keeps (fun w => selectedCity (ui w)) m) by keeps;
                   apply K
               end; fail).
  - left. rewrite H. reflexivity.
  - right. exists city. split; [|assumption].
    assert (K : keeps (fun w => selectedCity (ui w)) (fetchWeather city)) by keeps.
    apply (K (exec (selectCity city) w)).
Qed.

(** X8.  A step of the app either leaves the selected city as it is or
    makes it a city that was among the suggestions or the favourites just
    before; in particular a selection, once made, is never cleared. *)
Theorem selection_only_from_offers (e : event) (w w' : World) :
  step e w = Some w' ->
  (selectedCity (ui w') = selectedCity (ui w)
   \/ exists city, selectedCity (ui w') = Some city
                   /\ (In city (suggestions (ui w)) \/ In city (favorites (ui w))))
  /\ (selectedCity (ui w) <> None -> selectedCity (ui w') <> None).
Proof.
  intros H. destruct (step_ran _ _ _ H) as (m & R & ->).
  pose proof (ran_selection w m R) as K. split; [exact K|].
  intros N. destruct K as [-> | (city & -> & _)]; [exact N|discriminate].
Qed.

Lemma selection_only_from_offers_witness :
  selectedCity (ui (started two_store)) = Some lyon
  /\ selectedCity (ui paris_selected) = Some paris
  /\ In paris (favorites (ui (started two_store))).
Proof.
  assert (H : step (Select paris false) (started two_store) = Some paris_selected)
    by (vm_compute; reflexivity).
  destruct (proj1 (selection_only_from_offers _ _ _ H)) as [K | (city & K & [I|I])].
  - vm_compute in K. discriminate.
  - vm_compute in I. contradiction.
  - assert (E : city = paris) by (vm_compute in K; inversion K; reflexivity).
    subst city. split; [reflexivity|]. split; [exact K|exact I].
Defined.

(** *** Requests, further *)

(** X9.  In every world the app can reach, at most one pending request of
    each kind is not aborted: two pending requests of the same kind that are
    both live are one request, the one whose controller the ref of that kind
    holds. *)
Theorem one_live_request_per_kind (s : Storage) (w : World) (r1 r2 : Request) :
  reachable s w ->
  In r1 (requests (browser w)) -> In r2 (requests (browser w)) ->
  aborted r1 = false -> aborted r2 = false ->
  same_kind (asks r1) (asks r2) = true ->
  r1 = r2 /\ current_ref (asks r1) w = Some (ctl r1).
Proof.
  intros Hw H1 H2 A1 A2 K.
  destruct (reachable_net_ok _ _ Hw) as (_ & I2 & I3).
  pose proof (I2 _ H1 A1) as E1. pose proof (I2 _ H2 A2) as E2.
  rewrite (current_ref_same_kind _ _ w K) in E1.
  split; [|apply I2; assumption].
  eapply same_controller; eauto. congruence.
Qed.

Lemma one_live_request_per_kind_witness :
  In paris_request (requests (browser paris_selected))
  /\ current_ref (ForecastOf paris) paris_selected = Some 1%nat.
Proof.
  assert (R : reachable two_store paris_selected)
    by (split; [reflexivity | exists [Select paris false]; vm_compute; reflexivity]).
  assert (H : In paris_request (requests (browser paris_selected)))
    by (right; left; reflexivity).
  split; [exact H|].
  exact (proj2 (one_live_request_per_kind two_store paris_selected paris_request
                  paris_request R H H eq_refl eq_refl eq_refl)).
Defined.

(** *** Timers, further *)

Lemma step_one_timer e w w' :
  timers_ok w ->
  (List.length (timers (browser w)) <= 1)%nat
  /\ (forall t, In t (timers (browser w)) -> (due t <= now (browser w) + 300)%nat) ->
  step e w = Some w' ->
  (List.length (timers (browser w')) <= 1)%nat
  /\ (forall t, In t (timers (browser w')) -> (due t <= now (browser w') + 300)%nat).
Proof.
  intros T [L D] H. pose proof (step_clock _ _ _ H) as K.
  destruct e;
    try (unfold clock in K; inversion K as [[K1 K2 K3 K4 K5]]; rewrite K1, K4;
         split; assumption);
    cbn [step] in H.
  - inversion H; subst.
    destruct (onQueryChange_clock v w T) as (C1 & _ & _ & C4 & _).
    rewrite C1, C4. split; [cbn; lia|]. intros t [<-|[]]. cbn. lia.
  - inversion H; subst. cbn. split; [exact L|].
    intros t Ht. specialize (D t Ht). lia.
  - destruct (find_timer id w) as [t|]; [|discriminate].
    destruct (due t <=? now (browser w))%nat; inversion H; subst.
    pose proof (fire_clock t w) as C. unfold clock in C.
    inversion C as [[C1 C2 C3 C4 C5]]. rewrite C1, C4. split.
    + pose proof (filter_length_le (fun t' => negb (timer_id t' =? timer_id t)%nat)
                    (timers (browser w))). lia.
    + intros t' Ht'. apply filter_In in Ht' as [Ht' _]. apply D, Ht'.
Qed.

(** X10.  In every world the app can reach, at most one timer is pending;
    it is the one [debounceRef] names, and it is due no later than 300 from
    now. *)
Theorem one_pending_timer (s : Storage) (w : World) :
  reachable s w ->
  (List.length (timers (browser w)) <= 1)%nat
  /\ (forall t, In t (timers (browser w)) ->
        debounceRef (refs w) = Some (timer_id t)
        /\ (due t <= now (browser w) + 300)%nat).
Proof.
  intros Hw.
  assert (K : timers_ok w
              /\ (List.length (timers (browser w)) <= 1)%nat
              /\ (forall t, In t (timers (browser w)) ->
                    (due t <= now (browser w) + 300)%nat)).
  { revert w Hw. apply reachable_invariant.
    - split; [apply started_timers_ok|].
      destruct s as [[[| |l|]|] [[| |c|]|] q]; cbn; split; try lia; contradiction.
    - intros e w w' [T I] H. split; [eapply step_timers_ok; eassumption|].
      eapply step_one_timer; eassumption. }
  destruct K as ((_ & T2 & _) & L & D). split; [exact L|].
  intros t Ht. split; [apply T2, Ht|apply D, Ht].
Qed.

Lemma one_pending_timer_witness :
  exists w, run [Input "P"; Elapse 100; Input "Pa"; Elapse 50] (started two_store) = Some w
            /\ List.length (timers (browser w)) = 1%nat
            /\ (forall t, In t (timers (browser w)) ->
                  debounceRef (refs w) = Some (timer_id t)
                  /\ (due t <= now (browser w) + 300)%nat).
Proof.
  destruct (run [Input "P"; Elapse 100; Input "Pa"; Elapse 50] (started two_store))
    as [w|] eqn:E; [|vm_compute in E; discriminate].
  exists w. split; [reflexivity|]. split.
  - vm_compute in E. inversion E; subst. reflexivity.
  - apply (one_pending_timer two_store w).
    split; [reflexivity|]. eexists. exact E.
Defined.

(** *** The loading flags *)

Lemma pending_survives (kind : target -> bool) (l : list Request) (r : Request) :
  NoDup (map ctl l) -> In r l -> kind (asks r) = false ->
  (exists r', In r' l /\ kind (asks r') = true) ->
  exists r', In r' (filter (fun x => negb (ctl x =? ctl r)%nat) l)
             /\ kind (asks r') = true.
Proof.
  intros N Hr Hk (r' & Hr' & Hk'). exists r'. split; [|exact Hk'].
  apply filter_In. split; [exact Hr'|].
  destruct (ctl r' =? ctl r)%nat eqn:E; [|reflexivity].
  apply Nat.eqb_eq in E. assert (r' = r) by (eapply same_controller; eauto).
  subst. congruence.
Qed.

Lemma pending_suspended (kind : target -> bool) (l : list Request) c p :
  (exists r', In r' l /\ kind (asks r') = true) ->
  exists r', In r' (map (set_phase c p) l) /\ kind (asks r') = true.
Proof.
  intros (r' & Hr' & Hk'). exists (set_phase c p r'). split; [apply in_map, Hr'|].
  destruct (set_phase_fields c p r') as (_ & -> & _). exact Hk'.
Qed.

Lemma pending_issued (kind : target -> bool) (l : list Request) current new :
  (exists r', In r' l /\ kind (asks r') = true) ->
  exists r', In r' (abort_all current l ++ [new]) /\ kind (asks r') = true.
Proof.
  intros (r' & Hr' & Hk').
  destruct (in_abort_all current l r' Hr') as (r'' & H1 & _ & H2 & _).
  exists r''. split; [apply in_or_app; left; exact H1|]. rewrite H2. exact Hk'.
Qed.

Lemma flags_kept (w w' : World) : busy w' = busy w -> flags_ok w -> flags_ok w'.
Proof.
  unfold busy. intros K. inversion K as [[K1 K2 K3]].
  unfold flags_ok, pending. rewrite K1, K2, K3. auto.
Qed.

Lemma flags_search_done (w w' : World) (r : Request) :
  net_ok w -> flags_ok w -> In r (requests (browser w)) -> is_search (asks r) = true ->
  busy w' = (loading (ui w), false,
             filter (fun x => negb (ctl x =? ctl r)%nat) (requests (browser w))) ->
  flags_ok w'.
Proof.
  intros (_ & _ & N) [F1 F2] Hr Hk K. unfold busy in K. inversion K as [[K1 K2 K3]].
  unfold flags_ok, pending. rewrite K1, K2, K3. split; [|discriminate].
  intros L. apply pending_survives; [exact N|exact Hr| |exact (F1 L)].
  destruct (asks r); [reflexivity|discriminate].
Qed.

Lemma flags_forecast_done (w w' : World) (r : Request) :
  net_ok w -> flags_ok w -> In r (requests (browser w)) -> is_forecast (asks r) = true ->
  busy w' = (false, loadingSuggest (ui w),
             filter (fun x => negb (ctl x =? ctl r)%nat) (requests (browser w))) ->
  flags_ok w'.
Proof.
  intros (_ & _ & N) [F1 F2] Hr Hk K. unfold busy in K. inversion K as [[K1 K2 K3]].
  unfold flags_ok, pending. rewrite K1, K2, K3. split; [discriminate|].
  intros L. apply pending_survives; [exact N|exact Hr| |exact (F2 L)].
  destruct (asks r); [discriminate|reflexivity].
Qed.

Lemma flags_suspended (w w' : World) c p :
  flags_ok w ->
  busy w' = (loading (ui w), loadingSuggest (ui w),
             map (set_phase c p) (requests (browser w))) ->
  flags_ok w'.
Proof.
  intros [F1 F2] K. unfold busy in K. inversion K as [[K1 K2 K3]].
  unfold flags_ok, pending. rewrite K1, K2, K3.
  split; intros L; apply pending_suspended; [exact (F1 L)|exact (F2 L)].
Qed.

Lemma flags_issued (w w' : World) (t : target) :
  flags_ok w ->
  net w' = issue t w ->
  (if is_forecast t then loadingSuggest (ui w') = loadingSuggest (ui w)
   else loading (ui w') = loading (ui w)) ->
  flags_ok w'.
Proof.
  intros [F1 F2] N K. unfold net, issue in N. inversion N as [[N1 N2 N3 N4]].
  assert (New : exists r', In r' (requests (browser w'))
                           /\ is_forecast (asks r') = is_forecast t
                           /\ is_search (asks r') = is_search t).
  { eexists. rewrite N1. split; [apply in_or_app; right; left; reflexivity|].
    split; reflexivity. }
  destruct New as (r' & Hr' & E1 & E2).
  unfold flags_ok, pending. destruct t as [name|city]; cbn in K, E1, E2.
  - split; [|intros _; eauto]. rewrite K, N1. intros L.
    apply pending_issued. exact (F1 L).
  - split; [intros _; eauto|]. rewrite K, N1. intros L.
    apply pending_issued. exact (F2 L).
Qed.

Lemma search_done_busy e c w :
  busy (exec (fetchSuggestions_catch e ;; fetchSuggestions_finally ;; retire c) w)
  = (loading (ui w), false,
     filter (fun x => negb (ctl x =? c)%nat) (requests (browser w))).
Proof. unfold fetchSuggestions_catch. destruct (isAbortError e); reflexivity. Qed.

Lemma forecast_done_busy e c w :
  busy (exec (fetchWeather_catch e ;; fetchWeather_finally ;; retire c) w)
  = (false, loadingSuggest (ui w),
     filter (fun x => negb (ctl x =? c)%nat) (requests (browser w))).
Proof. unfold fetchWeather_catch. destruct (isAbortError e); reflexivity. Qed.

Lemma response_continues c p handler finalizer w :
  thrown_by_response p = None ->
  busy (exec (try_catch_finally c
                (res <- await p ;;
                 (if negb (ok res) then throw Error else ret tt) ;;
                 suspend c AwaitBody) handler finalizer) w)
  = (loading (ui w), loadingSuggest (ui w),
     map (set_phase c AwaitBody) (requests (browser w))).
Proof.
  destruct p as [res|e]; cbn; [|discriminate]. destruct (ok res) eqn:E; [|discriminate].
  intros _. unfold exec, try_catch_finally, bind, await, ret. rewrite E. reflexivity.
Qed.

Lemma forecast_success_busy c city snapshot w :
  busy (exec (fetchWeather_finally ;; retire c)
          (exec (persistLastCity city) (exec (setWeather (Some snapshot)) w)))
  = (false, loadingSuggest (ui w),
     filter (fun x => negb (ctl x =? c)%nat) (requests (browser w))).
Proof.
  unfold busy, exec, persistLastCity, setItem, try_catch, bind, gets, record, modify; cbn.
  destruct (quota_exceeded (storage (browser w))); reflexivity.
Qed.

Lemma ran_flags (w : World) (m : M unit) :
  ran w m -> net_ok w -> flags_ok w -> flags_ok (exec m w).
Proof.
  intros R N F. inversion R; subst.
  - apply (flags_kept w); [|exact F].
    assert (K : keeps busy (onQueryChange v)) by keeps. apply K.
  - apply (flags_kept w); [reflexivity|exact F].
  - pose proof (fire_net t w) as K. destruct (blank (typed t)) eqn:B.
    + apply (flags_kept w); [|exact F].
      unfold busy, exec, fire, fetchSuggestions, bind, modify.
      rewrite trim_truthy, B. reflexivity.
    + assert (L : keeps (fun w => loading (ui w)) (fire t)) by keeps.
      destruct (well_formed (typed t)) eqn:W.
      * apply (flags_issued w _ (Geocode (typed t))); [exact F|apply K|apply L].
      * destruct K as [K _]. destruct F as [F1 _]. unfold flags_ok, pending. split.
        -- change (loading (ui (exec (fire t) w))) with (loading (ui (snd (fire t w)))).
           rewrite (L w). intros Hl. destruct (F1 Hl) as (r & Hr & Hk).
           destruct (in_abort_all (suggestAbortRef (refs w)) _ _ Hr)
             as (r' & Hr' & E1 & E2 & _).
           exists r'. split; [|rewrite E2; exact Hk].
           unfold net, stillborn in K. inversion K as [[K1 K2 K3 K4]]. rewrite K1.
           apply filter_In. split; [exact Hr'|].
           destruct N as (I1 & _). specialize (I1 _ Hr).
           rewrite E1. apply negb_true_iff, Nat.eqb_neq. lia.
        -- assert (E : loadingSuggest (ui (exec (fire t) w)) = false); [|congruence].
           unfold exec, fire, fetchSuggestions, bind, modify.
           rewrite trim_truthy, B.
           unfold abort, bind, gets, modify, record, new_AbortController, when, ret,
             try_catch_finally, encodeURIComponent, throw.
           rewrite W.
           destruct (seen_loadingSuggest t); cbn; destruct (suggestAbortRef (refs w));
             reflexivity.
  - apply (flags_kept w); [|exact F].
    unfold busy, exec, selectCity, bind, modify, setSelectedCity, setQuery,
      setSuggestions. reflexivity.
  - assert (F0 : flags_ok (exec (selectCity city) w)).
    { apply (flags_kept w); [reflexivity|exact F]. }
    apply (flags_issued (exec (selectCity city) w) _ (ForecastOf city));
      [exact F0| |].
    + apply (fetchWeather_net city (exec (selectCity city) w)).
    + assert (L : keeps (fun w => loadingSuggest (ui w)) (fetchWeather city)) by keeps.
      apply (L (exec (selectCity city) w)).
  - rewrite (onClickQuery_exec _ _ H).
    apply (flags_issued w _ (ForecastOf city)); [exact F|apply fetchWeather_net|].
    assert (L : keeps (fun w => loadingSuggest (ui w)) (fetchWeather city)) by keeps.
    apply L.
  - apply (flags_kept w); [|exact F].
    assert (K : keeps busy toggleFavorite) by keeps. apply K.
  - unfold fetchSuggestions_response.
    destruct (thrown_by_response p) as [e|] eqn:E.
    + rewrite (try_catch_finally_throw _ _ _ _ e w w (response_throws _ p e w E)).
      apply (flags_search_done w _ r); auto; [rewrite H0; reflexivity|].
      apply search_done_busy.
    + eapply flags_suspended; [exact F|]. apply response_continues, E.
  - unfold fetchWeather_response.
    destruct (thrown_by_response p) as [e|] eqn:E.
    + rewrite (try_catch_finally_throw _ _ _ _ e w w (response_throws _ p e w E)).
      apply (flags_forecast_done w _ r); auto; [rewrite H0; reflexivity|].
      apply forecast_done_busy.
    + eapply flags_suspended; [exact F|]. apply response_continues, E.
  - apply (flags_search_done w _ r); auto; [rewrite H0; reflexivity|].
    unfold fetchSuggestions_json. destruct p as [d|e].
    + reflexivity.
    + rewrite (try_catch_finally_throw _ _ _ _ e w w eq_refl). apply search_done_busy.
  - apply (flags_forecast_done w _ r); auto; [rewrite H0; reflexivity|].
    destruct (thrown_by_forecast p w) as [e|] eqn:E.
    + unfold fetchWeather_json.
      rewrite (try_catch_finally_throw _ _ _ _ e w w (forecast_throws city p e w E)).
      apply forecast_done_busy.
    + destruct p as [data|e]; [|discriminate].
      destruct (forecast_succeeds _ _ E) as [snapshot S].
      rewrite (fetchWeather_json_success _ _ _ _ _ S). apply forecast_success_busy.
  - apply (flags_kept w); [reflexivity|exact F].
Qed.

Lemma started_flags_ok s : flags_ok (started s).
Proof.
  destruct s as [[[| |l|]|] [[| |c|]|] q]; split; cbn; try discriminate;
    intros _; eexists; (split; [left; reflexivity|reflexivity]).
Qed.

(** X11.  In every world the app can reach, the loading hint of the weather
    is shown only while a forecast request is pending, and that of the
    suggestions only while a search is pending. *)
Theorem loading_means_pending (s : Storage) (w : World) :
  reachable s w ->
  (loading (ui w) = true -> pending is_forecast w)
  /\ (loadingSuggest (ui w) = true -> pending is_search w).
Proof.
  revert w. apply ran_invariant.
  - apply started_flags_ok.
  - intros w m Hw F R. apply ran_flags; [exact R| |exact F].
    eapply reachable_net_ok; eassumption.
Qed.

Lemma loading_means_pending_witness :
  loading (ui paris_selected) = true /\ pending is_forecast paris_selected.
Proof.
  assert (R : reachable two_store paris_selected)
    by (split; [reflexivity | exists [Select paris false]; vm_compute; reflexivity]).
  split; [reflexivity|].
  exact (proj1 (loading_means_pending two_store paris_selected R) eq_refl).
Defined.

(** *** Going away *)

Lemma cleanup_requests w :
  requests (browser (exec cleanup w))
  = abort_all (weatherAbortRef (refs w))
      (abort_all (suggestAbortRef (refs w)) (requests (browser w))).
Proof.
  destruct w as [u [[a|] [b|] [[|id]|]] br]; reflexivity.
Qed.

Lemma cleanup_timers w :
  timers (browser (exec cleanup w))
  = match debounceRef (refs w) with
    | Some id =>
        if (id =? 0)%nat then timers (browser w)
        else filter (fun t => negb (timer_id t =? id)%nat) (timers (browser w))
    | None => timers (browser w)
    end.
Proof.
  destruct w as [u [[a|] [b|] [[|id]|]] br]; reflexivity.
Qed.

Lemma cleanup_rest w :
  shown (exec cleanup w) = shown w
  /\ next_controller (browser (exec cleanup w)) = next_controller (browser w)
  /\ fst (cleanup w) = Normal tt.
Proof.
  destruct w as [u [[a|] [b|] [[|id]|]] br]; repeat split.
Qed.

Lemma lower_shown (t : target) (w v : World) :
  shown w = shown v -> shown (exec (lower t) w) = shown (exec (lower t) v).
Proof.
  unfold shown. intros H. inversion H as [[H1 H2]].
  destruct t; cbn; rewrite H1, H2; reflexivity.
Qed.

Lemma lower_lowered (t : target) (a b : bool) (w : World) :
  exists a' b', shown (exec (lower t) (lowered a b w)) = shown (lowered a' b' w).
Proof.
  destruct t.
  - exists a, true. destruct a, b; reflexivity.
  - exists true, b. destruct a, b; reflexivity.
Qed.

(** With every request aborted, what arrives takes a loading flag down and
    changes nothing else of what is shown, and every request is aborted
    still. *)
Lemma arrival_aborted (e : event) (w w' : World) :
  all_aborted w -> arrival e = true -> step e w = Some w' ->
  all_aborted w' /\ exists t, shown w' = shown (exec (lower t) w).
Proof.
  intros A Ha H.
  destruct e; try discriminate Ha; cbn [step] in H;
    destruct (find_request controller w) as [r|] eqn:F; try discriminate;
    apply find_request_some in F as [F1 F2];
    destruct (at_phase r); try discriminate;
    destruct (admissible r p) eqn:Ad; try discriminate.
  - inversion H; subst. split.
    + destruct (resume_response_quiet r p w) as [S _]. intros r' Hr'.
      destruct (settles_in _ _ _ S Hr') as (r0 & Hr0 & _ & _ & ->). apply A, Hr0.
    + exists (asks r). apply aborted_response; [apply A, F1|exact Ad].
  - destruct (resume_body r p) as [m|] eqn:E; inversion H; subst. split.
    + destruct (resume_body_quiet r p m w E) as [S _]. intros r' Hr'.
      destruct (settles_in _ _ _ S Hr') as (r0 & Hr0 & _ & _ & ->). apply A, Hr0.
    + exists (asks r). apply (aborted_body r p m w (A r F1) Ad E).
Qed.

Lemma arrivals_aborted (es : list event) : forall w w' v a b,
  all_aborted w -> shown w = shown (lowered a b v) ->
  forallb arrival es = true -> run es w = Some w' ->
  exists a' b', shown w' = shown (lowered a' b' v).
Proof.
  induction es as [|e es IH]; cbn [forallb run]; intros w w' v a b A S F H.
  - inversion H; subst. eauto.
  - apply andb_true_iff in F as [F1 F2].
    destruct (step e w) as [w1|] eqn:E; [|discriminate].
    destruct (arrival_aborted e w w1 A F1 E) as (A1 & t & S1).
    rewrite (lower_shown t w (lowered a b v) S) in S1.
    destruct (lower_lowered t a b v) as (a' & b' & L). rewrite L in S1.
    apply (IH w1 w' v a' b' A1 S1 F2 H).
Qed.

(** X12.  When the component goes away from a world the app can reach, its
    clean-up completes, leaves every pending request aborted and no timer
    pending, and changes nothing shown or stored; whatever arrives
    afterwards for those requests, one result after another, takes loading
    flags down and changes nothing else of what is shown or stored. *)
Theorem cleanup_cancels_everything (s : Storage) (w : World) :
  reachable s w ->
  let w' := exec cleanup w in
  all_aborted w'
  /\ map ctl (requests (browser w')) = map ctl (requests (browser w))
  /\ timers (browser w') = []
  /\ shown w' = shown w
  /\ fst (cleanup w) = Normal tt
  /\ (forall es w'', forallb arrival es = true -> run es w' = Some w'' ->
        exists a b, shown w'' = shown (lowered a b w')).
Proof.
  intros Hw w'. subst w'.
  destruct (reachable_net_ok _ _ Hw) as (I1 & I2 & _).
  destruct (reachable_timers_ok _ _ Hw) as (_ & T2 & T3).
  destruct (cleanup_rest w) as (S1 & S2 & S3).
  assert (A : all_aborted (exec cleanup w)).
  { intros r Hr. rewrite cleanup_requests in Hr.
    apply abort_all_in in Hr as (r1 & Hr1 & E1 & E2 & E3).
    apply abort_all_in in Hr1 as (r0 & Hr0 & F1 & F2 & F3).
    rewrite E3, F3. destruct (aborted r0) eqn:Ab; [rewrite !orb_true_r; reflexivity|].
    specialize (I2 _ Hr0 Ab). rewrite F1.
    unfold current_ref in I2. destruct (asks r0); rewrite I2, Nat.eqb_refl;
      rewrite ?orb_true_r; reflexivity. }
  split; [exact A|]. split; [|split; [|split; [exact S1|split; [exact S3|]]]].
  - rewrite cleanup_requests, !abort_all_ctl. reflexivity.
  - rewrite cleanup_timers. destruct (debounceRef (refs w)) as [id|] eqn:E.
    + specialize (T3 id eq_refl).
      assert (Z : (id =? 0)%nat = false) by (apply Nat.eqb_neq; lia). rewrite Z.
      induction (timers (browser w)) as [|t l IH]; [reflexivity|]. cbn.
      assert (Some id = Some (timer_id t)) as K by (apply T2; left; reflexivity).
      inversion K; subst. rewrite Nat.eqb_refl. cbn. apply IH.
      intros t' Ht'. apply T2. right. exact Ht'.
    + destruct (timers (browser w)) as [|t l]; [reflexivity|].
      specialize (T2 t (or_introl eq_refl)). discriminate.
  - intros es w'' F H.
    apply (arrivals_aborted es (exec cleanup w) w'' (exec cleanup w) false false A);
      [reflexivity|exact F|exact H].
Qed.

Lemma cleanup_cancels_everything_witness :
  exists w, run [Select paris false; Input "Ly"] (started two_store) = Some w
            /\ List.length (timers (browser w)) = 1%nat
            /\ map aborted (requests (browser w)) = [true; false]
            /\ timers (browser (exec cleanup w)) = []
            /\ (forall r, In r (requests (browser (exec cleanup w))) -> aborted r = true).
Proof.
  destruct (run [Select paris false; Input "Ly"] (started two_store))
    as [w|] eqn:E; [|vm_compute in E; discriminate].
  exists w. split; [reflexivity|].
  assert (R : reachable two_store w) by (split; [reflexivity | eexists; exact E]).
  destruct (cleanup_cancels_everything two_store w R) as (H1 & _ & H3 & _).
  vm_compute in E. inversion E; subst.
  split; [reflexivity|]. split; [reflexivity|]. split; [exact H3|exact H1].
Defined.

(** *** Selecting, searching, typing *)

(** X13.  A click on a suggestion or on a favourite that React takes as a
    new selection selects the city, puts its name, followed by its country
    in brackets when it has one, in the search box, empties the suggestions,
    clears the weather and the error, raises the loading flag, and makes
    one request, the forecast for that city, after aborting the controller
    that [weatherAbortRef] held; the favourites and the store stay. *)
Theorem select_fetches_once (w w' : World) (city : City) :
  step (Select city false) w = Some w' ->
  selectedCity (ui w') = Some city
  /\ query (ui w') = label city
  /\ suggestions (ui w') = []
  /\ weather (ui w') = None
  /\ error (ui w') = None
  /\ loading (ui w') = true
  /\ log (browser w') = log (browser w) ++ issue_calls (ForecastOf city) w
  /\ net w' = issue (ForecastOf city) w
  /\ favs w' = favs w
  /\ storage (browser w') = storage (browser w).
Proof.
  intros H. cbn [step] in H.
  destruct (City_mem city (suggestions (ui w)) || City_mem city (favorites (ui w)));
    inversion H; subst.
  change (exec (selectCity city ;; selectedCity_effect (Some city)) w)
    with (exec (fetchWeather city) (exec (selectCity city) w)).
  set (w0 := exec (selectCity city) w).
  destruct (fetchWeather_starts city w0) as (S1 & S2 & S3).
  destruct (fetchWeather_net city w0) as (N1 & N2).
  assert (K1 : keeps (fun w => selectedCity (ui w)) (fetchWeather city)) by keeps.
  assert (K2 : keeps (fun w => query (ui w)) (fetchWeather city)) by keeps.
  assert (K3 : keeps (fun w => suggestions (ui w)) (fetchWeather city)) by keeps.
  assert (K4 : keeps favs (fetchWeather city)) by keeps.
  assert (K5 : keeps (fun w => storage (browser w)) (fetchWeather city)) by keeps.
  split; [apply (K1 w0)|]. split; [apply (K2 w0)|]. split; [apply (K3 w0)|].
  split; [exact S1|]. split; [exact S3|]. split; [exact S2|].
  split; [exact N2|]. split; [exact N1|].
  split; [apply (K4 w0)|apply (K5 w0)].
Qed.

Lemma select_fetches_once_witness :
  query (ui paris_selected) = "Paris (France)"
  /\ log (browser paris_selected)
     = [CallFetch 0 (ForecastOf lyon); CallAbort 0; CallFetch 1 (ForecastOf paris)].
Proof.
  assert (H : step (Select paris false) (started two_store) = Some paris_selected)
    by (vm_compute; reflexivity).
  destruct (select_fetches_once _ _ _ H) as (_ & H2 & _ & _ & _ & _ & H7 & _).
  split; [exact H2|exact H7].
Defined.

Lemma copy_cities (rs : list City) :
  map (fun r => {| City.name := City.name r; City.country := City.country r;
                   City.latitude := City.latitude r;
                   City.longitude := City.longitude r |}) rs = rs.
Proof.
  induction rs as [|[n c la lo] rs IH]; cbn; [reflexivity|]. rewrite IH. reflexivity.
Qed.

(** X14.  When the body of a search arrives, the suggestions are the
    results of the response, all of them and in their order, or none when
    the response has no [results]; the loading flag of the suggestions goes
    down and the request is no longer pending; the error, the weather, the
    selection, the favourites, the store and the calls made stay. *)
Theorem search_results_shown (w : World) (c : nat) (data : GeocodingResponse) :
  let w' := exec (fetchSuggestions_json c (Fulfilled data)) w in
  suggestions (ui w') = match results data with Some rs => rs | None => [] end
  /\ loadingSuggest (ui w') = false
  /\ requests (browser w')
     = filter (fun r => negb (ctl r =? c)%nat) (requests (browser w))
  /\ (error (ui w'), weather (ui w'), selectedCity (ui w'), favs w', outside w',
      loading (ui w'), query (ui w'))
     = (error (ui w), weather (ui w), selectedCity (ui w), favs w, outside w,
        loading (ui w), query (ui w)).
Proof.
  cbv zeta. split; [|repeat split].
  change (suggestions (ui (exec (fetchSuggestions_json c (Fulfilled data)) w)))
    with (match results data with
          | Some rs =>
              map (fun r => {| City.name := City.name r; City.country := City.country r;
                               City.latitude := City.latitude r;
                               City.longitude := City.longitude r |}) rs
          | None => []
          end).
  destruct (results data); [apply copy_cities|reflexivity].
Qed.

(** X15.  On a query that is not blank: when it has no lone surrogate,
    [fetchSuggestions] raises the loading flag of the suggestions, aborts
    the controller that [suggestAbortRef] held and makes one request, the
    search for the query as it was typed, white space around it included,
    the suggestions and the error staying as they were; when it has one,
    [encodeURIComponent] throws, no request is made, the search error is
    shown and the loading flag is down, the abort having been made all the
    same. *)
Theorem search_sent_as_typed (w : World) (loadingSuggest0 : bool) (name : string) :
  blank name = false ->
  let w' := exec (fetchSuggestions loadingSuggest0 name) w in
  fst (fetchSuggestions loadingSuggest0 name w) = Normal tt
  /\ suggestions (ui w') = suggestions (ui w)
  /\ (well_formed name = true ->
      loadingSuggest (ui w') = true
      /\ log (browser w') = log (browser w) ++ issue_calls (Geocode name) w
      /\ net w' = issue (Geocode name) w
      /\ error (ui w') = error (ui w))
  /\ (well_formed name = false ->
      loadingSuggest (ui w') = false
      /\ log (browser w') = log (browser w) ++ abort_calls w
      /\ net w' = stillborn w
      /\ error (ui w') = Some SEARCH_FAILED).
Proof.
  intros H w'. subst w'.
  assert (E : forall b, well_formed name = b ->
            fst (fetchSuggestions loadingSuggest0 name w) = Normal tt
            /\ suggestions (ui (exec (fetchSuggestions loadingSuggest0 name) w))
               = suggestions (ui w)
            /\ loadingSuggest (ui (exec (fetchSuggestions loadingSuggest0 name) w)) = b
            /\ error (ui (exec (fetchSuggestions loadingSuggest0 name) w))
               = if b then error (ui w) else Some SEARCH_FAILED).
  { intros b W. unfold exec, fetchSuggestions. rewrite trim_truthy, H.
    unfold abort, bind, gets, modify, record, new_AbortController, fetch, when, ret,
      try_catch_finally, encodeURIComponent, throw.
    rewrite W.
    destruct b, loadingSuggest0; cbn; destruct (suggestAbortRef (refs w));
      repeat split. }
  destruct (well_formed name) eqn:W.
  - destruct (E true eq_refl) as (E1 & E2 & E3 & E4).
    destruct (fetchSuggestions_net loadingSuggest0 name w H W) as [N L].
    split; [exact E1|]. split; [exact E2|]. split; [|discriminate].
    intros _. split; [exact E3|]. split; [exact L|]. split; [exact N|exact E4].
  - destruct (E false eq_refl) as (E1 & E2 & E3 & E4).
    destruct (fetchSuggestions_stillborn loadingSuggest0 name w H W) as [N L].
    split; [exact E1|]. split; [exact E2|]. split; [discriminate|].
    intros _. split; [exact E3|]. split; [exact L|]. split; [exact N|exact E4].
Qed.

Lemma search_sent_as_typed_witness :
  log (browser (exec (fetchSuggestions false " Lyon ") paris_selected))
  = log (browser paris_selected) ++ [CallFetch 2 (Geocode " Lyon ")]
  /\ error (ui (exec (fetchSuggestions false lone_surrogate) paris_selected))
     = Some SEARCH_FAILED.
Proof.
  destruct (search_sent_as_typed paris_selected false " Lyon " eq_refl)
    as (_ & _ & H1 & _).
  destruct (search_sent_as_typed paris_selected false lone_surrogate eq_refl)
    as (_ & _ & _ & H2).
  split; [exact (proj1 (proj2 (H1 eq_refl)))|].
  exact (proj2 (proj2 (proj2 (H2 eq_refl)))).
Defined.

(** X16.  A keystroke puts the text in the search box, clears the error and
    the suggestions, and touches nothing else but the timers: it makes no
    request and aborts none, and leaves the selection, the favourites, the
    weather, the loading flags and the store as they were. *)
Theorem keystroke_only_types (w : World) (v : string) :
  let w' := exec (onQueryChange v) w in
  query (ui w') = v
  /\ error (ui w') = None
  /\ suggestions (ui w') = []
  /\ beside_typing w' = beside_typing w
  /\ (forall e, In e (log (browser w')) ->
        In e (log (browser w))
        \/ (exists id, e = CallClearTimeout id)
        \/ (exists id, e = CallSetTimeout id v 300)).
Proof.
  cbv zeta. destruct w as [u [a b [[|id]|]] br];
    (split; [reflexivity|]); (split; [reflexivity|]); (split; [reflexivity|]);
    (split; [reflexivity|]); cbn; intros e He;
    repeat (apply in_app_or in He as [He|He]); auto;
    destruct He as [<-|[]]; eauto.
Qed.

(** X17.  No effect and no event handler lets an exception out.  The
    handlers (a keystroke, a timer callback, a selection, a click on the
    query button or on the star, the continuation of a request once its
    promise settles, the clean-up) complete in every world: what [setItem],
    [encodeURIComponent], a rejected promise or a missing property throws
    is caught inside.  The restore throws nothing either, for any store;
    it completes unless it reads a text of another shape, which it puts in
    the state as it is.  The render is not among these. *)
Theorem no_uncaught_exception :
  catches mount
  /\ (forall s, astray s = false -> fst (mount (initial s)) = Normal tt)
  /\ (forall v, completes (onQueryChange v))
  /\ (forall t, completes (fire t))
  /\ (forall city, completes (selectCity city ;; selectedCity_effect (Some city)))
  /\ completes onClickQuery
  /\ completes toggleFavorite
  /\ (forall r p, completes (resume_response r p))
  /\ (forall r p m, resume_body r p = Some m -> completes m)
  /\ completes cleanup.
Proof.
  destruct handlers_catch as (C0 & C1 & C2 & C3 & C4 & C5 & C6 & C7 & C8).
  destruct handlers_typed as (T1 & T2 & T3 & T4 & T5 & T6 & T7 & T8).
  split; [exact C0|]. split; [apply mount_completes|].
  split; [intros v; apply caught_and_typed; auto|].
  split; [intros t; apply caught_and_typed; auto|].
  split; [intros city; apply caught_and_typed; auto|].
  split; [apply caught_and_typed; auto|].
  split; [apply caught_and_typed; auto|].
  split; [intros r p; apply caught_and_typed; auto|].
  split; [intros r p m E; apply caught_and_typed; eauto|].
  apply caught_and_typed; auto.
Qed.

Lemma no_uncaught_exception_witness :
  fst (mount (initial garbled_store)) = Normal tt
  /\ exists a, fst (fetchWeather_json 0 lyon (Rejected TypeError) (started two_store))
               = Normal a.
Proof.
  destruct no_uncaught_exception as (_ & H0 & _ & _ & _ & _ & _ & _ & H & _).
  split; [exact (H0 garbled_store eq_refl)|].
  exact (H lyon_request (Rejected TypeError) _ eq_refl (started two_store)).
Defined.

(** X18.  The query button works only with a city selected and the loading
    flag down; a click then clears the weather and the error, raises the
    loading flag and makes one request, the forecast for the selected city,
    after aborting the controller that [weatherAbortRef] held; the
    selection, the search box, the suggestions, the favourites and the store
    stay. *)
Theorem requery_fetches_selected (w w' : World) :
  step ClickQuery w = Some w' ->
  exists city,
    selectedCity (ui w) = Some city
    /\ loading (ui w) = false
    /\ weather (ui w') = None
    /\ error (ui w') = None
    /\ loading (ui w') = true
    /\ log (browser w') = log (browser w) ++ issue_calls (ForecastOf city) w
    /\ net w' = issue (ForecastOf city) w
    /\ (selectedCity (ui w'), query (ui w'), suggestions (ui w'), favs w',
        storage (browser w'))
       = (selectedCity (ui w), query (ui w), suggestions (ui w), favs w,
          storage (browser w)).
Proof.
  intros H. cbn [step] in H.
  destruct (selectedCity (ui w)) as [city|] eqn:E; [|discriminate].
  destruct (loading (ui w)) eqn:L; inversion H; subst.
  exists city. rewrite (onClickQuery_exec _ _ E).
  destruct (fetchWeather_starts city w) as (S1 & S2 & S3).
  destruct (fetchWeather_net city w) as (N1 & N2).
  split; [reflexivity|]. split; [reflexivity|].
  split; [exact S1|]. split; [exact S3|]. split; [exact S2|].
  split; [exact N2|]. split; [exact N1|].
  assert (K : keeps (fun w => (selectedCity (ui w), query (ui w), suggestions (ui w),
                               favs w, storage (browser w))) (fetchWeather city))
    by keeps.
  rewrite <- E. apply (K w).
Qed.

Lemma requery_fetches_selected_witness :
  exists w', step ClickQuery paris_fetched = Some w'
             /\ weather (ui w') = None
             /\ log (browser w')
                = log (browser paris_fetched) ++ [CallAbort 1; CallFetch 2 (ForecastOf paris)].
Proof.
  destruct (step ClickQuery paris_fetched) as [w'|] eqn:E;
    [|vm_compute in E; discriminate].
  exists w'. split; [reflexivity|].
  destruct (requery_fetches_selected _ _ E) as (city & H1 & _ & H3 & _ & _ & H6 & _).
  assert (C : city = paris) by (vm_compute in H1; inversion H1; reflexivity).
  subst city. split; [exact H3|exact H6].
Defined.

(** *** A failed forecast *)

Lemma busy_requests (w : World) a b l : busy w = (a, b, l) -> requests (browser w) = l.
Proof. unfold busy. intros H. inversion H. reflexivity. Qed.

Lemma waiting_kept (w w' : World) :
  weather (ui w') = weather (ui w) ->
  (forall r', In r' (requests (browser w')) -> is_forecast (asks r') = true ->
     aborted r' = false ->
     exists r, In r (requests (browser w)) /\ is_forecast (asks r) = true
               /\ aborted r = false) ->
  waiting_blank w -> waiting_blank w'.
Proof.
  intros Ew Hr Q r' Hr' Hk Ha. destruct (Hr r' Hr' Hk Ha) as (r & H1 & H2 & H3).
  rewrite Ew. exact (Q r H1 H2 H3).
Qed.

Lemma waiting_settles (w w' : World) :
  weather (ui w') = weather (ui w) ->
  settles (requests (browser w)) (requests (browser w')) ->
  waiting_blank w -> waiting_blank w'.
Proof.
  intros Ew S Q. apply (waiting_kept w); [exact Ew| |exact Q].
  intros r' Hr' Hk Ha. destruct (settles_in _ _ _ S Hr') as (r & H1 & _ & H2 & H3).
  exists r. split; [exact H1|]. split; congruence.
Qed.

Lemma waiting_cleared (w : World) : weather (ui w) = None -> waiting_blank w.
Proof. intros E r _ _ _. exact E. Qed.

Lemma admissible_live {A} (r : Request) (p : settled A) :
  admissible r p = true -> (forall x, p = Rejected x -> isAbortError x = false) ->
  aborted r = false.
Proof.
  intros Ad N. destruct (aborted r) eqn:Ab; [|reflexivity].
  destruct (admissible_aborted r p Ab Ad) as (x & E & Hx).
  rewrite (N x E) in Hx. discriminate.
Qed.

Lemma ran_waiting (w : World) (m : M unit) :
  ran w m -> net_ok w -> waiting_blank w -> waiting_blank (exec m w).
Proof.
  intros R N Q.
  inversion R; subst.
  - apply (waiting_settles w); [| |exact Q].
    + assert (K : keeps (fun w => weather (ui w)) (onQueryChange v)) by keeps. apply K.
    + left. assert (K : keeps busy (onQueryChange v)) by keeps.
      apply (busy_requests _ _ _ _ (K w)).
  - apply (waiting_settles w); [reflexivity|left; reflexivity|exact Q].
  - assert (K : keeps (fun w => weather (ui w)) (fire t)) by keeps.
    pose proof (fire_net t w) as F. destruct (blank (typed t)).
    + apply (waiting_settles w); [apply K| |exact Q].
      unfold net in F. inversion F as [[F1 F2 F3 F4]]. left. reflexivity.
    + apply (waiting_kept w); [apply K| |exact Q].
      intros r' Hr' Hk Ha.
      assert (Old : exists r0, In r0 (requests (browser w)) /\ asks r' = asks r0
                               /\ (aborted r' = false -> aborted r0 = false)).
      { destruct (well_formed (typed t)); destruct F as [F _].
        - unfold net, issue in F. inversion F as [[F1 F2 F3 F4]]. rewrite F1 in Hr'.
          apply in_app_or in Hr'. destruct Hr' as [Hr' | Hr'].
          + apply abort_all_in in Hr'. destruct Hr' as (r0 & H1 & _ & H2 & H3).
            exists r0. split; [exact H1|]. split; [exact H2|]. intros Ha'.
            rewrite Ha' in H3. symmetry in H3. apply orb_false_iff in H3. apply H3.
          + destruct Hr' as [E|[]]. subst r'. discriminate.
        - destruct (stillborn_in w _ r' F Hr') as (r0 & H1 & _ & H2 & H3).
          exists r0. split; [exact H1|]. split; [exact H2|]. intros Ha'.
          rewrite Ha' in H3. symmetry in H3. apply orb_false_iff in H3. apply H3. }
      destruct Old as (r0 & H1 & H2 & H3).
      exists r0. split; [exact H1|]. split; [rewrite <- H2; exact Hk|auto].
  - apply (waiting_settles w); [reflexivity|left; reflexivity|exact Q].
  - apply waiting_cleared. apply (fetchWeather_starts city (exec (selectCity city) w)).
  - rewrite (onClickQuery_exec _ _ H). apply waiting_cleared, fetchWeather_starts.
  - apply (waiting_settles w); [| |exact Q].
    + assert (K : keeps (fun w => weather (ui w)) toggleFavorite) by keeps. apply K.
    + left. assert (K : keeps busy toggleFavorite) by keeps.
      apply (busy_requests _ _ _ _ (K w)).
  - apply (waiting_settles w); [| |exact Q].
    + assert (K : keeps (fun w => weather (ui w)) (fetchSuggestions_response (ctl r) p))
        by keeps. apply K.
    + unfold fetchSuggestions_response.
      destruct (thrown_by_response p) as [e|] eqn:E.
      * rewrite (try_catch_finally_throw _ _ _ _ e w w (response_throws _ p e w E)).
        right; right. exists (ctl r).
        apply (busy_requests _ _ _ _ (search_done_busy e (ctl r) w)).
      * right; left. exists (ctl r), AwaitBody.
        apply (busy_requests _ _ _ _ (response_continues _ _ _ _ w E)).
  - apply (waiting_settles w); [| |exact Q].
    + assert (K : keeps (fun w => weather (ui w)) (fetchWeather_response (ctl r) p))
        by keeps. apply K.
    + unfold fetchWeather_response.
      destruct (thrown_by_response p) as [e|] eqn:E.
      * rewrite (try_catch_finally_throw _ _ _ _ e w w (response_throws _ p e w E)).
        right; right. exists (ctl r).
        apply (busy_requests _ _ _ _ (forecast_done_busy e (ctl r) w)).
      * right; left. exists (ctl r), AwaitBody.
        apply (busy_requests _ _ _ _ (response_continues _ _ _ _ w E)).
  - apply (waiting_settles w); [| |exact Q].
    + assert (K : keeps (fun w => weather (ui w)) (fetchSuggestions_json (ctl r) p))
        by keeps. apply K.
    + right; right. exists (ctl r). unfold fetchSuggestions_json. destruct p as [d|e].
      * reflexivity.
      * rewrite (try_catch_finally_throw _ _ _ _ e w w eq_refl).
        apply (busy_requests _ _ _ _ (search_done_busy e (ctl r) w)).
  - destruct (thrown_by_forecast p w) as [e|] eqn:E.
    + unfold fetchWeather_json.
      rewrite (try_catch_finally_throw _ _ _ _ e w w (forecast_throws city p e w E)).
      apply (waiting_settles w); [| |exact Q].
      * assert (K : keeps (fun w => weather (ui w))
                      (fetchWeather_catch e ;; fetchWeather_finally ;; retire (ctl r)))
          by keeps. apply K.
      * right; right. exists (ctl r).
        apply (busy_requests _ _ _ _ (forecast_done_busy e (ctl r) w)).
    + (* the forecast arrives: its request was the live one, and goes *)
      destruct p as [data|e]; [|discriminate].
      assert (Lr : aborted r = false).
      { apply (admissible_live r (Fulfilled data) H1). discriminate. }
      destruct (forecast_succeeds _ _ E) as [snapshot S].
      rewrite (fetchWeather_json_success _ _ _ _ _ S).
      intros r' Hr' Hk Ha. exfalso.
      rewrite (busy_requests _ _ _ _ (forecast_success_busy (ctl r) city snapshot w))
        in Hr'.
      apply filter_In in Hr'. destruct Hr' as [Hr' Hc].
      destruct N as (_ & I2 & I3).
      assert (X : r' = r).
      { apply (same_controller (requests (browser w))); [exact I3|exact Hr'|exact H|].
        pose proof (I2 _ Hr' Ha) as E1. pose proof (I2 _ H Lr) as E2.
        rewrite H0 in E2. destruct (asks r'); [discriminate|].
        cbn in E1, E2. congruence. }
      subst r'. rewrite Nat.eqb_refl in Hc. discriminate.
  - apply (waiting_settles w); [reflexivity|left; reflexivity|exact Q].
Qed.

Lemma reachable_waiting (s : Storage) (w : World) : reachable s w -> waiting_blank w.
Proof.
  apply ran_invariant.
  - apply waiting_cleared, started_weather.
  - intros w0 m Hw Q R. apply ran_waiting; [exact R|exact (reachable_net_ok _ _ Hw)|exact Q].
Qed.

(** X19.  When a pending forecast request fails with anything but an abort
    error, at [fetch], on the status, on the body or on the shape of the
    forecast, the panel shows the weather error message and no weather: the
    weather was cleared when the request was issued, and nothing has set it
    since. *)
Theorem failed_forecast_shows_no_weather (s : Storage) (w : World) (r : Request)
    (city : City) (e : thrown) :
  reachable s w ->
  In r (requests (browser w)) ->
  asks r = ForecastOf city ->
  isAbortError e = false ->
  (forall p, admissible r p = true -> thrown_by_response p = Some e ->
     let w' := exec (fetchWeather_response (ctl r) p) w in
     weather (ui w') = None /\ error (ui w') = Some WEATHER_FAILED
     /\ loading (ui w') = false)
  /\ (forall p, admissible r p = true -> thrown_by_forecast p w = Some e ->
     let w' := exec (fetchWeather_json (ctl r) city p) w in
     weather (ui w') = None /\ error (ui w') = Some WEATHER_FAILED
     /\ loading (ui w') = false).
Proof.
  intros Hw Hr Hk He.
  assert (Live : forall A (p : settled A),
             admissible r p = true -> (forall x, p = Rejected x -> x = e) ->
             weather (ui w) = None).
  { intros A p Ad Hx. apply (reachable_waiting s w Hw r Hr); [rewrite Hk; reflexivity|].
    apply (admissible_live r p Ad). intros x E. rewrite (Hx x E). exact He. }
  assert (K : keeps (fun w => weather (ui w))
                (fetchWeather_catch e ;; fetchWeather_finally ;; retire (ctl r)))
    by keeps.
  pose proof (weather_handled e (ctl r) w) as [H1 H2]. rewrite He in H1.
  split; intros p Ad T; cbv zeta.
  - unfold fetchWeather_response.
    rewrite (try_catch_finally_throw _ _ _ _ e w w (response_throws _ p e w T)).
    split; [|split; [exact H1|exact H2]].
    unfold exec. rewrite K. apply (Live _ p Ad).
    intros x E. subst p. cbn in T. congruence.
  - unfold fetchWeather_json.
    rewrite (try_catch_finally_throw _ _ _ _ e w w (forecast_throws city p e w T)).
    split; [|split; [exact H1|exact H2]].
    unfold exec. rewrite K. apply (Live _ p Ad).
    intros x E. subst p. cbn in T. congruence.
Qed.

Lemma failed_forecast_shows_no_weather_witness :
  let w' := exec (fetchWeather_json 1 paris (Fulfilled bare_forecast)) awaiting_paris in
  weather (ui w') = None /\ error (ui w') = Some WEATHER_FAILED /\ loading (ui w') = false.
Proof.
  assert (R : reachable two_store awaiting_paris).
  { split; [reflexivity|].
    exists [Select paris false; FetchSettled 1 (Fulfilled http_ok)].
    vm_compute. reflexivity. }
  pose (r := {| ctl := 1; asks := ForecastOf paris; at_phase := AwaitBody;
                aborted := false |}).
  assert (I : In r (requests (browser awaiting_paris))).
  { vm_compute. right. left. reflexivity. }
  exact (proj2 (failed_forecast_shows_no_weather two_store awaiting_paris r
                  paris TypeError R I eq_refl eq_refl)
           (Fulfilled bare_forecast) eq_refl eq_refl).
Defined.
